(** * Investment Video Analyzer: the pipeline of [app.py]

    A shallow embedding of the functions of [app.py] that resolve a video
    reference, acquire it under a size budget, submit it to the analysis
    service and extract a JSON object from the service's reply, together
    with the properties of that pipeline.

    Python [str] values are sequences of Unicode code points; the external
    collaborators ([json], [yt_dlp], [os], [tempfile], the Gemini client,
    Streamlit) are modelled at their boundary. *)

From Stdlib Require Import ZArith NArith List String Ascii QArith Lia Bool.
From Stdlib Require Import SpecFloat DecimalString.
From stdpp Require Import base option list gmap strings.

Local Open Scope Z_scope.

(** ** Python [str] *)

Module PyStr.

(** A character is a Unicode code point. *)
Definition char := N.
Definition text := list char.

(** A Rocq string literal read as text, one code point per character
    (ASCII literals only are used). *)
Fixpoint str (s : string) : text :=
  match s with
  | EmptyString => []
  | String a r => N_of_ascii a :: str r
  end.

Definition char_eqb (a b : char) : bool := N.eqb a b.

Fixpoint startswith (s p : text) {struct p} : bool :=
  match p, s with
  | [], _ => true
  | a :: p', b :: s' => char_eqb a b && startswith s' p'
  | _ :: _, [] => false
  end.

(** [s.find(sub)]: the lowest index at which [sub] occurs, or -1. *)
Fixpoint find_from (sub s : text) (i : Z) : Z :=
  if startswith s sub then i
  else match s with
       | [] => -1
       | _ :: r => find_from sub r (i + 1)
       end.

Definition find (s sub : text) : Z := find_from sub s 0.

(** [s.rfind(sub)]: the highest index at which [sub] occurs, or -1. *)
Fixpoint rfind_from (sub s : text) (i : Z) : Z :=
  match s with
  | [] => if startswith [] sub then i else -1
  | _ :: r =>
      let j := rfind_from sub r (i + 1) in
      if j =? -1 then (if startswith s sub then i else -1) else j
  end.

Definition rfind (s sub : text) : Z := rfind_from sub s 0.

(** [sub in s] *)
Definition contains (sub s : text) : bool := negb (find s sub =? -1).

(** [s.split(sep)] for a non-empty separator: the pieces between the
    non-overlapping occurrences of [sep], scanned left to right.  [skip]
    counts the characters of a matched separator still to be passed and
    [cur] holds the current piece, most recent character first. *)
Fixpoint split_go (sep s : text) (skip : nat) (cur : text) : list text :=
  match s with
  | [] => [rev cur]
  | c :: r =>
      match skip with
      | S k => split_go sep r k cur
      | O =>
          if startswith s sep
          then rev cur :: split_go sep r (length sep - 1) []
          else split_go sep r 0 (c :: cur)
      end
  end.

Definition split (s sep : text) : list text := split_go sep s 0 [].

(** [str.isspace] on one code point: the characters [str.strip()] removes. *)
Definition isspace (c : char) : bool :=
  ((9 <=? c) && (c <=? 13) || (28 <=? c) && (c <=? 32)
   || (c =? 133) || (c =? 160) || (c =? 5760)
   || (8192 <=? c) && (c <=? 8202)
   || (c =? 8232) || (c =? 8233) || (c =? 8239) || (c =? 8287)
   || (c =? 12288))%N.

Fixpoint lstrip (s : text) : text :=
  match s with
  | c :: r => if isspace c then lstrip r else s
  | [] => []
  end.

Definition rstrip (s : text) : text := rev (lstrip (rev s)).

(** [s.strip()] *)
Definition strip (s : text) : text := rstrip (lstrip s).

(** A slice bound of [s[a:b]]: a negative bound counts from the end, and the
    result is clamped to [0, len(s)]. *)
Definition slice_bound (len i : Z) : Z :=
  let j := if i <? 0 then i + len else i in
  Z.max 0 (Z.min len j).

(** [s[a:b]] *)
Definition slice (s : text) (a b : Z) : text :=
  let len := Z.of_nat (length s) in
  let lo := slice_bound len a in
  let hi := slice_bound len b in
  take (Z.to_nat (hi - lo)) (drop (Z.to_nat lo) s).

(** [s[:n]] *)
Definition slice_to (s : text) (n : Z) : text :=
  slice s 0 n.

End PyStr.
Import PyStr.

(** ** Python values and exceptions *)

Module Py.

(** Binary64 floats, as [float] has them. *)
Definition float := spec_float.
Definition float_of_Z (z : Z) : float := binary_normalize 53 1024 z 0 false.

(** The value of the decimal literal [m * 10^e] (with [0 <= m], negated when
    [neg]) rounded to the nearest binary64 float, ties to even, as [float(s)]
    does.  For a negative exponent the quotient keeps at least 56 bits and a
    sticky bit for the remainder. *)
Definition float_of_decimal (neg : bool) (m e : Z) : float :=
  if m =? 0 then S754_zero neg
  else if 0 <=? e then binary_normalize 53 1024 (cond_Zopp neg (m * 10 ^ e)) 0 neg
  else
    let d := 10 ^ (- e) in
    let k := Z.max 0 (Z.log2 d - Z.log2 m + 56) in
    let q := (m * 2 ^ k) / d in
    let sticky := if (m * 2 ^ k) mod d =? 0 then 0 else 1 in
    binary_normalize 53 1024 (cond_Zopp neg (2 * q + sticky)) (- k - 1) neg.

(** The values [json.loads] produces, which are also the values the
    metadata provider's info dictionary holds.  A [dict] keeps its keys in
    insertion order and holds each key once. *)
#[warnings="-register-all"]
Inductive value :=
| VNone
| VBool (b : bool)
| VInt (z : Z)
| VFloat (f : float)
| VStr (s : text)
| VList (l : list value)
| VDict (d : list (text * value)).

Definition dict := list (text * value).

Definition text_eqb (a b : text) : bool := bool_decide (a = b).

(** [d.get(k)], [None] when the key is absent. *)
Fixpoint dict_lookup (d : dict) (k : text) : option value :=
  match d with
  | [] => None
  | (k', v) :: r => if text_eqb k' k then Some v else dict_lookup r k
  end.

(** [d.get(k, default)] *)
Definition dict_get (d : dict) (k : text) (default : value) : value :=
  match dict_lookup d k with
  | Some v => v
  | None => default
  end.

(** [d[k] = v]: an existing key keeps its place and takes the new value. *)
Fixpoint dict_set (d : dict) (k : text) (v : value) : dict :=
  match d with
  | [] => [(k, v)]
  | (k', v') :: r =>
      if text_eqb k' k then (k', v) :: r else (k', v') :: dict_set r k v
  end.

(** [dict(pairs)] *)
Definition dict_of_pairs (pairs : list (text * value)) : dict :=
  fold_left (fun d kv => dict_set d (fst kv) (snd kv)) pairs [].

(** Truth value testing, [bool(v)]. *)
Definition truthy (v : value) : bool :=
  match v with
  | VNone => false
  | VBool b => b
  | VInt z => negb (z =? 0)
  | VFloat f => negb (SFeqb f (S754_zero false))
  | VStr s => negb (bool_decide (s = []))
  | VList l => negb (bool_decide (length l = 0%nat))
  | VDict d => negb (bool_decide (length d = 0%nat))
  end.

(** The exceptions of the pipeline; all are subclasses of [Exception].
    [ExternalError] stands for whatever a collaborator raises (yt_dlp's
    [DownloadError], a client or network error). *)
Inductive Exception :=
| JSONDecodeError (msg : string) (pos : Z)
| IndexError
| AttributeError
| TypeError
| FileNotFoundError (path : text)
| NotEmptyError (path : text)
| ExternalError (cls : string) (msg : text).

Definition is_JSONDecodeError (e : Exception) : bool :=
  match e with
  | JSONDecodeError _ _ => true
  | _ => false
  end.

(** [l[i]] for a non-negative index. *)
Definition index {A} (l : list A) (i : nat) : A + Exception :=
  match l !! i with
  | Some x => inl x
  | None => inr IndexError
  end.

End Py.
Import Py.

(** ** The JSON decoder

    [json.loads] belongs to Python's standard library.  The pipeline is
    stated over an arbitrary decoder; [json_loads] below is the decoder of
    the standard library on [str] input (strict mode, default hooks), used
    wherever a concrete reply is decoded. *)

Module Json.

Definition decode_result (A : Type) : Type := (A * text) + (string * text).

Definition is_ws (c : char) : bool :=
  ((c =? 32) || (c =? 9) || (c =? 10) || (c =? 13))%N.

Fixpoint skip_ws (s : text) : text :=
  match s with
  | c :: r => if is_ws c then skip_ws r else s
  | [] => []
  end.

Definition is_digit (c : char) : bool := ((48 <=? c) && (c <=? 57))%N.

Definition hexval (c : char) : option N :=
  (if (48 <=? c) && (c <=? 57) then Some (c - 48)
   else if (97 <=? c) && (c <=? 102) then Some (c - 87)
   else if (65 <=? c) && (c <=? 70) then Some (c - 55)
   else None)%N.

Definition hex4 (a b c d : char) : option N :=
  match hexval a, hexval b, hexval c, hexval d with
  | Some x, Some y, Some z, Some w => Some (((x * 16 + y) * 16 + z) * 16 + w)%N
  | _, _, _, _ => None
  end.

(** The character a backslash escape other than [\u] stands for. *)
Definition unescape (c : char) : option char :=
  (if c =? 34 then Some 34 else if c =? 92 then Some 92
   else if c =? 47 then Some 47 else if c =? 98 then Some 8
   else if c =? 102 then Some 12 else if c =? 110 then Some 10
   else if c =? 114 then Some 13 else if c =? 116 then Some 9
   else None)%N.

Definition is_high_surrogate (u : N) : bool := ((55296 <=? u) && (u <=? 56319))%N.
Definition is_low_surrogate (u : N) : bool := ((56320 <=? u) && (u <=? 57343))%N.

(** [scanstring]: the body of a string after its opening quote.  [start] is
    the text from the opening quote on, [acc] the decoded characters so far,
    most recent first. *)
Fixpoint scanstring (start s acc : text) : decode_result text :=
  match s with
  | [] => inr ("Unterminated string starting at"%string, start)
  | c :: r =>
      if (c =? 34)%N then inl (rev acc, r)
      else if (c =? 92)%N then
        match r with
        | [] => inr ("Unterminated string starting at"%string, start)
        | e :: r1 =>
            if (e =? 117)%N then
              match r1 with
              | h1 :: h2 :: h3 :: h4 :: r2 =>
                  match hex4 h1 h2 h3 h4 with
                  | None => inr ("Invalid \uXXXX escape"%string, s)
                  | Some u =>
                      if is_high_surrogate u then
                        match r2 with
                        | b :: u' :: g1 :: g2 :: g3 :: g4 :: r3 =>
                            if ((b =? 92) && (u' =? 117))%N then
                              match hex4 g1 g2 g3 g4 with
                              | None => inr ("Invalid \uXXXX escape"%string, r2)
                              | Some u2 =>
                                  if is_low_surrogate u2
                                  then scanstring start r3
                                         ((65536 + ((u - 55296) * 1024 + (u2 - 56320)))%N :: acc)
                                  else scanstring start r2 (u :: acc)
                              end
                            else scanstring start r2 (u :: acc)
                        | _ => scanstring start r2 (u :: acc)
                        end
                      else scanstring start r2 (u :: acc)
                  end
              | _ => inr ("Invalid \uXXXX escape"%string, s)
              end
            else
              match unescape e with
              | Some ch => scanstring start r1 (ch :: acc)
              | None => inr ("Invalid \escape"%string, s)
              end
        end
      else if (c <? 32)%N then inr ("Invalid control character at"%string, s)
      else scanstring start r (c :: acc)
  end.

Fixpoint span_digits (s : text) : text * text :=
  match s with
  | c :: r =>
      if is_digit c then let '(d, t) := span_digits r in (c :: d, t) else ([], s)
  | [] => ([], [])
  end.

Definition digits_value (d : text) : Z :=
  fold_left (fun acc c => acc * 10 + Z.of_N (c - 48)) d 0.

(** The integer part of a number: [0|[1-9][0-9]*]. *)
Definition match_integer (s : text) : option (text * text) :=
  match s with
  | c :: r =>
      if (c =? 48)%N then Some ([c], r)
      else if is_digit c then Some (span_digits s)
      else None
  | [] => None
  end.

(** The optional fraction: [(\.[0-9]+)?]. *)
Definition match_frac (s : text) : text * text :=
  match s with
  | c :: r =>
      if (c =? 46)%N then
        match span_digits r with
        | ([], _) => ([], s)
        | (d, t) => (d, t)
        end
      else ([], s)
  | [] => ([], s)
  end.

(** The optional exponent: [([eE][-+]?[0-9]+)?]. *)
Definition match_exp (s : text) : option Z * text :=
  match s with
  | c :: r =>
      if ((c =? 101) || (c =? 69))%N then
        let '(neg, r') :=
          match r with
          | sg :: t => if (sg =? 45)%N then (true, t)
                       else if (sg =? 43)%N then (false, t) else (false, r)
          | [] => (false, r)
          end in
        match span_digits r' with
        | ([], _) => (None, s)
        | (d, t) => (Some (cond_Zopp neg (digits_value d)), t)
        end
      else (None, s)
  | [] => (None, s)
  end.

(** A number literal at the head of [s]: an [int] when it has neither
    fraction nor exponent, a [float] otherwise. *)
Definition match_number (s : text) : option (value * text) :=
  let '(neg, s1) :=
    match s with
    | c :: r => if (c =? 45)%N then (true, r) else (false, s)
    | [] => (false, s)
    end in
  match match_integer s1 with
  | None => None
  | Some (int_digits, s2) =>
      let '(frac_digits, s3) := match_frac s2 in
      let '(exp, s4) := match_exp s3 in
      match frac_digits, exp with
      | [], None => Some (VInt (cond_Zopp neg (digits_value int_digits)), s4)
      | _, _ =>
          let e := match exp with Some x => x | None => 0 end in
          Some (VFloat (float_of_decimal neg
                          (digits_value (int_digits ++ frac_digits))
                          (e - Z.of_nat (length frac_digits))), s4)
      end
  end.

(** One JSON value at the head of [s].  [parse_pairs] continues an object
    just after the opening quote of a key, [parse_items] an array at the
    start of an element.  Every call consumes input and a nested value
    costs two units of fuel, so fuel above twice the length of the text is
    never exhausted ([JsonFacts.scan_once_fuel]). *)
Fixpoint scan_once (fuel : nat) (s : text) : decode_result value :=
  match fuel with
  | O => inr ("Expecting value"%string, s)
  | S n =>
      match s with
      | [] => inr ("Expecting value"%string, s)
      | c :: r =>
          if (c =? 34)%N then
            match scanstring s r [] with
            | inl (k, t) => inl (VStr k, t)
            | inr e => inr e
            end
          else if (c =? 123)%N then
            match skip_ws r with
            | c1 :: r1 =>
                if (c1 =? 125)%N then inl (VDict [], r1)
                else if (c1 =? 34)%N then parse_pairs n (c1 :: r1) r1 []
                else inr ("Expecting property name enclosed in double quotes"%string,
                          c1 :: r1)
            | [] => inr ("Expecting property name enclosed in double quotes"%string, [])
            end
          else if (c =? 91)%N then
            match skip_ws r with
            | c1 :: r1 =>
                if (c1 =? 93)%N then inl (VList [], r1)
                else parse_items n (c1 :: r1) []
            | [] => inr ("Expecting value"%string, [])
            end
          else if startswith s (str "null") then inl (VNone, drop 4 s)
          else if startswith s (str "true") then inl (VBool true, drop 4 s)
          else if startswith s (str "false") then inl (VBool false, drop 5 s)
          else
            match match_number s with
            | Some r => inl r
            | None =>
                if startswith s (str "NaN") then inl (VFloat S754_nan, drop 3 s)
                else if startswith s (str "Infinity")
                then inl (VFloat (S754_infinity false), drop 8 s)
                else if startswith s (str "-Infinity")
                then inl (VFloat (S754_infinity true), drop 9 s)
                else inr ("Expecting value"%string, s)
            end
      end
  end
with parse_pairs (fuel : nat) (start s : text) (acc : list (text * value))
  : decode_result value :=
  match fuel with
  | O => inr ("Expecting value"%string, s)
  | S n =>
      match scanstring start s [] with
      | inr e => inr e
      | inl (key, s1) =>
          match skip_ws s1 with
          | c :: s2 =>
              if (c =? 58)%N then
                match scan_once n (skip_ws s2) with
                | inr e => inr e
                | inl (v, s3) =>
                    let acc' := acc ++ [(key, v)] in
                    match skip_ws s3 with
                    | c' :: s4 =>
                        if (c' =? 125)%N then inl (VDict (dict_of_pairs acc'), s4)
                        else if (c' =? 44)%N then
                          match skip_ws s4 with
                          | q :: s5 =>
                              if (q =? 34)%N then parse_pairs n (q :: s5) s5 acc'
                              else inr ("Expecting property name enclosed in double quotes"%string,
                                        q :: s5)
                          | [] => inr ("Expecting property name enclosed in double quotes"%string,
                                       [])
                          end
                        else inr ("Expecting ',' delimiter"%string, c' :: s4)
                    | [] => inr ("Expecting ',' delimiter"%string, [])
                    end
                end
              else inr ("Expecting ':' delimiter"%string, c :: s2)
          | [] => inr ("Expecting ':' delimiter"%string, [])
          end
      end
  end
with parse_items (fuel : nat) (s : text) (acc : list value) : decode_result value :=
  match fuel with
  | O => inr ("Expecting value"%string, s)
  | S n =>
      match scan_once n s with
      | inr e => inr e
      | inl (v, s1) =>
          let acc' := acc ++ [v] in
          match skip_ws s1 with
          | c :: s2 =>
              if (c =? 93)%N then inl (VList acc', s2)
              else if (c =? 44)%N then parse_items n (skip_ws s2) acc'
              else inr ("Expecting ',' delimiter"%string, c :: s2)
          | [] => inr ("Expecting ',' delimiter"%string, [])
          end
      end
  end.

(** [json.loads(s)] *)
Definition json_loads (s : text) : value + Exception :=
  let pos_of (suffix : text) := Z.of_nat (length s) - Z.of_nat (length suffix) in
  if startswith s [65279%N]
  then inr (JSONDecodeError "Unexpected UTF-8 BOM (decode using utf-8-sig)" 0)
  else
    match scan_once (2 * length s + 1)%nat (skip_ws s) with
    | inr (m, suffix) => inr (JSONDecodeError m (pos_of suffix))
    | inl (v, rest) =>
        match skip_ws rest with
        | [] => inl v
        | t => inr (JSONDecodeError "Extra data" (pos_of t))
        end
    end.

End Json.

(** ** The world the pipeline runs in

    The file system, the Streamlit calls made so far, the requests sent to
    the analysis service, and (as a history) the directories [mkdtemp] has
    made.  A computation threads the world and either returns a value or
    raises an exception. *)

Module Runtime.

Definition bytes := list Byte.byte.

(** A file system entry: a regular file with its content, or a directory. *)
Inductive node :=
| File (content : bytes)
| Dir.

(** The pieces of an f-string: literal text, a [str], a value rendered with
    [str()], an exception rendered with [str(e)], a number rendered with
    [:.1f]. *)
Inductive frag :=
| Lit (s : string)
| Txt (t : text)
| Val (v : value)
| Exc (e : Exception)
| Fixed1 (q : Q).

Definition message := list frag.

(** The Streamlit calls the pipeline makes. *)
Inductive st_call :=
| st_error (m : message)
| st_warning (m : message)
| st_success (m : message)
| st_info (m : message)
| st_write (m : message)
| st_text (m : message)
| st_header (m : message)
| st_subheader (m : message)
| st_columns (n : nat)
| st_expander (m : message)
| st_spinner (m : message).

(** The content of a request to the analysis service. *)
Inductive Part :=
| file_data (file_uri : text)
| inline_data (data : bytes) (mime_type : text)
| text_part (t : text).

Record Request := { model : text; contents : list Part }.

Record World := {
  fs : gmap text node;
  ui : list st_call;
  requests : list Request;
  tempdirs : list text
}.

Definition set_fs (f : gmap text node -> gmap text node) (w : World) : World :=
  {| fs := f (fs w); ui := ui w; requests := requests w; tempdirs := tempdirs w |}.

Definition M (A : Type) : Type := World -> (A + Exception) * World.

Definition ret {A} (a : A) : M A := fun w => (inl a, w).

Definition raise {A} (e : Exception) : M A := fun w => (inr e, w).

Definition bind {A B} (m : M A) (k : A -> M B) : M B :=
  fun w =>
    match m w with
    | (inl a, w') => k a w'
    | (inr e, w') => (inr e, w')
    end.

(** [try: body except <handles> as e: handler e] *)
Definition try_except {A} (body : M A) (handles : Exception -> bool)
    (handler : Exception -> M A) : M A :=
  fun w =>
    match body w with
    | (inr e, w') => if handles e then handler e w' else (inr e, w')
    | r => r
    end.

(** [except Exception] handles every exception of the model. *)
Definition any_Exception (e : Exception) : bool := true.

(** A pure step that may raise. *)
Definition lift {A} (r : A + Exception) : M A :=
  fun w => (r, w).

Declare Scope py_scope.
Delimit Scope py_scope with py.
Notation "'let*' x ':=' m 'in' k" := (bind m (fun x => k))
  (at level 10, x name, m at level 100, k at level 200) : py_scope.
Notation "m ';;' k" := (bind m (fun _ => k))
  (at level 100, k at level 200, right associativity) : py_scope.
Local Open Scope py_scope.

(** [for x in l: body x] *)
Fixpoint for_each {A} (l : list A) (body : A -> M unit) : M unit :=
  match l with
  | [] => ret tt
  | x :: r => body x ;; for_each r body
  end.

(** The world after one more Streamlit call. *)
Definition shown (c : st_call) (w : World) : World :=
  {| fs := fs w; ui := ui w ++ [c]; requests := requests w;
     tempdirs := tempdirs w |}.

(** A Streamlit call. *)
Definition st (c : st_call) : M unit :=
  fun w => (inl tt, shown c w).

(** *** [os] and [open] *)

Definition endswith (s p : text) : bool := startswith (rev s) (rev p).

(** [os.path.join(d, name)] *)
Definition path_join (d name : text) : text :=
  if startswith name (str "/") then name
  else if bool_decide (d = []) || endswith d (str "/") then d ++ name
  else d ++ str "/" ++ name.

(** [os.path.exists(p)] *)
Definition path_exists (p : text) : M bool :=
  fun w => (inl (match fs w !! p with Some _ => true | None => false end), w).

(** What [st_size] reports for a directory depends on the platform. *)
Section Os.
Variable dir_size : Z.

(** [os.path.getsize(p)] *)
Definition getsize (p : text) : M Z :=
  fun w =>
    match fs w !! p with
    | Some (File b) => (inl (Z.of_nat (length b)), w)
    | Some Dir => (inl dir_size, w)
    | None => (inr (FileNotFoundError p), w)
    end.
End Os.

(** [os.remove(p)]: removes a regular file. *)
Definition os_remove (p : text) : M unit :=
  fun w =>
    match fs w !! p with
    | Some (File _) => (inl tt, set_fs (delete p) w)
    | Some Dir => (inr (ExternalError "IsADirectoryError" p), w)
    | None => (inr (FileNotFoundError p), w)
    end.

(** The entries of directory [d]: the paths below [d ++ "/"]. *)
Definition children (d : text) (m : gmap text node) : gmap text node :=
  filter (fun kv => startswith (fst kv) (d ++ str "/") = true /\ fst kv <> d ++ str "/") m.

(** [os.rmdir(d)]: removes an empty directory. *)
Definition os_rmdir (d : text) : M unit :=
  fun w =>
    match fs w !! d with
    | Some Dir =>
        if bool_decide (children d (fs w) = ∅)
        then (inl tt, set_fs (delete d) w)
        else (inr (NotEmptyError d), w)
    | Some (File _) => (inr (ExternalError "NotADirectoryError" d), w)
    | None => (inr (FileNotFoundError d), w)
    end.

(** Writing a regular file at [p]: creates or truncates it; a directory
    cannot be opened for writing. *)
Definition write_file (p : text) (b : bytes) : M unit :=
  fun w =>
    match fs w !! p with
    | Some Dir => (inr (ExternalError "IsADirectoryError" p), w)
    | _ => (inl tt, set_fs (insert p (File b)) w)
    end.

(** [open(p, 'rb').read()] *)
Definition read_file (p : text) : M bytes :=
  fun w =>
    match fs w !! p with
    | Some (File b) => (inl b, w)
    | Some Dir => (inr (ExternalError "IsADirectoryError" p), w)
    | None => (inr (FileNotFoundError p), w)
    end.

(** [tempfile.mkdtemp()]: creates a directory under a name the platform
    chooses, [fresh] of the file system, and returns it. *)
Definition mkdtemp (fresh : gmap text node -> text) : M text :=
  fun w =>
    let d := fresh (fs w) in
    (inl d, {| fs := <[d := Dir]> (fs w); ui := ui w; requests := requests w;
               tempdirs := tempdirs w ++ [d] |}).

End Runtime.
Import Runtime.

(** ** The functions of [app.py] *)

Module App.

Local Open Scope py_scope.

(** [str(n)] for an [int]. *)
Definition str_of_int (n : Z) : text :=
  str (NilZero.string_of_int (Z.to_int n)).

Definition is_ascii (c : char) : bool := (c <? 128)%N.
Definition ascii_lower (c : char) : char :=
  (if (65 <=? c) && (c <=? 90) then c + 32 else c)%N.
Definition ascii_upper (c : char) : char :=
  (if (97 <=? c) && (c <=? 122) then c - 32 else c)%N.

(** [x > y] on the rationals. *)
Definition Qgtb (x y : Q) : bool := negb (Qle_bool x y).

(** The options handed to [yt_dlp.YoutubeDL]; an absent key is [None]. *)
Record ydl_opts := {
  opt_skip_download : option bool;
  opt_quiet : option bool;
  opt_outtmpl : option text;
  opt_format : option text
}.

(** What one call of the provider does: the files it leaves on disk and
    the info dictionary it returns, or the exception it raises. *)
Record provider_outcome := {
  written : list (text * bytes);
  outcome : value + Exception
}.

(** The record [get_video_info_basic] returns. *)
Record video_info := {
  title : value;
  duration : value;
  url : text;
  platform : text
}.

(** [st.file_uploader]'s result. *)
Record uploaded_file := {
  name : text;
  type : text;
  getvalue : bytes
}.

Section Pipeline.

(** The collaborators of the pipeline. *)
Variable json_loads : text -> value + Exception.
Variable json_dumps : value -> text.
Variable unicode_lower unicode_upper : text -> text.
Variable extract_info : ydl_opts -> text -> bool -> gmap text node -> provider_outcome.
Variable prepare_filename : ydl_opts -> value -> text + Exception.
Variable generate_content : Request -> option text + Exception.
Variable fresh_dir : gmap text node -> text.
Variable dir_size : Z.

(** [s.lower()] and [s.upper()]: ASCII letters change case; text with other
    characters goes through the Unicode case mappings. *)
Definition lower (s : text) : text :=
  if forallb is_ascii s then map ascii_lower s else unicode_lower s.
Definition upper (s : text) : text :=
  if forallb is_ascii s then map ascii_upper s else unicode_upper s.

(** [v.get(k, default)]; only a [dict] has [get]. *)
Definition py_get (v : value) (k : text) (default : value) : M value :=
  match v with
  | VDict d => ret (dict_get d k default)
  | _ => raise AttributeError
  end.

(** [v[k]] on a [dict]. *)
Definition py_getitem (v : value) (k : text) : M value :=
  match v with
  | VDict d =>
      match dict_lookup d k with
      | Some x => ret x
      | None => raise (ExternalError "KeyError" k)
      end
  | _ => raise TypeError
  end.

(** [v >= n] for an [int] constant [n]. *)
Definition py_ge_int (v : value) (n : Z) : M bool :=
  match v with
  | VInt z => ret (n <=? z)
  | VBool b => ret (n <=? (if b then 1 else 0))
  | VFloat f => ret (SFleb (float_of_Z n) f)
  | _ => raise TypeError
  end.

(** The elements [for x in v] visits. *)
Definition py_iter (v : value) : M (list value) :=
  match v with
  | VList l => ret l
  | VStr s => ret (map (fun c => VStr [c]) s)
  | VDict d => ret (map (fun kv => VStr (fst kv)) d)
  | _ => raise TypeError
  end.

(** [v.lower()]; only a [str] has [lower]. *)
Definition py_lower (v : value) : M text :=
  match v with
  | VStr s => ret (lower s)
  | _ => raise AttributeError
  end.

(** [ydl.extract_info(url, download=...)] *)
Definition ydl_extract_info (opts : ydl_opts) (url : text) (download : bool) : M value :=
  fun w =>
    let o := extract_info opts url download (fs w) in
    let put (m : gmap text node) (pb : text * bytes) :=
      match m !! fst pb with
      | Some Dir => m
      | _ => <[fst pb := File (snd pb)]> m
      end in
    (outcome o, set_fs (fun m => fold_left put (written o) m) w).

(** [client.models.generate_content(...)] followed by [response.text]. *)
Definition client_generate (r : Request) : M (option text) :=
  fun w =>
    (generate_content r,
     {| fs := fs w; ui := ui w; requests := requests w ++ [r];
        tempdirs := tempdirs w |}).

(** *** [get_video_info_basic] *)

Definition info_opts : ydl_opts :=
  {| opt_skip_download := Some true; opt_quiet := Some true;
     opt_outtmpl := None; opt_format := None |}.

Definition get_video_info_basic (url : text) : M video_info :=
  let ydl_opts := info_opts in
  try_except
    (let* info := ydl_extract_info ydl_opts url false in
     let* title := py_get info (str "title") (VStr (str "Unknown")) in
     let* duration := py_get info (str "duration") (VInt 0) in
     ret {| title := title;
            duration := duration;
            url := url;
            platform := if contains (str "youtube.com") url || contains (str "youtu.be") url
                        then str "YouTube" else str "Other" |})
    any_Exception
    (fun e =>
       st (st_error [Lit "Error extracting video info: "; Exc e]) ;;
       ret {| title := VStr (str "Unknown"); duration := VInt 0; url := url;
              platform := str "Unknown" |}).

(** *** [download_video_for_gemini]

    [os.path.getsize(p) / (1024 * 1024)] is a true division; dividing a
    size below 2^53 by 2^20 is exact in binary64, and Python compares the
    quotient with the [int] budget exactly, so the test is the one on the
    rationals. *)

Definition download_opts (temp_dir : text) (max_size_mb : Z) : ydl_opts :=
  {| opt_skip_download := None;
     opt_quiet := Some true;
     opt_outtmpl := Some (temp_dir ++ str "/%(title)s.%(ext)s");
     opt_format := Some (str "worst[filesize<" ++ str_of_int max_size_mb ++ str "M]/worst") |}.

Definition download_video_for_gemini (url : text) (max_size_mb : Z) : M (option text) :=
  let* temp_dir := mkdtemp fresh_dir in
  let ydl_opts := download_opts temp_dir max_size_mb in
  try_except
    (let* info := ydl_extract_info ydl_opts url true in
     let* video_path := lift (prepare_filename ydl_opts info) in
     let* present := path_exists video_path in
     if present then
       let* size := getsize dir_size video_path in
       let file_size_mb := Qmake size (1024 * 1024) in
       if Qgtb file_size_mb (inject_Z max_size_mb) then
         st (st_warning [Lit "Video is "; Fixed1 file_size_mb; Lit "MB (over ";
                         Val (VInt max_size_mb);
                         Lit "MB limit). Using YouTube URL directly."]) ;;
         os_remove video_path ;;
         ret None
       else ret (Some video_path)
     else
       st (st_error [Lit "Failed to download video file"]) ;;
       ret None)
    any_Exception
    (fun e =>
       st (st_error [Lit "Error downloading video: "; Exc e]) ;;
       ret None).

(** *** [analyze_video_with_gemini] *)

Definition dq : text := [34%N].
Definition nl : text := [10%N].

(** A line of the prompt, with the indentation the source gives it. *)
Definition line (s : string) : text := str "    " ++ str s ++ nl.
(** A quoted key of the schema followed by the rest of its line. *)
Definition schema_line (key rest : string) : text :=
  str "        " ++ dq ++ str key ++ dq ++ str ": " ++ str rest ++ nl.
Definition quoted (s : string) : string := String (ascii_of_N 34) (s ++ String (ascii_of_N 34) "").

Definition prompt_head : text :=
  nl
  ++ line "Analyze this video for investment relevance based on the user's portfolio:"
  ++ nl
  ++ line "USER'S INVESTMENTS:"
  ++ str "    ".

Definition prompt_tail : text :=
  nl ++ nl
  ++ line "Please analyze both visual and audio content and provide:"
  ++ line "1. Relevance Score (0-100): How relevant is this content to their investments?"
  ++ line "2. Specific Matches: Which of their investments are mentioned or related?"
  ++ line "3. Key Insights: What specific information is relevant to their portfolio?"
  ++ line "4. Visual Elements: Any charts, graphs, or visual data shown?"
  ++ line "5. Action Items: Any suggested actions based on the content?"
  ++ line "6. Risk Level: Is this promoting risky strategies?"
  ++ line "7. Content Summary: Brief summary of what the video discusses"
  ++ nl
  ++ line "Focus on:"
  ++ line "- Stock tickers, company names, sector mentions"
  ++ line "- Price movements, technical analysis"
  ++ line "- Market news and trends"
  ++ line "- Investment strategies and advice"
  ++ line "- Visual charts, graphs, or financial data"
  ++ nl
  ++ line "Respond ONLY in valid JSON format:"
  ++ line "{"
  ++ schema_line "relevance_score" "0-100,"
  ++ schema_line "specific_matches" ("[" ++ quoted "list of matching investments" ++ "],")
  ++ schema_line "key_insights" ("[" ++ quoted "list of relevant insights" ++ "],")
  ++ schema_line "visual_elements" ("[" ++ quoted "charts/graphs seen" ++ "],")
  ++ schema_line "action_items" ("[" ++ quoted "suggested actions" ++ "],")
  ++ schema_line "risk_assessment" (quoted "low/medium/high" ++ ",")
  ++ schema_line "content_summary" (quoted "brief summary of video content" ++ ",")
  ++ schema_line "summary" (quoted "brief summary of relevance to user's portfolio")
  ++ line "}"
  ++ str "    ".

Definition gemini_model : text := str "models/gemini-2.5-flash".

Definition analyze_video_with_gemini (video_source : text) (user_investments : value)
    (is_youtube_url : bool) : M (option text) :=
  let prompt := prompt_head ++ json_dumps user_investments ++ prompt_tail in
  try_except
    (if is_youtube_url then
       client_generate
         {| model := gemini_model;
            contents := [file_data video_source; text_part prompt] |}
     else
       let* video_bytes := read_file video_source in
       client_generate
         {| model := gemini_model;
            contents := [inline_data video_bytes (str "video/mp4"); text_part prompt] |})
    any_Exception
    (fun e =>
       st (st_error [Lit "Error analyzing video with Gemini: "; Exc e]) ;;
       ret None).

(** *** [parse_gemini_response] *)

Definition fence_json : text := str "```json".
Definition fence : text := str "```".
Definition lbrace : text := str "{".
Definition rbrace : text := str "}".

(** The text between the code fences: the piece after the first
    [```json] (or, without one, after the first [```]) up to the next
    fence; the whole text when it has no fence. *)
Definition fenced_content (response_text : text) : text + Exception :=
  if contains fence_json response_text then
    match index (split response_text fence_json) 1 with
    | inl after => index (split after fence) 0
    | inr e => inr e
    end
  else if contains fence response_text then
    match index (split response_text fence) 1 with
    | inl after => index (split after fence) 0
    | inr e => inr e
    end
  else inl response_text.

(** The text handed to the decoder, from the stripped working text. *)
Definition json_candidate (response_text : text) : text :=
  let start_idx := find response_text lbrace in
  let end_idx := rfind response_text rbrace + 1 in
  if negb (start_idx =? -1) && negb (end_idx =? -1)
  then slice response_text start_idx end_idx
  else response_text.

(** The [try] block.  It rebinds the local [response_text] on its way, so
    it yields its outcome together with the binding of [response_text] at
    the point where it returned or raised. *)
Definition parse_try (response_text : text) : (value + Exception) * text :=
  match fenced_content response_text with
  | inr e => (inr e, response_text)
  | inl cleaned =>
      let response_text := strip cleaned in
      (json_loads (json_candidate response_text), response_text)
  end.

Definition parse_gemini_response (response_text : text) : M value :=
  let '(result, response_text) := parse_try response_text in
  match result with
  | inl v => ret v
  | inr e =>
      if is_JSONDecodeError e then
        st (st_error [Lit "Failed to parse JSON response: "; Exc e]) ;;
        st (st_error [Lit "Raw response: "; Txt (slice_to response_text 500); Lit "..."]) ;;
        ret VNone
      else raise e
  end.

(** *** [display_analysis_results] *)

(** [if analysis_result.get(key): st.subheader(heading); for x in
    analysis_result[key]: st.write(f"- {x}")] *)
Definition display_list (analysis_result : value) (key : text) (heading : string) : M unit :=
  let* present := py_get analysis_result key VNone in
  if truthy present then
    st (st_subheader [Lit heading]) ;;
    let* items := py_getitem analysis_result key in
    let* elements := py_iter items in
    for_each elements (fun x => st (st_write [Lit "- "; Val x]))
  else ret tt.

(** The relevance score with its colour coding. *)
Definition display_score (analysis_result : value) : M unit :=
  let* score := py_get analysis_result (str "relevance_score") (VInt 0) in
  let* high := py_ge_int score 80 in
  if high then
    st (st_success [Lit " Highly Relevant - Score: "; Val score; Lit "/100"])
  else
    let* moderate := py_ge_int score 50 in
    if moderate then
      st (st_warning [Lit " Moderately Relevant - Score: "; Val score; Lit "/100"])
    else
      st (st_info [Lit " Low Relevance - Score: "; Val score; Lit "/100"]).

(** [risk = analysis_result.get('risk_assessment', 'unknown').lower()] *)
Definition risk_level (analysis_result : value) : M text :=
  let* r := py_get analysis_result (str "risk_assessment") (VStr (str "unknown")) in
  py_lower r.

Definition display_analysis_results (analysis_result : value) : M unit :=
  if negb (truthy analysis_result) then
    st (st_error [Lit "No analysis results to display"])
  else
    display_score analysis_result ;;
    let* content := py_get analysis_result (str "content_summary") VNone in
    (if truthy content then
       let* c := py_getitem analysis_result (str "content_summary") in
       st (st_write [Lit "Content: "; Val c])
     else ret tt) ;;
    let* summary := py_get analysis_result (str "summary") (VStr (str "No summary available")) in
    st (st_write [Lit "Relevance: "; Val summary]) ;;
    st (st_columns 2) ;;
    display_list analysis_result (str "specific_matches") " Matching Investments" ;;
    display_list analysis_result (str "key_insights") " Key Insights" ;;
    display_list analysis_result (str "action_items") " Suggested Actions" ;;
    let* risk := risk_level analysis_result in
    (if text_eqb risk (str "high") then
       st (st_error [Lit " Risk Level: "; Txt (upper risk)])
     else if text_eqb risk (str "medium") then
       st (st_warning [Lit " Risk Level: "; Txt (upper risk)])
     else
       st (st_success [Lit " Risk Level: "; Txt (upper risk)])) ;;
    display_list analysis_result (str "visual_elements") " Visual Elements".

(** *** The three analyses of [main] *)

(** [if response_text: ... parse ... display ...], shared by the three. *)
Definition show_response (response_text : option text) : M unit :=
  match response_text with
  | Some (c :: r) =>
      let response_text := c :: r in
      let* analysis_result := parse_gemini_response response_text in
      if truthy analysis_result then
        st (st_header [Lit " Analysis Results"]) ;;
        display_analysis_results analysis_result
      else
        st (st_error [Lit "Failed to parse analysis results"]) ;;
        st (st_expander [Lit "View Raw Response"]) ;;
        st (st_text [Txt response_text])
  | _ => ret tt
  end.

Definition show_video_info (info : video_info) : M unit :=
  st (st_columns 2) ;;
  st (st_subheader [Lit " Video Information"]) ;;
  st (st_write [Lit "Title: "; Val (title info)]) ;;
  st (st_write [Lit "Duration: "; Val (duration info); Lit " seconds"]) ;;
  st (st_write [Lit "Platform: "; Txt (platform info)]).

(** "YouTube URL": the service fetches the video itself. *)
Definition main_youtube_url (video_url : text) (investments : value) : M unit :=
  st (st_spinner [Lit "Analyzing video with Gemini..."]) ;;
  let* video_info := get_video_info_basic video_url in
  show_video_info video_info ;;
  st (st_subheader [Lit " Analysis Method"]) ;;
  st (st_write [Lit " Using YouTube URL directly with Gemini"]) ;;
  st (st_write [Lit "- Full video and audio analysis"]) ;;
  st (st_write [Lit "- Visual element detection"]) ;;
  st (st_write [Lit "- Investment relevance scoring"]) ;;
  st (st_info [Lit " Analyzing video content..."]) ;;
  let* response_text := analyze_video_with_gemini video_url investments true in
  show_response response_text.

(** "Instagram/TikTok/Other URL": download, then send the bytes. *)
Definition main_other_url (video_url : text) (investments : value) : M unit :=
  st (st_spinner [Lit "Downloading and analyzing video..."]) ;;
  let* video_info := get_video_info_basic video_url in
  show_video_info video_info ;;
  st (st_subheader [Lit " Analysis Method"]) ;;
  st (st_write [Lit " Download + Gemini Analysis"]) ;;
  st (st_write [Lit "- Download video file"]) ;;
  st (st_write [Lit "- Upload to Gemini for analysis"]) ;;
  st (st_write [Lit "- Full content processing"]) ;;
  st (st_info [Lit " Downloading video..."]) ;;
  let* video_path := download_video_for_gemini video_url 20 in
  match video_path with
  | Some (c :: r) =>
      let video_path := c :: r in
      try_except
        (let* size := getsize dir_size video_path in
         let file_size_mb := Qmake size (1024 * 1024) in
         st (st_success [Lit " Downloaded video ("; Fixed1 file_size_mb; Lit " MB)"]) ;;
         st (st_info [Lit " Analyzing video content..."]) ;;
         let* response_text := analyze_video_with_gemini video_path investments false in
         show_response response_text ;;
         os_remove video_path)
        any_Exception
        (fun e =>
           st (st_error [Lit "Error processing video: "; Exc e]) ;;
           let* present := path_exists video_path in
           if present then os_remove video_path else ret tt)
  | _ => ret tt
  end.

(** The analysis of the staged upload and the removal of the staging file
    and its directory: the [try] statement of the upload branch. *)
Definition analyze_staged (temp_path temp_dir : text) (investments : value) : M unit :=
  try_except
    (st (st_info [Lit " Analyzing video content..."]) ;;
     let* response_text := analyze_video_with_gemini temp_path investments false in
     show_response response_text ;;
     os_remove temp_path ;;
     os_rmdir temp_dir)
    any_Exception
    (fun e =>
       st (st_error [Lit "Error analyzing video: "; Exc e]) ;;
       (let* file_present := path_exists temp_path in
        if file_present then os_remove temp_path else ret tt) ;;
       let* dir_present := path_exists temp_dir in
       if dir_present then os_rmdir temp_dir else ret tt).

(** "Upload Video File", once a file has been chosen; [clicked] tells
    whether "Analyze Uploaded Video" was pressed. *)
Definition main_upload (uploaded : uploaded_file) (investments : value)
    (clicked : bool) : M unit :=
  let file_size_mb := Qmake (Z.of_nat (length (getvalue uploaded))) (1024 * 1024) in
  st (st_columns 2) ;;
  st (st_subheader [Lit " File Information"]) ;;
  st (st_write [Lit "Filename: "; Txt (name uploaded)]) ;;
  st (st_write [Lit "Size: "; Fixed1 file_size_mb; Lit " MB"]) ;;
  st (st_write [Lit "Type: "; Txt (type uploaded)]) ;;
  st (st_subheader [Lit " Analysis Method"]) ;;
  st (st_write [Lit " Direct Upload to Gemini"]) ;;
  st (st_write [Lit "- Process uploaded file"]) ;;
  st (st_write [Lit "- Full video analysis"]) ;;
  st (st_write [Lit "- Investment relevance scoring"]) ;;
  if Qgtb file_size_mb (inject_Z 20) then
    st (st_error [Lit " File size exceeds 20MB limit. Please upload a smaller file."])
  else if clicked then
    st (st_spinner [Lit "Analyzing uploaded video..."]) ;;
    let* temp_dir := mkdtemp fresh_dir in
    let temp_path := path_join temp_dir (name uploaded) in
    write_file temp_path (getvalue uploaded) ;;
    analyze_staged temp_path temp_dir investments
  else ret tt.

End Pipeline.

End App.

(** ** The page of [main]

    [main] is the Streamlit script: it runs from top to bottom on every
    interaction, with the widgets' current values as its inputs and
    [st.session_state] kept from run to run.  A run ends by returning, by an
    exception, or by one of Streamlit's control exceptions ([st.stop()],
    [st.rerun()]), which do not derive from [Exception].  The three calls
    that head the page ([st.set_page_config], [st.title], [st.markdown])
    only lay it out and are left out; [page] is [main] from the sidebar
    on. *)

Module Page.

Import App.

(** How a run ends when it does not return. *)
Inductive ending :=
| Raises (e : Exception)
| Stops
| Reruns.

(** The world together with [st.session_state.investments], [None] while
    that key is not set. *)
Record Session := { world : World; investments : option dict }.

Definition P (A : Type) : Type := Session -> (A + ending) * Session.

Definition pret {A} (a : A) : P A := fun p => (inl a, p).

Definition pbind {A B} (m : P A) (k : A -> P B) : P B :=
  fun p =>
    match m p with
    | (inl a, p') => k a p'
    | (inr x, p') => (inr x, p')
    end.

(** A computation of the pipeline, run on the page's world. *)
Definition run {A} (m : M A) : P A :=
  fun p =>
    match m (world p) with
    | (inl a, w') => (inl a, {| world := w'; investments := investments p |})
    | (inr e, w') => (inr (Raises e), {| world := w'; investments := investments p |})
    end.

(** [st.stop()] and [st.rerun()] *)
Definition st_stop {A} : P A := fun p => (inr Stops, p).
Definition st_rerun {A} : P A := fun p => (inr Reruns, p).

(** [try: body except Exception as e: handler e] *)
Definition ptry {A} (body : P A) (handler : Exception -> P A) : P A :=
  fun p =>
    match body p with
    | (inr (Raises e), p') => handler e p'
    | r => r
    end.

(** ['investments' in st.session_state], with the value when it is. *)
Definition get_investments : P (option dict) := fun p => (inl (investments p), p).

(** [st.session_state.investments = d] *)
Definition set_investments (d : dict) : P unit :=
  fun p => (inl tt, {| world := world p; investments := Some d |}).

Declare Scope page_scope.
Delimit Scope page_scope with page.
Notation "'let*' x ':=' m 'in' k" := (pbind m (fun x => k))
  (at level 10, x name, m at level 100, k at level 200) : page_scope.
Notation "m ';;' k" := (pbind m (fun _ => k))
  (at level 100, k at level 200, right associativity) : page_scope.
Local Open Scope page_scope.

(** [for x in l: body x] *)
Fixpoint pfor_each {A} (l : list A) (body : A -> P unit) : P unit :=
  match l with
  | [] => pret tt
  | x :: r => body x ;; pfor_each r body
  end.

(** [del d[k]] for a key that is there. *)
Definition dict_del (d : dict) (k : text) : dict :=
  List.filter (fun kv => negb (text_eqb (fst kv) k)) d.

(** The values of the widgets in one run.  A button is told by its key
    when it has one and by its label otherwise. *)
Record widgets := {
  api_key : text;
  investment_type : text;
  symbol : text;
  amount : float;
  notes : text;
  submitted : bool;
  button : text -> bool;
  input_type : text;
  video_url : text;
  uploaded : option uploaded_file
}.

(** What the client made from an API key can do: send a request. *)
Definition Client := Request -> option text + Exception.

Section Main.

Variable json_loads : text -> value + Exception.
Variable json_dumps : value -> text.
Variable unicode_lower unicode_upper : text -> text.
Variable extract_info : ydl_opts -> text -> bool -> gmap text node -> provider_outcome.
Variable prepare_filename : ydl_opts -> value -> text + Exception.
Variable fresh_dir : gmap text node -> text.
Variable dir_size : Z.
(** [genai.Client(api_key=...)] *)
Variable genai_Client : text -> Client + Exception.
(** [format(v, ",.2f")] *)
Variable format_amount : value -> text + Exception.

Variable inp : widgets.

Definition configure_gemini (api_key : text) : P Client :=
  run (lift (genai_Client api_key)).

(** The head of the sidebar: the API key and the client. *)
Definition connect : P Client :=
  run (st (st_header [Lit " Configuration"])) ;;
  (if bool_decide (api_key inp = []) then
     run (st (st_warning [Lit "Please enter your Gemini API key to continue"])) ;;
     run (st (st_info [Lit "Get your API key from: [Google AI Studio](https://aistudio.google.com/app/apikey)"])) ;;
     st_stop
   else pret tt) ;;
  ptry
    (let* client := configure_gemini (api_key inp) in
     run (st (st_success [Lit " Gemini API connected"])) ;;
     pret client)
    (fun e =>
       run (st (st_error [Lit " Failed to connect to Gemini: "; Exc e])) ;;
       st_stop).

(** The entry the form makes. *)
Definition details_of_form : value :=
  VDict [(str "type", VStr (investment_type inp));
         (str "amount", VFloat (amount inp));
         (str "notes", VStr (notes inp))].

(** The form "investment_form". *)
Definition investment_form : P unit :=
  run (st (st_subheader [Lit "Add Investment Details"])) ;;
  if submitted inp && negb (bool_decide (symbol inp = [])) then
    (let* state := get_investments in
     match state with
     | None => set_investments []
     | Some _ => pret tt
     end) ;;
    (let* state := get_investments in
     match state with
     | Some d => set_investments (dict_set d (symbol inp) details_of_form)
     | None => run (raise AttributeError)
     end) ;;
    run (st (st_success [Lit "Added "; Txt (symbol inp); Lit " to portfolio"]))
  else pret tt.

(** One entry of the portfolio, with its "Remove" button. *)
Definition show_investment (symbol : text) (details : value) : P unit :=
  let* kind := run (py_getitem details (str "type")) in
  run (st (st_expander [Txt symbol; Lit " - "; Val kind])) ;;
  let* amount := run (py_getitem details (str "amount")) in
  let* amount_text := run (lift (format_amount amount)) in
  run (st (st_write [Lit "Amount: $"; Txt amount_text])) ;;
  let* notes := run (py_getitem details (str "notes")) in
  (if truthy notes then
     let* notes := run (py_getitem details (str "notes")) in
     run (st (st_write [Lit "Notes: "; Val notes]))
   else pret tt) ;;
  if button inp (str "remove_" ++ symbol) then
    (let* state := get_investments in
     match state with
     | Some d => set_investments (dict_del d symbol)
     | None => run (raise AttributeError)
     end) ;;
    st_rerun
  else pret tt.

(** "Current Portfolio" *)
Definition current_portfolio : P unit :=
  let* state := get_investments in
  match state with
  | Some (entry :: d) =>
      run (st (st_subheader [Lit " Current Portfolio"])) ;;
      pfor_each (entry :: d) (fun kv => show_investment (fst kv) (snd kv))
  | _ => pret tt
  end.

(** [with st.sidebar: ...] *)
Definition sidebar : P Client :=
  let* client := connect in
  run (st (st_header [Lit " Your Investment Portfolio"])) ;;
  investment_form ;;
  current_portfolio ;;
  pret client.

(** The main content area: the chosen analysis. *)
Definition video_analysis (client : Client) (investments : value) : P unit :=
  run (st (st_header [Lit " Video Analysis"])) ;;
  if text_eqb (input_type inp) (str "YouTube URL") then
    if negb (bool_decide (video_url inp = [])) && button inp (str "Analyze YouTube Video")
    then run (main_youtube_url json_loads json_dumps unicode_lower unicode_upper
                extract_info client (video_url inp) investments)
    else pret tt
  else if text_eqb (input_type inp) (str "Instagram/TikTok/Other URL") then
    if negb (bool_decide (video_url inp = [])) && button inp (str "Analyze Video")
    then run (main_other_url json_loads json_dumps unicode_lower unicode_upper
                extract_info prepare_filename client fresh_dir dir_size
                (video_url inp) investments)
    else pret tt
  else if text_eqb (input_type inp) (str "Upload Video File") then
    match uploaded inp with
    | Some uploaded_file =>
        run (main_upload json_loads json_dumps unicode_lower unicode_upper client
               fresh_dir uploaded_file investments
               (button inp (str "Analyze Uploaded Video")))
    | None => pret tt
    end
  else pret tt.

(** [main], from the sidebar on. *)
Definition page : P unit :=
  let* client := sidebar in
  let* state := get_investments in
  match state with
  | Some (entry :: d) => video_analysis client (VDict (entry :: d))
  | _ =>
      run (st (st_warning [Lit " Please add your investment details in the sidebar to get started"])) ;;
      st_stop
  end.

End Main.

End Page.

(** ** Sample collaborators

    Concrete collaborators and worlds on which the pipeline is run. *)

Module Scenario.

Import App.

Definition empty_world : World :=
  {| fs := ∅; ui := []; requests := []; tempdirs := [] |}.

Definition sample_dumps (v : value) : text := str "{}".
Definition no_case_mapping (s : text) : text := s.
Definition sample_fresh_dir (m : gmap text node) : text := str "/tmp/tmpq1w2e3".
Definition sample_dir_size : Z := 4096.

Definition sample_info : value :=
  VDict [(str "title", VStr (str "clip")); (str "ext", VStr (str "mp4"));
         (str "duration", VInt 12)].

(** The media file's name: the output template with its placeholders
    filled in. *)
Definition sample_prepare_filename (opts : ydl_opts) (info : value) : text + Exception :=
  match opt_outtmpl opts with
  | Some t => inl (take (length t - length (str "%(title)s.%(ext)s")) t ++ str "clip.mp4")
  | None => inl (str "clip.mp4")
  end.

(** A provider that downloads [content] when asked to download. *)
Definition provider_leaving (content : bytes) (opts : ydl_opts) (url : text)
    (download : bool) (m : gmap text node) : provider_outcome :=
  {| written :=
       if download then
         match sample_prepare_filename opts sample_info with
         | inl p => [(p, content)]
         | inr _ => []
         end
       else [];
     outcome := inl sample_info |}.

(** A provider that reports success and leaves no file. *)
Definition provider_leaving_nothing (opts : ydl_opts) (url : text)
    (download : bool) (m : gmap text node) : provider_outcome :=
  {| written := []; outcome := inl sample_info |}.

(** A provider that cannot reach the URL. *)
Definition provider_unreachable (opts : ydl_opts) (url : text)
    (download : bool) (m : gmap text node) : provider_outcome :=
  {| written := [];
     outcome := inr (ExternalError "DownloadError" (str "Unable to download webpage")) |}.

(** A service that answers every request with [reply]. *)
Definition service_replying (reply : text) (r : Request) : option text + Exception :=
  inl (Some reply).

Definition sample_url : text := str "https://example.com/v".
Definition sample_temp_dir : text := str "/tmp/tmpq1w2e3".
Definition sample_video_path : text := str "/tmp/tmpq1w2e3/clip.mp4".

(** [download_video_for_gemini] with a provider leaving [content]. *)
Definition run_download (content : bytes) (max_size_mb : Z) : M (option text) :=
  download_video_for_gemini (provider_leaving content) sample_prepare_filename
    sample_fresh_dir sample_dir_size sample_url max_size_mb.

(** The "Other URL" analysis with a one-byte download and the service
    answering [reply]. *)
Definition run_other_url (reply : text) : M unit :=
  main_other_url Json.json_loads sample_dumps no_case_mapping no_case_mapping
    (provider_leaving [Byte.x00]) sample_prepare_filename (service_replying reply)
    sample_fresh_dir sample_dir_size sample_url (VDict []).

(** An upload whose name and declared type are those of an AVI file. *)
Definition sample_upload : uploaded_file :=
  {| name := str "clip.avi"; type := str "video/x-msvideo"; getvalue := [Byte.x52] |}.

Definition run_upload (reply : text) : M unit :=
  main_upload Json.json_loads sample_dumps no_case_mapping no_case_mapping
    (service_replying reply) sample_fresh_dir sample_upload (VDict []) true.

(** A reply that wraps its JSON object in commentary and a code fence. *)
Definition fenced_reply : text :=
  str "noise ```json" ++ nl
  ++ str "{" ++ dq ++ str "relevance_score" ++ dq ++ str ":85,"
  ++ dq ++ str "risk_assessment" ++ dq ++ str ":" ++ dq ++ str "medium" ++ dq
  ++ str "}" ++ nl
  ++ str "``` trailing noise".

(** [parse_gemini_response] with the standard decoder. *)
Definition parse (raw : text) : M value :=
  parse_gemini_response Json.json_loads raw.

End Scenario.

(** ** Vocabulary of the properties *)

Module Spec.

Import App.

Definition LBRACE : char := 123%N.
Definition RBRACE : char := 125%N.

(** [i] is the index of the first [c] in [t]. *)
Definition first_at (c : char) (t : text) (i : nat) : Prop :=
  t !! i = Some c /\ forall k, (k < i)%nat -> t !! k <> Some c.

(** [j] is the index of the last [c] in [t]. *)
Definition last_at (c : char) (t : text) (j : nat) : Prop :=
  t !! j = Some c /\ forall k, (j < k)%nat -> t !! k <> Some c.

(** What a computation does to the world: [post R m] when every run of [m]
    relates the world before to the world after by [R]; [returns R m] when
    moreover [m] never raises. *)
Definition post {A} (R : World -> World -> Prop) (m : M A) : Prop :=
  forall w r w', m w = (r, w') -> R w w'.

Definition returns {A} (R : World -> World -> Prop) (m : M A) : Prop :=
  forall w r w', m w = (r, w') -> R w w' /\ exists a, r = inl a.

(** The relation that holds of any two worlds: [returns any_change m] says
    only that [m] never raises. *)
Definition any_change (w w' : World) : Prop := True.

(** No directory is removed and [mkdtemp] is not called. *)
Definition dirs_kept (w w' : World) : Prop :=
  (forall d, fs w !! d = Some Dir -> fs w' !! d = Some Dir)
  /\ tempdirs w' = tempdirs w.

(** [mkdtemp] made one directory, and it is still there. *)
Definition made_temp_dir (w w' : World) : Prop :=
  exists d, tempdirs w' = tempdirs w ++ [d] /\ fs w' !! d = Some Dir.

(** Every inline part of the request declares [video/mp4]. *)
Definition inline_mp4 (r : Request) : Prop :=
  forall b m, inline_data b m ∈ contents r -> m = str "video/mp4".

(** The requests sent in between all satisfy [inline_mp4]. *)
Definition sends_mp4 (w w' : World) : Prop :=
  exists new, requests w' = requests w ++ new /\ Forall inline_mp4 new.

(** The file system and the directories made are the same. *)
Definition same_fs (w w' : World) : Prop :=
  fs w' = fs w /\ tempdirs w' = tempdirs w.

(** From a world whose files are those of [w0], the computation either
    raises with the files untouched or returns with the staging file [tp]
    and the directory [d] removed. *)
Definition cleans_up {A} (tp d : text) (w0 : World) (m : M A) : Prop :=
  forall w r w',
    same_fs w0 w -> m w = (r, w') ->
    (exists e, r = inr e /\ same_fs w0 w')
    \/ (exists a, r = inl a
        /\ fs w' = delete d (delete tp (fs w0)) /\ tempdirs w' = tempdirs w0).

(** The types [display_analysis_results] can handle: a number for the
    score, a string for the risk level, and for each list field a value
    that is false or can be iterated. *)
Definition is_number (v : value) : bool :=
  match v with
  | VInt _ | VFloat _ | VBool _ => true
  | _ => false
  end.

Definition is_iterable (v : value) : bool :=
  match v with
  | VList _ | VStr _ | VDict _ => true
  | _ => false
  end.

Definition field_is (check : value -> bool) (d : dict) (key : text) : bool :=
  match dict_lookup d key with
  | Some v => check v
  | None => true
  end.

Definition is_str (v : value) : bool :=
  match v with
  | VStr _ => true
  | _ => false
  end.

Definition list_like (v : value) : bool := negb (truthy v) || is_iterable v.

Definition expected_types (d : dict) : bool :=
  field_is is_number d (str "relevance_score")
  && field_is is_str d (str "risk_assessment")
  && field_is list_like d (str "specific_matches")
  && field_is list_like d (str "key_insights")
  && field_is list_like d (str "action_items")
  && field_is list_like d (str "visual_elements").

(** The world after the Streamlit calls [l]. *)
Definition said_more (l : list st_call) (w : World) : World :=
  {| fs := fs w; ui := ui w ++ l; requests := requests w; tempdirs := tempdirs w |}.

(** The record [get_video_info_basic] falls back to. *)
Definition unknown_video (url : text) : video_info :=
  {| title := VStr (str "Unknown"); duration := VInt 0; url := url;
     platform := str "Unknown" |}.

(** The working text of [parse_gemini_response]: the content between the
    code fences, stripped. *)
Definition working_text (raw : text) : text :=
  match fenced_content raw with
  | inl cleaned => strip cleaned
  | inr _ => raw
  end.

(** The two messages of a parse failure: the decoder's error and the
    diagnostic excerpt. *)
Definition parse_failure_messages (e : Exception) (excerpt : text) : list st_call :=
  [st_error [Lit "Failed to parse JSON response: "; Exc e];
   st_error [Lit "Raw response: "; Txt excerpt; Lit "..."]].

(** The size [os.path.getsize] reports for an entry. *)
Definition node_size (dir_size : Z) (n : node) : Z :=
  match n with
  | File b => Z.of_nat (length b)
  | Dir => dir_size
  end.

(** The warning for a download over the budget. *)
Definition over_budget_warning (size max_size_mb : Z) : st_call :=
  st_warning [Lit "Video is "; Fixed1 (Qmake size (1024 * 1024)); Lit "MB (over ";
              Val (VInt max_size_mb); Lit "MB limit). Using YouTube URL directly."].

End Spec.
Import Spec.

(** ** Vocabulary of further properties *)

Module Vocabulary.

Import App Page.

Definition BACKTICK : char := 96%N.

(** A [dict], the only value with [.get]. *)
Definition is_object (v : value) : bool :=
  match v with
  | VDict _ => true
  | _ => false
  end.

(** The line written for one element of a list field. *)
Definition item_line (x : value) : st_call := st_write [Lit "- "; Val x].

(** The three calls that report a reply that gave no result. *)
Definition failed_to_parse (raw : text) : list st_call :=
  [st_error [Lit "Failed to parse analysis results"];
   st_expander [Lit "View Raw Response"];
   st_text [Txt raw]].

(** The world after one more request to the service. *)
Definition sent (r : Request) (w : World) : World :=
  {| fs := fs w; ui := ui w; requests := requests w ++ [r]; tempdirs := tempdirs w |}.

(** The request for a video the service fetches itself, and the one that
    carries the video's bytes. *)
Definition remote_request (uri prompt : text) : Request :=
  {| model := gemini_model; contents := [file_data uri; text_part prompt] |}.

Definition local_request (data : bytes) (prompt : text) : Request :=
  {| model := gemini_model;
     contents := [inline_data data (str "video/mp4"); text_part prompt] |}.

(** The prompt sent with a video. *)
Definition prompt_for (json_dumps : value -> text) (user_investments : value) : text :=
  prompt_head ++ json_dumps user_investments ++ prompt_tail.

(** The message of [analyze_video_with_gemini]'s handler. *)
Definition analysis_failed (e : Exception) : st_call :=
  st_error [Lit "Error analyzing video with Gemini: "; Exc e].

(** The outcome of the call to the service with request [req]. *)
Definition call_outcome (generate_content : Request -> option text + Exception)
    (req : Request) (w : World) : (option text + Exception) * World :=
  match generate_content req with
  | inl t => (inl t, sent req w)
  | inr e => (inl None, shown (analysis_failed e) (sent req w))
  end.

(** No request is sent. *)
Definition requests_kept (w w' : World) : Prop := requests w' = requests w.

(** At most one request is sent. *)
Definition one_more (w w' : World) : Prop :=
  requests w' = requests w \/ exists req, requests w' = requests w ++ [req].

(** The URL has "youtube.com" or "youtu.be" somewhere in it. *)
Definition mentions_youtube (url : text) : Prop :=
  exists a b, url = a ++ str "youtube.com" ++ b \/ url = a ++ str "youtu.be" ++ b.

(** A provider whose lookup returns [None]. *)
Definition provider_returning_none (opts : ydl_opts) (url : text)
    (download : bool) (m : gmap text node) : provider_outcome :=
  {| written := []; outcome := inl VNone |}.

Definition SLASH : char := 47%N.

(** A file name as a browser sends it: not empty, and no path. *)
Definition plain_name (name : text) : Prop := name <> [] /\ SLASH ∉ name.

(** From a world whose files are those of [w0], the computation either
    raises with the files untouched or returns with the file [p] removed. *)
Definition removes_file (p : text) (w0 : World) (m : M unit) : Prop :=
  forall w r w',
    same_fs w0 w -> m w = (r, w') ->
    (exists e, r = inr e /\ same_fs w0 w')
    \/ (r = inl tt /\ fs w' = delete p (fs w0) /\ tempdirs w' = tempdirs w0).

(** An upload of one byte more than 20 MiB. *)
Definition large_upload : uploaded_file :=
  {| name := str "large.mp4"; type := str "video/mp4";
     getvalue := replicate (Z.to_nat (20 * (1024 * 1024) + 1)) Byte.x00 |}.

(** The portfolio of a session: empty while the key is not set. *)
Definition portfolio (p : Session) : dict :=
  match investments p with
  | Some d => d
  | None => []
  end.

(** An entry as the form makes it. *)
Definition form_entry (v : value) : Prop :=
  exists kind amount notes,
    v = VDict [(str "type", VStr kind); (str "amount", VFloat amount);
               (str "notes", VStr notes)].

(** The key of an entry's "Remove" button. *)
Definition remove_key (symbol : text) : text := str "remove_" ++ symbol.

(** The page with [l] displayed and the portfolio [d]. *)
Definition page_after (l : list st_call) (d : option dict) (p : Session) : Session :=
  {| world := said_more l (world p); investments := d |}.

(** What a page computation does: [ppost R m] when every run of [m]
    relates the session before to the session after by [R]. *)
Definition ppost {A} (R : Session -> Session -> Prop) (m : P A) : Prop :=
  forall p r p', m p = (r, p') -> R p p'.

(** Nothing but the display and the portfolio changes: no file, no
    directory, no request. *)
Definition display_only (p p' : Session) : Prop :=
  same_fs (world p) (world p') /\ requests_kept (world p) (world p').

(** The portfolio is kept. *)
Definition portfolio_kept (p p' : Session) : Prop := investments p' = investments p.

(** Sample inputs of the page: a form filled in for AAPL, a portfolio of
    two entries, and the collaborators that make a client from any key and
    render every amount alike. *)
Definition sample_entry (kind : string) : value :=
  VDict [(str "type", VStr (str kind)); (str "amount", VFloat (float_of_Z 1000));
         (str "notes", VStr [])].

Definition sample_widgets (pressed : text) : widgets :=
  {| api_key := str "key";
     investment_type := str "Stock";
     symbol := str "AAPL";
     amount := float_of_Z 1000;
     notes := [];
     submitted := true;
     button := fun key => text_eqb key pressed;
     input_type := str "YouTube URL";
     video_url := Scenario.sample_url;
     uploaded := None |}.

Definition sample_session (d : option dict) : Session :=
  {| world := Scenario.empty_world; investments := d |}.

Definition sample_portfolio : dict :=
  [(str "AAPL", sample_entry "Stock"); (str "BTC", sample_entry "Cryptocurrency")].

Definition sample_client (api_key : text) : Client + Exception :=
  inl (Scenario.service_replying (str "{}")).

Definition sample_format (v : value) : text + Exception := inl (str "1,000.00").

(** One run of the page: the "Analyze YouTube Video" button pressed with a
    portfolio in place. *)
Definition sample_page_run : (unit + ending) * Session :=
  page Json.json_loads Scenario.sample_dumps Scenario.no_case_mapping
    Scenario.no_case_mapping Scenario.provider_unreachable
    Scenario.sample_prepare_filename Scenario.sample_fresh_dir
    Scenario.sample_dir_size sample_client sample_format
    (sample_widgets (str "Analyze YouTube Video"))
    (sample_session (Some sample_portfolio)).

End Vocabulary.
Import Vocabulary.

(** ** Facts about the string operations *)

Module StrFacts.

Lemma startswith_char (c : char) (t : text) :
  startswith t [c] = true <-> t !! 0%nat = Some c.
Proof.
  destruct t as [|b r]; simpl.
  - split; discriminate.
  - unfold char_eqb. rewrite andb_true_r, N.eqb_eq. split.
    + intros ->. reflexivity.
    + intros [= ->]. reflexivity.
Qed.

Lemma find_from_absent (c : char) (t : text) (i0 : Z) :
  c ∉ t -> find_from [c] t i0 = -1.
Proof.
  revert i0. induction t as [|b r IH]; intros i0 Hc; [reflexivity|].
  unfold find_from; fold find_from.
  destruct (startswith (b :: r) [c]) eqn:E.
  - apply startswith_char in E. injection E as ->. exfalso. apply Hc. left.
  - apply IH. intros H. apply Hc. right. exact H.
Qed.

Lemma find_from_first (c : char) (t : text) (i0 : Z) (i : nat) :
  t !! i = Some c -> (forall k, (k < i)%nat -> t !! k <> Some c) ->
  find_from [c] t i0 = i0 + Z.of_nat i.
Proof.
  revert i0 i. induction t as [|b r IH]; intros i0 i Hi Hlt; [discriminate|].
  unfold find_from; fold find_from.
  destruct (startswith (b :: r) [c]) eqn:E.
  - apply startswith_char in E.
    destruct i as [|i]; [lia|]. exfalso. apply (Hlt 0%nat); [lia|exact E].
  - destruct i as [|i].
    + apply startswith_char in Hi. congruence.
    + rewrite (IH (i0 + 1) i); [lia|exact Hi|].
      intros k Hk. apply (Hlt (S k)). lia.
Qed.

Lemma rfind_from_range (c : char) (t : text) (i0 : Z) :
  rfind_from [c] t i0 = -1 \/ i0 <= rfind_from [c] t i0.
Proof.
  revert i0. induction t as [|b r IH]; intros i0; [left; reflexivity|].
  unfold rfind_from; fold rfind_from.
  destruct (rfind_from [c] r (i0 + 1) =? -1) eqn:E.
  - destruct (startswith (b :: r) [c]); [right; lia|left; reflexivity].
  - apply Z.eqb_neq in E. destruct (IH (i0 + 1)); [contradiction|right; lia].
Qed.

Lemma rfind_from_absent (c : char) (t : text) (i0 : Z) :
  c ∉ t -> rfind_from [c] t i0 = -1.
Proof.
  revert i0. induction t as [|b r IH]; intros i0 Hc; [reflexivity|].
  unfold rfind_from; fold rfind_from.
  rewrite IH by (intros H; apply Hc; right; exact H). simpl (-1 =? -1).
  cbv iota.
  destruct (startswith (b :: r) [c]) eqn:E; [|reflexivity].
  apply startswith_char in E. injection E as ->. exfalso. apply Hc. left.
Qed.

Lemma rfind_from_last (c : char) (t : text) (i0 : Z) (j : nat) :
  0 <= i0 ->
  t !! j = Some c -> (forall k, (j < k)%nat -> t !! k <> Some c) ->
  rfind_from [c] t i0 = i0 + Z.of_nat j.
Proof.
  revert i0 j. induction t as [|b r IH]; intros i0 j H0 Hj Hgt; [discriminate|].
  unfold rfind_from; fold rfind_from.
  destruct j as [|j].
  - rewrite rfind_from_absent.
    + simpl (-1 =? -1). cbv iota.
      apply startswith_char in Hj. rewrite Hj. lia.
    + intros H. apply list_elem_of_lookup in H as [k Hk].
      apply (Hgt (S k)); [lia|exact Hk].
  - rewrite (IH (i0 + 1) j); [|lia|exact Hj|].
    + destruct (i0 + 1 + Z.of_nat j =? -1) eqn:E; [apply Z.eqb_eq in E; lia|lia].
    + intros k Hk. apply (Hgt (S k)). lia.
Qed.

Lemma slice_inside (t : text) (a b : nat) :
  (a <= b)%nat -> (b <= length t)%nat ->
  slice t (Z.of_nat a) (Z.of_nat b) = take (b - a) (drop a t).
Proof.
  intros Hab Hb. unfold slice, slice_bound.
  destruct (Z.of_nat a <? 0) eqn:Ea; [apply Z.ltb_lt in Ea; lia|].
  destruct (Z.of_nat b <? 0) eqn:Eb; [apply Z.ltb_lt in Eb; lia|].
  f_equal; [|f_equal]; lia.
Qed.

Lemma slice_reversed (t : text) (a b : nat) :
  (b <= a)%nat -> (a <= length t)%nat ->
  slice t (Z.of_nat a) (Z.of_nat b) = [].
Proof.
  intros Hab Hb. unfold slice, slice_bound.
  destruct (Z.of_nat a <? 0) eqn:Ea; [apply Z.ltb_lt in Ea; lia|].
  destruct (Z.of_nat b <? 0) eqn:Eb; [apply Z.ltb_lt in Eb; lia|].
  replace (Z.to_nat _) with 0%nat by lia. reflexivity.
Qed.

End StrFacts.

(** ** The decode candidate *)

Module Candidate.

Import App StrFacts.

Lemma first_at_bound (c : char) (t : text) (i : nat) :
  first_at c t i -> (i < length t)%nat.
Proof. intros [H _]. apply lookup_lt_Some in H. exact H. Qed.

Lemma last_at_bound (c : char) (t : text) (j : nat) :
  last_at c t j -> (j < length t)%nat.
Proof. intros [H _]. apply lookup_lt_Some in H. exact H. Qed.

Lemma json_candidate_no_lbrace (t : text) :
  LBRACE ∉ t -> json_candidate t = t.
Proof.
  intros H. unfold json_candidate, find.
  change lbrace with [LBRACE]. rewrite find_from_absent by exact H.
  reflexivity.
Qed.

Lemma json_candidate_slice (t : text) (i j : nat) :
  first_at LBRACE t i -> last_at RBRACE t j ->
  json_candidate t = slice t (Z.of_nat i) (Z.of_nat (S j)).
Proof.
  intros [Hi Hlt] [Hj Hgt]. unfold json_candidate, find, rfind.
  change lbrace with [LBRACE]. change rbrace with [RBRACE].
  rewrite (find_from_first _ _ _ i) by assumption.
  rewrite (rfind_from_last _ _ _ j) by (assumption || lia).
  destruct (0 + Z.of_nat i =? -1) eqn:E1; [apply Z.eqb_eq in E1; lia|].
  destruct (0 + Z.of_nat j + 1 =? -1) eqn:E2; [apply Z.eqb_eq in E2; lia|].
  simpl. f_equal; lia.
Qed.

(** The unclosed brace: a text with ['{'] and no ['}'] has [end_idx = 0],
    which the test against -1 lets through, and the slice is empty. *)
Lemma json_candidate_no_rbrace (t : text) (i : nat) :
  first_at LBRACE t i -> RBRACE ∉ t -> json_candidate t = [].
Proof.
  intros [Hi Hlt] Hr. unfold json_candidate, find, rfind.
  change lbrace with [LBRACE]. change rbrace with [RBRACE].
  rewrite (find_from_first _ _ _ i) by assumption.
  rewrite rfind_from_absent by assumption.
  destruct (0 + Z.of_nat i =? -1) eqn:E1; [apply Z.eqb_eq in E1; lia|].
  simpl. apply lookup_lt_Some in Hi.
  replace (0 + Z.of_nat i) with (Z.of_nat i) by lia.
  apply (slice_reversed t i 0); lia.
Qed.

(** C1 (as amended): when the working text has no ['{'] the candidate is
    the whole text; when its first ['{'] is at [i] and its last ['}'] at
    [j], the candidate is the slice from [i] through [j], which is the
    inclusive substring if [i < j] and the empty text if [j < i]. *)
Theorem json_candidate_by_cases (t : text) :
  (LBRACE ∉ t -> json_candidate t = t) /\
  (forall i j, first_at LBRACE t i -> last_at RBRACE t j ->
     ((i < j)%nat -> json_candidate t = take (j - i + 1) (drop i t)) /\
     ((j < i)%nat -> json_candidate t = [])).
Proof.
  split; [apply json_candidate_no_lbrace|].
  intros i j Hi Hj. rewrite (json_candidate_slice t i j Hi Hj).
  pose proof (first_at_bound _ _ _ Hi). pose proof (last_at_bound _ _ _ Hj).
  split; intros Hij.
  - rewrite slice_inside by lia. f_equal. lia.
  - apply slice_reversed; lia.
Qed.

Lemma json_candidate_by_cases_witness :
  json_candidate (str "ab") = str "ab"
  /\ json_candidate (str "a{b}c") = str "{b}"
  /\ json_candidate (str "}{") = [].
Proof.
  split; [|split].
  - apply (proj1 (json_candidate_by_cases (str "ab"))).
    intros H. apply list_elem_of_In in H. simpl in H. unfold LBRACE in H.
    intuition discriminate.
  - apply (proj2 (json_candidate_by_cases (str "a{b}c")) 1%nat 3%nat).
    + split; [reflexivity|]. intros k Hk.
      destruct k as [|k]; [discriminate|lia].
    + split; [reflexivity|]. intros k Hk.
      destruct k as [|[|[|[|[|k]]]]]; try lia; discriminate.
    + lia.
  - apply (proj2 (json_candidate_by_cases (str "}{")) 1%nat 0%nat).
    + split; [reflexivity|]. intros k Hk.
      destruct k as [|k]; [discriminate|lia].
    + split; [reflexivity|]. intros k Hk.
      destruct k as [|[|k]]; try lia; discriminate.
    + lia.
Defined.

(** C1 as stated fails: in ["}{"] the last ['}'] comes before the first
    ['{'], and the candidate is the empty text, not the working text. *)
Lemma json_candidate_reversed_braces :
  first_at LBRACE (str "}{") 1 /\ last_at RBRACE (str "}{") 0
  /\ json_candidate (str "}{") <> str "}{".
Proof.
  split; [|split].
  - split; [reflexivity|]. intros k Hk. destruct k as [|k]; [discriminate|lia].
  - split; [reflexivity|]. intros k Hk. destruct k as [|[|k]]; try lia; discriminate.
  - discriminate.
Qed.

End Candidate.

(** ** Effects of the pipeline on the world *)

Module Effects.

Import App.
Local Open Scope py_scope.

Section Generic.
Context (R : World -> World -> Prop) `{!PreOrder R}.

Lemma post_ret {A} (a : A) : post R (ret a).
Proof. intros w r w' [= _ <-]. reflexivity. Qed.

Lemma post_raise {A} (e : Exception) : post R (@raise A e).
Proof. intros w r w' [= _ <-]. reflexivity. Qed.

Lemma post_lift {A} (x : A + Exception) : post R (lift x).
Proof. intros w r w' [= _ <-]. reflexivity. Qed.

Lemma post_bind {A B} (m : M A) (k : A -> M B) :
  post R m -> (forall a, post R (k a)) -> post R (bind m k).
Proof.
  intros Hm Hk w r w'. unfold bind.
  destruct (m w) as [[a|e] w1] eqn:E; intros H.
  - transitivity w1; [exact (Hm _ _ _ E)|exact (Hk _ _ _ _ H)].
  - injection H as _ <-. exact (Hm _ _ _ E).
Qed.

Lemma post_try_except {A} (body : M A) handles (handler : Exception -> M A) :
  post R body -> (forall e, post R (handler e)) ->
  post R (try_except body handles handler).
Proof.
  intros Hb Hh w r w'. unfold try_except.
  destruct (body w) as [[a|e] w1] eqn:E.
  - intros [= _ <-]. exact (Hb _ _ _ E).
  - destruct (handles e); intros H.
    + transitivity w1; [exact (Hb _ _ _ E)|exact (Hh _ _ _ _ H)].
    + injection H as _ <-. exact (Hb _ _ _ E).
Qed.

Lemma post_for_each {A} (l : list A) (body : A -> M unit) :
  (forall x, post R (body x)) -> post R (for_each l body).
Proof.
  intros Hb. induction l as [|x l IH]; simpl.
  - apply post_ret.
  - apply post_bind; [apply Hb|intros _; exact IH].
Qed.

Lemma post_path_exists (p : text) : post R (path_exists p).
Proof. intros w r w' [= _ <-]. reflexivity. Qed.

Lemma post_getsize (dir_size : Z) (p : text) : post R (getsize dir_size p).
Proof.
  intros w r w'. unfold getsize.
  destruct (fs w !! p) as [[b|]|]; intros [= _ <-]; reflexivity.
Qed.

Lemma post_read_file (p : text) : post R (read_file p).
Proof.
  intros w r w'. unfold read_file.
  destruct (fs w !! p) as [[b|]|]; intros [= _ <-]; reflexivity.
Qed.

Lemma returns_post {A} (m : M A) : returns R m -> post R m.
Proof. intros H w r w' E. exact (proj1 (H _ _ _ E)). Qed.

Lemma returns_ret {A} (a : A) : returns R (ret a).
Proof. intros w r w' [= <- <-]. split; [reflexivity|eauto]. Qed.

Lemma returns_bind {A B} (m : M A) (k : A -> M B) :
  returns R m -> (forall a, returns R (k a)) -> returns R (bind m k).
Proof.
  intros Hm Hk w r w'. unfold bind.
  destruct (m w) as [[a|e] w1] eqn:E; intros H.
  - destruct (Hm _ _ _ E) as [R1 _]. destruct (Hk _ _ _ _ H) as [R2 Hr].
    split; [transitivity w1; assumption|exact Hr].
  - destruct (Hm _ _ _ E) as [_ [a Ha]]. discriminate.
Qed.

Lemma returns_try_except {A} (body : M A) (handler : Exception -> M A) :
  post R body -> (forall e, returns R (handler e)) ->
  returns R (try_except body any_Exception handler).
Proof.
  intros Hb Hh w r w'. unfold try_except.
  destruct (body w) as [[a|e] w1] eqn:E; simpl.
  - intros [= <- <-]. split; [exact (Hb _ _ _ E)|eauto].
  - intros H. destruct (Hh _ _ _ _ H) as [R2 Hr].
    split; [transitivity w1; [exact (Hb _ _ _ E)|exact R2]|exact Hr].
Qed.

End Generic.

Global Instance dirs_kept_preorder : PreOrder dirs_kept.
Proof.
  split.
  - intros w. split; [auto|reflexivity].
  - intros a b c [H1 T1] [H2 T2]. split; [auto|congruence].
Qed.

Global Instance any_change_preorder : PreOrder any_change.
Proof. split; intros ?; intros; exact I. Qed.

Lemma any_change_post {A} (m : M A) : post any_change m.
Proof. intros w r w' _. exact I. Qed.

Global Instance sends_mp4_preorder : PreOrder sends_mp4.
Proof.
  split.
  - intros w. exists []. split; [symmetry; apply app_nil_r|constructor].
  - intros a b c [n1 [E1 F1]] [n2 [E2 F2]]. exists (n1 ++ n2). split.
    + rewrite E2, E1. symmetry. apply app_assoc.
    + apply Forall_app. split; assumption.
Qed.


(** *** Steps that keep every directory *)

Ltac run_prim H :=
  repeat match type of H with
         | context [match ?x with _ => _ end] => destruct x eqn:?
         end;
  injection H as <- <-.

Lemma dirs_kept_same_fs (w w' : World) :
  fs w' = fs w -> tempdirs w' = tempdirs w -> dirs_kept w w'.
Proof. intros Hf Ht. split; [rewrite Hf; auto|exact Ht]. Qed.

Lemma dirs_kept_st (c : st_call) : post dirs_kept (st c).
Proof. intros w r w' [= _ <-]. apply dirs_kept_same_fs; reflexivity. Qed.

Lemma dirs_kept_os_remove (p : text) : post dirs_kept (os_remove p).
Proof.
  intros w r w' H. unfold os_remove in H. run_prim H; try reflexivity.
  split; [|reflexivity]. intros d Hd. simpl.
  rewrite lookup_delete_ne; [exact Hd|congruence].
Qed.

Lemma dirs_kept_write_file (p : text) (b : bytes) : post dirs_kept (write_file p b).
Proof.
  intros w r w' H. unfold write_file in H. run_prim H; try reflexivity.
  - split; [|reflexivity]. intros d Hd. simpl.
    rewrite lookup_insert_ne; [exact Hd|congruence].
  - split; [|reflexivity]. intros d Hd. simpl.
    rewrite lookup_insert_ne; [exact Hd|congruence].
Qed.

Lemma sends_mp4_same (w w' : World) : requests w' = requests w -> sends_mp4 w w'.
Proof. intros H. exists []. split; [rewrite H; symmetry; apply app_nil_r|constructor]. Qed.

Lemma sends_mp4_st (c : st_call) : post sends_mp4 (st c).
Proof. intros w r w' [= _ <-]. apply sends_mp4_same. reflexivity. Qed.

Lemma sends_mp4_os_remove (p : text) : post sends_mp4 (os_remove p).
Proof.
  intros w r w' H. unfold os_remove in H. run_prim H; apply sends_mp4_same; reflexivity.
Qed.

Lemma sends_mp4_os_rmdir (p : text) : post sends_mp4 (os_rmdir p).
Proof.
  intros w r w' H. unfold os_rmdir in H. run_prim H; apply sends_mp4_same; reflexivity.
Qed.

Lemma sends_mp4_write_file (p : text) (b : bytes) : post sends_mp4 (write_file p b).
Proof.
  intros w r w' H. unfold write_file in H. run_prim H; apply sends_mp4_same; reflexivity.
Qed.

Lemma sends_mp4_mkdtemp fresh : post sends_mp4 (mkdtemp fresh).
Proof. intros w r w' [= _ <-]. apply sends_mp4_same. reflexivity. Qed.

Section Collaborators.

Variable json_loads : text -> value + Exception.
Variable json_dumps : value -> text.
Variable unicode_lower unicode_upper : text -> text.
Variable extract_info : ydl_opts -> text -> bool -> gmap text node -> provider_outcome.
Variable prepare_filename : ydl_opts -> value -> text + Exception.
Variable generate_content : Request -> option text + Exception.
Variable fresh_dir : gmap text node -> text.
Variable dir_size : Z.

Lemma provider_writes_keep_dirs (l : list (text * bytes)) (m : gmap text node) (d : text) :
  m !! d = Some Dir ->
  fold_left (fun (m : gmap text node) (pb : text * bytes) =>
               match m !! fst pb with
               | Some Dir => m
               | _ => <[fst pb := File (snd pb)]> m
               end) l m !! d = Some Dir.
Proof.
  revert m. induction l as [|[p b] l IH]; intros m Hd; [exact Hd|].
  simpl. apply IH.
  destruct (m !! p) as [[c|]|] eqn:E; try exact Hd;
    (rewrite lookup_insert_ne; [exact Hd|congruence]).
Qed.

Lemma dirs_kept_ydl_extract_info opts url download :
  post dirs_kept (ydl_extract_info extract_info opts url download).
Proof.
  intros w r w' [= _ <-]. split; [|reflexivity].
  intros d Hd. simpl. apply provider_writes_keep_dirs. exact Hd.
Qed.

Lemma sends_mp4_ydl_extract_info opts url download :
  post sends_mp4 (ydl_extract_info extract_info opts url download).
Proof. intros w r w' [= _ <-]. apply sends_mp4_same. reflexivity. Qed.

Lemma dirs_kept_client_generate (r : Request) :
  post dirs_kept (client_generate generate_content r).
Proof. intros w x w' [= _ <-]. apply dirs_kept_same_fs; reflexivity. Qed.

Lemma sends_mp4_client_generate (r : Request) :
  inline_mp4 r -> post sends_mp4 (client_generate generate_content r).
Proof.
  intros Hr w x w' [= _ <-]. exists [r]. split; [reflexivity|].
  constructor; [exact Hr|constructor].
Qed.

End Collaborators.


(** *** The functions of the pipeline, for any relation its steps respect *)

Create HintDb post discriminated.
#[global] Hint Constants Opaque : post.
#[global] Hint Variables Opaque : post.
#[global] Hint Resolve dirs_kept_preorder sends_mp4_preorder : post.

Ltac post_step :=
  lazymatch goal with
  | |- PreOrder _ => typeclasses eauto
  | |- post _ (ret _) => apply post_ret
  | |- post _ (raise _) => apply post_raise
  | |- post _ (lift _) => apply post_lift
  | |- post _ (path_exists _) => apply post_path_exists
  | |- post _ (getsize _ _) => apply post_getsize
  | |- post _ (read_file _) => apply post_read_file
  | |- post _ (bind _ _) => apply post_bind; [..|intros ?]
  | |- post _ (try_except _ _ _) => apply post_try_except; [..|intros ?]
  | |- post _ (for_each _ _) => apply post_for_each; [..|intros ?]
  | |- post _ (if true then _ else _) => cbv iota
  | |- post _ (if false then _ else _) => cbv iota
  | |- post _ (if ?b then _ else _) => destruct b
  | |- post _ (match ?x with _ => _ end) => destruct x
  | |- post _ _ => solve [auto 3 with post nocore]
  end.

Ltac post_auto := repeat post_step.

Section Respect.

Variable json_loads : text -> value + Exception.
Variable json_dumps : value -> text.
Variable unicode_lower unicode_upper : text -> text.
Variable extract_info : ydl_opts -> text -> bool -> gmap text node -> provider_outcome.
Variable prepare_filename : ydl_opts -> value -> text + Exception.
Variable generate_content : Request -> option text + Exception.
Variable fresh_dir : gmap text node -> text.
Variable dir_size : Z.

Context (R : World -> World -> Prop) `{!PreOrder R}.
Hypothesis respects_st : forall c, post R (st c).
Hypothesis respects_provider :
  forall opts url download, post R (ydl_extract_info extract_info opts url download).
Hypothesis respects_client :
  forall r, inline_mp4 r -> post R (client_generate generate_content r).
Hypothesis respects_remove : forall p, post R (os_remove p).

Local Hint Resolve respects_st respects_provider respects_remove : post.

Lemma post_py_get v k d : post R (py_get v k d).
Proof. unfold py_get. post_auto. Qed.

Lemma post_py_getitem v k : post R (py_getitem v k).
Proof. unfold py_getitem. post_auto. Qed.

Lemma post_py_ge_int v n : post R (py_ge_int v n).
Proof. unfold py_ge_int. post_auto. Qed.

Lemma post_py_iter v : post R (py_iter v).
Proof. unfold py_iter. post_auto. Qed.

Lemma post_py_lower v : post R (py_lower unicode_lower v).
Proof. unfold py_lower. post_auto. Qed.

Local Hint Resolve post_py_get post_py_getitem post_py_ge_int post_py_iter
  post_py_lower : post.

Lemma post_display_list v k h : post R (display_list v k h).
Proof. unfold display_list. post_auto. Qed.

Lemma post_display_score v : post R (display_score v).
Proof. unfold display_score. post_auto. Qed.

Lemma post_risk_level v : post R (risk_level unicode_lower v).
Proof. unfold risk_level. post_auto. Qed.

Local Hint Resolve post_display_list post_display_score post_risk_level : post.

Lemma post_display_analysis_results v :
  post R (display_analysis_results unicode_lower unicode_upper v).
Proof. unfold display_analysis_results. post_auto. Qed.

Lemma post_parse_gemini_response t : post R (parse_gemini_response json_loads t).
Proof.
  unfold parse_gemini_response.
  destruct (parse_try json_loads t) as [[v|e] rt]; post_auto.
Qed.

Local Hint Resolve post_display_analysis_results post_parse_gemini_response : post.

Lemma post_show_response t :
  post R (show_response json_loads unicode_lower unicode_upper t).
Proof. unfold show_response. post_auto. Qed.

Lemma post_show_video_info i : post R (show_video_info i).
Proof. unfold show_video_info. post_auto. Qed.

Lemma post_get_video_info_basic u : post R (get_video_info_basic extract_info u).
Proof. unfold get_video_info_basic. post_auto. Qed.

Lemma inline_mp4_remote (uri prompt : text) :
  inline_mp4 {| model := gemini_model; contents := [file_data uri; text_part prompt] |}.
Proof.
  intros b m H. simpl in H.
  apply list_elem_of_In in H. simpl in H. intuition discriminate.
Qed.

Lemma inline_mp4_local (data : bytes) (prompt : text) :
  inline_mp4 {| model := gemini_model;
                contents := [inline_data data (str "video/mp4"); text_part prompt] |}.
Proof.
  intros b m H. simpl in H.
  apply list_elem_of_In in H. simpl in H.
  destruct H as [H|[H|[]]]; [|discriminate]. injection H as _ <-. reflexivity.
Qed.

Lemma post_analyze_video_with_gemini src inv yt :
  post R (analyze_video_with_gemini json_dumps generate_content src inv yt).
Proof.
  unfold analyze_video_with_gemini. post_auto.
  - apply respects_client, inline_mp4_remote.
  - apply respects_client, inline_mp4_local.
Qed.

Local Hint Resolve post_show_response post_show_video_info
  post_get_video_info_basic post_analyze_video_with_gemini : post.

Lemma post_main_youtube_url u inv :
  post R (main_youtube_url json_loads json_dumps unicode_lower unicode_upper
            extract_info generate_content u inv).
Proof. unfold main_youtube_url. post_auto. Qed.

End Respect.


(** *** Directories made and never removed *)

Lemma made_after_kept (a b c : World) :
  dirs_kept a b -> made_temp_dir b c -> made_temp_dir a c.
Proof.
  intros [_ T] [d [E H]]. exists d. split; [congruence|exact H].
Qed.

Lemma made_then_kept (a b c : World) :
  made_temp_dir a b -> dirs_kept b c -> made_temp_dir a c.
Proof.
  intros [d [E H]] [K T]. exists d. split; [congruence|auto].
Qed.

Lemma post_kept_then_made {A B} (m : M A) (k : A -> M B) :
  returns dirs_kept m -> (forall a, post made_temp_dir (k a)) ->
  post made_temp_dir (bind m k).
Proof.
  intros Hm Hk w r w'. unfold bind.
  destruct (m w) as [[a|e] w1] eqn:E; intros H.
  - apply (made_after_kept w w1 w'); [exact (proj1 (Hm _ _ _ E))|exact (Hk _ _ _ _ H)].
  - destruct (Hm _ _ _ E) as [_ [a Ha]]. discriminate.
Qed.

Lemma returns_made_then_kept {A B} (m : M A) (k : A -> M B) :
  returns made_temp_dir m -> (forall a, returns dirs_kept (k a)) ->
  returns made_temp_dir (bind m k).
Proof.
  intros Hm Hk w r w'. unfold bind.
  destruct (m w) as [[a|e] w1] eqn:E; intros H.
  - destruct (Hk _ _ _ _ H) as [K Hr].
    split; [|exact Hr].
    apply (made_then_kept w w1 w'); [exact (proj1 (Hm _ _ _ E))|exact K].
  - destruct (Hm _ _ _ E) as [_ [a Ha]]. discriminate.
Qed.

Lemma post_made_then_kept {A B} (m : M A) (k : A -> M B) :
  returns made_temp_dir m -> (forall a, post dirs_kept (k a)) ->
  post made_temp_dir (bind m k).
Proof.
  intros Hm Hk w r w'. unfold bind.
  destruct (m w) as [[a|e] w1] eqn:E; intros H.
  - apply (made_then_kept w w1 w'); [exact (proj1 (Hm _ _ _ E))|exact (Hk _ _ _ _ H)].
  - destruct (Hm _ _ _ E) as [_ [a Ha]]. discriminate.
Qed.

Lemma returns_mkdtemp (fresh : gmap text node -> text) :
  returns made_temp_dir (mkdtemp fresh).
Proof.
  intros w r w' [= <- <-]. split; [|eauto].
  exists (fresh (fs w)). split; [reflexivity|]. simpl. apply lookup_insert_eq.
Qed.

Lemma returns_st (R : World -> World -> Prop) (c : st_call) :
  post R (st c) -> returns R (st c).
Proof.
  intros H w r w' E. split; [exact (H _ _ _ E)|].
  injection E as <- _. eauto.
Qed.

Ltac returns_step :=
  lazymatch goal with
  | |- PreOrder _ => typeclasses eauto
  | |- returns _ (ret _) => apply returns_ret
  | |- returns _ (st _) => apply returns_st; solve [auto 3 with post nocore]
  | |- returns _ (if true then _ else _) => cbv iota
  | |- returns _ (if false then _ else _) => cbv iota
  | |- returns _ (if ?b then _ else _) => destruct b
  | |- returns _ (bind _ _) => apply returns_bind; [..|intros ?]
  | |- returns _ (try_except _ any_Exception _) =>
      apply returns_try_except; [..|intros ?]
  end.

Section Leak.

Variable json_loads : text -> value + Exception.
Variable json_dumps : value -> text.
Variable unicode_lower unicode_upper : text -> text.
Variable extract_info : ydl_opts -> text -> bool -> gmap text node -> provider_outcome.
Variable prepare_filename : ydl_opts -> value -> text + Exception.
Variable generate_content : Request -> option text + Exception.
Variable fresh_dir : gmap text node -> text.
Variable dir_size : Z.

Local Hint Resolve dirs_kept_st dirs_kept_os_remove dirs_kept_write_file
  dirs_kept_ydl_extract_info : post.
Local Hint Resolve post_show_response post_show_video_info
  post_get_video_info_basic post_analyze_video_with_gemini
  post_display_analysis_results post_parse_gemini_response : post.

Lemma dirs_kept_client (r : Request) :
  inline_mp4 r -> post dirs_kept (client_generate generate_content r).
Proof. intros _. apply dirs_kept_client_generate. Qed.

Local Hint Resolve dirs_kept_client : post.

Lemma returns_get_video_info_basic (R : World -> World -> Prop) `{!PreOrder R} u :
  (forall c, post R (st c)) ->
  (forall opts url download, post R (ydl_extract_info extract_info opts url download)) ->
  returns R (get_video_info_basic extract_info u).
Proof.
  intros Hst Hydl. unfold get_video_info_basic.
  apply returns_try_except; [typeclasses eauto| |].
  - post_auto; apply post_py_get; typeclasses eauto.
  - intros e. apply returns_bind; [typeclasses eauto| |intros ?].
    + apply returns_st, Hst.
    + apply returns_ret. typeclasses eauto.
Qed.

Lemma returns_show_video_info (R : World -> World -> Prop) `{!PreOrder R} i :
  (forall c, post R (st c)) -> returns R (show_video_info i).
Proof.
  intros Hst. unfold show_video_info.
  repeat (apply returns_bind; [typeclasses eauto|apply returns_st, Hst|intros ?]).
  apply returns_st, Hst.
Qed.

Lemma returns_download_video_for_gemini (u : text) (max_size_mb : Z) :
  returns made_temp_dir
    (download_video_for_gemini extract_info prepare_filename fresh_dir dir_size
       u max_size_mb).
Proof.
  unfold download_video_for_gemini.
  apply returns_made_then_kept; [apply returns_mkdtemp|intros temp_dir].
  apply returns_try_except; [typeclasses eauto| |].
  - post_auto.
  - intros e. repeat returns_step.
Qed.

Lemma made_temp_dir_main_other_url (u : text) (inv : value) :
  post made_temp_dir
    (main_other_url json_loads json_dumps unicode_lower unicode_upper extract_info
       prepare_filename generate_content fresh_dir dir_size u inv).
Proof.
  unfold main_other_url.
  repeat (apply post_kept_then_made;
          [ first [ apply returns_st, dirs_kept_st
                  | apply returns_get_video_info_basic;
                    [typeclasses eauto|apply dirs_kept_st
                    |apply dirs_kept_ydl_extract_info]
                  | apply returns_show_video_info;
                    [typeclasses eauto|apply dirs_kept_st] ]
          | intros ? ]).
  apply post_made_then_kept; [apply returns_download_video_for_gemini|].
  intros video_path. post_auto.
Qed.

End Leak.

Section Mp4.

Variable json_loads : text -> value + Exception.
Variable json_dumps : value -> text.
Variable unicode_lower unicode_upper : text -> text.
Variable extract_info : ydl_opts -> text -> bool -> gmap text node -> provider_outcome.
Variable prepare_filename : ydl_opts -> value -> text + Exception.
Variable generate_content : Request -> option text + Exception.
Variable fresh_dir : gmap text node -> text.
Variable dir_size : Z.

Local Hint Resolve sends_mp4_st sends_mp4_os_remove sends_mp4_os_rmdir
  sends_mp4_write_file sends_mp4_mkdtemp sends_mp4_ydl_extract_info
  sends_mp4_client_generate : post.
Local Hint Resolve post_show_response post_show_video_info
  post_get_video_info_basic post_analyze_video_with_gemini
  post_display_analysis_results post_parse_gemini_response : post.

Lemma sends_mp4_download (u : text) (max_size_mb : Z) :
  post sends_mp4
    (download_video_for_gemini extract_info prepare_filename fresh_dir dir_size
       u max_size_mb).
Proof. unfold download_video_for_gemini. post_auto. Qed.

Local Hint Resolve sends_mp4_download : post.

Lemma sends_mp4_main_other_url (u : text) (inv : value) :
  post sends_mp4
    (main_other_url json_loads json_dumps unicode_lower unicode_upper extract_info
       prepare_filename generate_content fresh_dir dir_size u inv).
Proof. unfold main_other_url. post_auto. Qed.

Lemma sends_mp4_main_upload (f : uploaded_file) (inv : value) (clicked : bool) :
  post sends_mp4
    (main_upload json_loads json_dumps unicode_lower unicode_upper
       generate_content fresh_dir f inv clicked).
Proof. unfold main_upload, analyze_staged. post_auto. Qed.

End Mp4.

End Effects.

(** ** Temporary storage *)

Module TempStorage.

Import App Scenario Effects.
Local Open Scope py_scope.

Section Collaborators.

Variable json_loads : text -> value + Exception.
Variable json_dumps : value -> text.
Variable unicode_lower unicode_upper : text -> text.
Variable extract_info : ydl_opts -> text -> bool -> gmap text node -> provider_outcome.
Variable prepare_filename : ydl_opts -> value -> text + Exception.
Variable generate_content : Request -> option text + Exception.
Variable fresh_dir : gmap text node -> text.
Variable dir_size : Z.

(** C5 (fails in the code): on every exit path of the "Other URL" analysis
    the directory [download_video_for_gemini] made with [mkdtemp] is still
    there when the analysis ends; nothing on that path calls [os.rmdir]. *)
Theorem main_other_url_leaves_temp_dir (video_url : text) (investments : value)
    (w w' : World) (r : unit + Exception) :
  main_other_url json_loads json_dumps unicode_lower unicode_upper extract_info
    prepare_filename generate_content fresh_dir dir_size video_url investments w
  = (r, w') ->
  exists temp_dir,
    tempdirs w' = tempdirs w ++ [temp_dir] /\ fs w' !! temp_dir = Some Dir.
Proof.
  intros Hrun.
  exact (made_temp_dir_main_other_url json_loads json_dumps unicode_lower
           unicode_upper extract_info prepare_filename generate_content
           fresh_dir dir_size video_url investments w r w' Hrun).
Qed.

End Collaborators.

Lemma main_other_url_leaves_temp_dir_witness :
  fst (run_other_url (str "{}") empty_world) = inl tt
  /\ fs (snd (run_other_url (str "{}") empty_world)) !! sample_video_path = None
  /\ fs (snd (run_other_url (str "{}") empty_world)) !! sample_temp_dir = Some Dir
  /\ exists temp_dir,
       tempdirs (snd (run_other_url (str "{}") empty_world))
       = tempdirs empty_world ++ [temp_dir]
       /\ fs (snd (run_other_url (str "{}") empty_world)) !! temp_dir = Some Dir.
Proof.
  split; [vm_compute; reflexivity|].
  split; [vm_compute; reflexivity|].
  split; [vm_compute; reflexivity|].
  unfold run_other_url.
  exact (main_other_url_leaves_temp_dir Json.json_loads sample_dumps no_case_mapping
           no_case_mapping (provider_leaving [Byte.x00]) sample_prepare_filename
           (service_replying (str "{}")) sample_fresh_dir sample_dir_size
           sample_url (VDict []) empty_world _ _ (surjective_pairing _)).
Defined.

End TempStorage.

(** ** The declared MIME type *)

Module MimeType.

Import App Scenario Effects.
Local Open Scope py_scope.

Section Collaborators.

Variable json_loads : text -> value + Exception.
Variable json_dumps : value -> text.
Variable unicode_lower unicode_upper : text -> text.
Variable extract_info : ydl_opts -> text -> bool -> gmap text node -> provider_outcome.
Variable prepare_filename : ydl_opts -> value -> text + Exception.
Variable generate_content : Request -> option text + Exception.
Variable fresh_dir : gmap text node -> text.
Variable dir_size : Z.

Lemma analyze_local_request (video_source : text) (investments : value)
    (w : World) (video_bytes : bytes) :
  read_file video_source w = (inl video_bytes, w) ->
  requests (snd (analyze_video_with_gemini json_dumps generate_content
                   video_source investments false w))
  = requests w
    ++ [{| model := gemini_model;
           contents := [inline_data video_bytes (str "video/mp4");
                        text_part (prompt_head ++ json_dumps investments
                                   ++ prompt_tail)] |}].
Proof.
  intros Hread.
  unfold analyze_video_with_gemini, try_except, bind. rewrite Hread.
  unfold client_generate.
  destruct (generate_content _) as [t|e]; reflexivity.
Qed.

(** C10: a local video file is always sent as inline bytes declared
    [video/mp4]: the request [analyze_video_with_gemini] builds from a file
    it can read carries the file's bytes under that type, and every request
    the download analysis or the upload analysis sends declares it, whatever
    the file's name or the type the uploader declared. *)
Theorem inline_requests_declare_mp4 :
  (forall video_source investments w video_bytes,
     read_file video_source w = (inl video_bytes, w) ->
     requests (snd (analyze_video_with_gemini json_dumps generate_content
                      video_source investments false w))
     = requests w
       ++ [{| model := gemini_model;
              contents := [inline_data video_bytes (str "video/mp4");
                           text_part (prompt_head ++ json_dumps investments
                                      ++ prompt_tail)] |}])
  /\ (forall video_url investments w,
        sends_mp4 w
          (snd (main_other_url json_loads json_dumps unicode_lower unicode_upper
                  extract_info prepare_filename generate_content fresh_dir
                  dir_size video_url investments w)))
  /\ (forall uploaded investments clicked w,
        sends_mp4 w
          (snd (main_upload json_loads json_dumps unicode_lower unicode_upper
                  generate_content fresh_dir uploaded investments clicked w))).
Proof.
  split; [exact analyze_local_request|split].
  - intros video_url investments w.
    eapply sends_mp4_main_other_url. apply surjective_pairing.
  - intros uploaded investments clicked w.
    eapply sends_mp4_main_upload. apply surjective_pairing.
Qed.

End Collaborators.

Lemma inline_requests_declare_mp4_witness :
  requests (snd (run_upload (str "{}") empty_world))
  = [{| model := gemini_model;
        contents := [inline_data [Byte.x52] (str "video/mp4");
                     text_part (prompt_head ++ sample_dumps (VDict [])
                                ++ prompt_tail)] |}]
  /\ sends_mp4 empty_world (snd (run_upload (str "{}") empty_world))
  /\ sends_mp4 empty_world (snd (run_other_url (str "{}") empty_world)).
Proof.
  pose proof (inline_requests_declare_mp4 Json.json_loads sample_dumps
                no_case_mapping no_case_mapping (provider_leaving [Byte.x00])
                sample_prepare_filename (service_replying (str "{}"))
                sample_fresh_dir sample_dir_size) as [_ [Hother Hupload]].
  split; [vm_compute; reflexivity|split].
  - unfold run_upload. exact (Hupload sample_upload (VDict []) true empty_world).
  - unfold run_other_url. exact (Hother sample_url (VDict []) empty_world).
Defined.

End MimeType.

(** ** Acquisition under the size budget *)

Module Acquire.

Import App Scenario Effects.
Local Open Scope py_scope.

Section Collaborators.

Variable extract_info : ydl_opts -> text -> bool -> gmap text node -> provider_outcome.
Variable prepare_filename : ydl_opts -> value -> text + Exception.
Variable fresh_dir : gmap text node -> text.
Variable dir_size : Z.

Local Abbreviation download := (download_video_for_gemini extract_info prepare_filename
                        fresh_dir dir_size).

(** One run of [download_video_for_gemini], by what the provider did. *)
Lemma download_run (url : text) (max_size_mb : Z) (w w0 w1 : World)
    (temp_dir : text) (res : value + Exception) :
  mkdtemp fresh_dir w = (inl temp_dir, w0) ->
  ydl_extract_info extract_info (download_opts temp_dir max_size_mb) url true w0
  = (res, w1) ->
  download url max_size_mb w =
  match res with
  | inr e => (inl None, shown (st_error [Lit "Error downloading video: "; Exc e]) w1)
  | inl info =>
      match prepare_filename (download_opts temp_dir max_size_mb) info with
      | inr e => (inl None, shown (st_error [Lit "Error downloading video: "; Exc e]) w1)
      | inl video_path =>
          match fs w1 !! video_path with
          | None => (inl None, shown (st_error [Lit "Failed to download video file"]) w1)
          | Some n =>
              if Qgtb (Qmake (node_size dir_size n) (1024 * 1024)) (inject_Z max_size_mb) then
                match n with
                | File _ =>
                    (inl None,
                     set_fs (delete video_path)
                       (shown (over_budget_warning (node_size dir_size n) max_size_mb) w1))
                | Dir =>
                    (inl None,
                     shown (st_error [Lit "Error downloading video: ";
                                      Exc (ExternalError "IsADirectoryError" video_path)])
                       (shown (over_budget_warning (node_size dir_size n) max_size_mb) w1))
                end
              else (inl (Some video_path), w1)
          end
      end
  end.
Proof.
  intros Hmk Hydl.
  unfold download_video_for_gemini, bind at 1. rewrite Hmk.
  unfold try_except, bind at 1. rewrite Hydl.
  destruct res as [info|e]; [|reflexivity].
  unfold bind at 1, lift.
  destruct (prepare_filename _ info) as [video_path|e]; [|reflexivity].
  unfold bind at 1, path_exists.
  destruct (fs w1 !! video_path) as [n|] eqn:Hn; [|reflexivity].
  unfold bind at 1, getsize. rewrite Hn.
  destruct n as [b|]; simpl node_size; cbv iota beta.
  - destruct (Qgtb _ _); [|reflexivity].
    unfold bind, st, os_remove, any_Exception. simpl. rewrite Hn. reflexivity.
  - destruct (Qgtb _ _); [|reflexivity].
    unfold bind, st, os_remove, any_Exception. simpl. rewrite Hn. reflexivity.
Qed.

Lemma mkdtemp_run (w : World) :
  mkdtemp fresh_dir w = (inl (fresh_dir (fs w)), snd (mkdtemp fresh_dir w)).
Proof. reflexivity. Qed.

Lemma Qgtb_false (x y : Q) : Qgtb x y = false -> Qle x y.
Proof.
  unfold Qgtb. intros H. apply negb_false_iff in H. apply Qle_bool_iff. exact H.
Qed.

Lemma Qgtb_true (x y : Q) : Qlt y x -> Qgtb x y = true.
Proof.
  unfold Qgtb. intros H. apply negb_true_iff.
  destruct (Qle_bool x y) eqn:E; [|reflexivity].
  apply Qle_bool_iff in E. exfalso. exact (Qlt_not_le _ _ H E).
Qed.

(** C2: [download_video_for_gemini] never raises and never returns a path
    whose measured size is over the budget; when the provider leaves a file
    over the budget, the file is removed, the result is [None], and the file
    no longer exists afterwards. *)
Theorem download_respects_budget (url : text) (max_size_mb : Z) (w w' : World)
    (r : option text + Exception) :
  download url max_size_mb w = (r, w') ->
  (exists result, r = inl result)
  /\ (forall video_path,
        r = inl (Some video_path) ->
        exists size,
          getsize dir_size video_path w' = (inl size, w')
          /\ Qle (Qmake size (1024 * 1024)) (inject_Z max_size_mb))
  /\ (forall temp_dir w0 info w1 video_path content,
        mkdtemp fresh_dir w = (inl temp_dir, w0) ->
        ydl_extract_info extract_info (download_opts temp_dir max_size_mb) url true w0
        = (inl info, w1) ->
        prepare_filename (download_opts temp_dir max_size_mb) info = inl video_path ->
        fs w1 !! video_path = Some (File content) ->
        Qlt (inject_Z max_size_mb) (Qmake (Z.of_nat (length content)) (1024 * 1024)) ->
        r = inl None /\ fs w' !! video_path = None).
Proof.
  intros Hrun. split; [|split].
  - destruct (returns_download_video_for_gemini extract_info prepare_filename
                fresh_dir dir_size url max_size_mb w r w' Hrun) as [_ H].
    exact H.
  - intros video_path ->.
    destruct (ydl_extract_info extract_info
                (download_opts (fresh_dir (fs w)) max_size_mb) url true
                (snd (mkdtemp fresh_dir w))) as [res w1] eqn:Hydl.
    rewrite (download_run url max_size_mb w _ w1 _ res (mkdtemp_run w) Hydl) in Hrun.
    destruct res as [info|e]; [|discriminate].
    destruct (prepare_filename _ info) as [p|e]; [|discriminate].
    destruct (fs w1 !! p) as [n|] eqn:Hn; [|discriminate].
    destruct (Qgtb _ _) eqn:Hgt; [destruct n; discriminate|].
    injection Hrun as -> ->.
    exists (node_size dir_size n). split; [|exact (Qgtb_false _ _ Hgt)].
    unfold getsize. rewrite Hn. destruct n; reflexivity.
  - intros temp_dir w0 info w1 video_path content Hmk Hydl Hprep Hfile Hover.
    rewrite (download_run url max_size_mb w w0 w1 temp_dir _ Hmk Hydl) in Hrun.
    rewrite Hprep, Hfile in Hrun. simpl node_size in Hrun.
    rewrite (Qgtb_true _ _ Hover) in Hrun.
    injection Hrun as <- <-. split; [reflexivity|].
    simpl. apply lookup_delete_eq.
Qed.

(** C8 (as amended): after a download the provider reports as successful, a
    missing result file is reported with [st.error] and the result is
    [None]; a zero-byte result file is within any non-negative budget and is
    returned as the local file, with nothing reported. *)
Theorem download_missing_or_empty_file (url : text) (max_size_mb : Z)
    (w w0 w1 : World) (temp_dir video_path : text) (info : value) :
  mkdtemp fresh_dir w = (inl temp_dir, w0) ->
  ydl_extract_info extract_info (download_opts temp_dir max_size_mb) url true w0
  = (inl info, w1) ->
  prepare_filename (download_opts temp_dir max_size_mb) info = inl video_path ->
  (fs w1 !! video_path = None ->
   download url max_size_mb w
   = (inl None, shown (st_error [Lit "Failed to download video file"]) w1))
  /\ (fs w1 !! video_path = Some (File []) -> 0 <= max_size_mb ->
      download url max_size_mb w = (inl (Some video_path), w1)).
Proof.
  intros Hmk Hydl Hprep.
  rewrite (download_run url max_size_mb w w0 w1 temp_dir _ Hmk Hydl), Hprep.
  split.
  - intros ->. reflexivity.
  - intros -> Hmax. simpl node_size.
    replace (Qgtb _ _) with false; [reflexivity|].
    symmetry. unfold Qgtb. apply negb_false_iff, Qle_bool_iff.
    unfold Qle. simpl. lia.
Qed.

End Collaborators.

(** The world in which the sample provider is called, and the one it
    leaves. *)
Lemma sample_download_steps (content : bytes) (max_size_mb : Z) :
  mkdtemp sample_fresh_dir empty_world
  = (inl sample_temp_dir, snd (mkdtemp sample_fresh_dir empty_world))
  /\ ydl_extract_info (provider_leaving content)
       (download_opts sample_temp_dir max_size_mb) sample_url true
       (snd (mkdtemp sample_fresh_dir empty_world))
     = (inl sample_info,
        snd (ydl_extract_info (provider_leaving content)
               (download_opts sample_temp_dir max_size_mb) sample_url true
               (snd (mkdtemp sample_fresh_dir empty_world))))
  /\ sample_prepare_filename (download_opts sample_temp_dir max_size_mb) sample_info
     = inl sample_video_path.
Proof. split; [reflexivity|split; [reflexivity|]]. vm_compute. reflexivity. Qed.

Lemma download_respects_budget_witness :
  fst (run_download [Byte.x00] 0 empty_world) = inl None
  /\ fs (snd (run_download [Byte.x00] 0 empty_world)) !! sample_video_path = None
  /\ exists size,
       getsize sample_dir_size sample_video_path
         (snd (run_download [Byte.x00] 20 empty_world))
       = (inl size, snd (run_download [Byte.x00] 20 empty_world))
       /\ Qle (Qmake size (1024 * 1024)) (inject_Z 20).
Proof.
  destruct (sample_download_steps [Byte.x00] 0) as [Hmk [Hydl Hprep]].
  assert (Hfile : fs (snd (ydl_extract_info (provider_leaving [Byte.x00])
                             (download_opts sample_temp_dir 0) sample_url true
                             (snd (mkdtemp sample_fresh_dir empty_world))))
                  !! sample_video_path = Some (File [Byte.x00]))
    by (vm_compute; reflexivity).
  assert (Hover : Qlt (inject_Z 0) (Qmake (Z.of_nat (length [Byte.x00])) (1024 * 1024)))
    by (vm_compute; reflexivity).
  unfold run_download.
  split; [|split].
  - exact (proj1 (proj2 (proj2 (download_respects_budget
                   (provider_leaving [Byte.x00]) sample_prepare_filename
                   sample_fresh_dir sample_dir_size sample_url 0 empty_world _ _
                   (surjective_pairing _)))
                 _ _ _ _ _ _ Hmk Hydl Hprep Hfile Hover)).
  - exact (proj2 (proj2 (proj2 (download_respects_budget
                   (provider_leaving [Byte.x00]) sample_prepare_filename
                   sample_fresh_dir sample_dir_size sample_url 0 empty_world _ _
                   (surjective_pairing _)))
                 _ _ _ _ _ _ Hmk Hydl Hprep Hfile Hover)).
  - apply (proj1 (proj2 (download_respects_budget
                   (provider_leaving [Byte.x00]) sample_prepare_filename
                   sample_fresh_dir sample_dir_size sample_url 20 empty_world _ _
                   (surjective_pairing _)))
             sample_video_path).
    vm_compute. reflexivity.
Defined.

Lemma download_missing_or_empty_file_witness :
  download_video_for_gemini provider_leaving_nothing sample_prepare_filename
    sample_fresh_dir sample_dir_size sample_url 20 empty_world
  = (inl None,
     shown (st_error [Lit "Failed to download video file"])
       (snd (ydl_extract_info provider_leaving_nothing
               (download_opts sample_temp_dir 20) sample_url true
               (snd (mkdtemp sample_fresh_dir empty_world)))))
  /\ run_download [] 20 empty_world
     = (inl (Some sample_video_path),
        snd (ydl_extract_info (provider_leaving [])
               (download_opts sample_temp_dir 20) sample_url true
               (snd (mkdtemp sample_fresh_dir empty_world)))).
Proof.
  destruct (sample_download_steps [] 20) as [Hmk [Hydl Hprep]].
  split.
  - refine (proj1 (download_missing_or_empty_file provider_leaving_nothing
                     sample_prepare_filename sample_fresh_dir sample_dir_size
                     sample_url 20 empty_world _ _ sample_temp_dir
                     sample_video_path sample_info Hmk _ Hprep) _).
    + reflexivity.
    + vm_compute. reflexivity.
  - unfold run_download.
    refine (proj2 (download_missing_or_empty_file (provider_leaving [])
                     sample_prepare_filename sample_fresh_dir sample_dir_size
                     sample_url 20 empty_world _ _ sample_temp_dir
                     sample_video_path sample_info Hmk Hydl Hprep) _ _).
    + vm_compute. reflexivity.
    + lia.
Defined.

(** C8 as stated fails: a provider that reports success and leaves a
    zero-byte file gets that file back as the local file, and nothing is
    reported. *)
Lemma download_returns_empty_file :
  fst (run_download [] 20 empty_world) = inl (Some sample_video_path)
  /\ ui (snd (run_download [] 20 empty_world)) = []
  /\ fs (snd (run_download [] 20 empty_world)) !! sample_video_path = Some (File []).
Proof. split; [|split]; vm_compute; reflexivity. Qed.

End Acquire.

(** ** Metadata resolution *)

Module Resolve.

Import App Scenario Effects.
Local Open Scope py_scope.

Section Collaborators.

Variable extract_info : ydl_opts -> text -> bool -> gmap text node -> provider_outcome.

(** C6: [get_video_info_basic] never raises, and when metadata extraction
    raises, it returns the record with title "Unknown", duration 0 and
    platform "Unknown" and reports the error with [st.error]. *)
Theorem get_video_info_basic_never_fails (video_url : text) (w : World) :
  (exists info, fst (get_video_info_basic extract_info video_url w) = inl info)
  /\ (forall e w1,
        ydl_extract_info extract_info info_opts video_url false w = (inr e, w1) ->
        get_video_info_basic extract_info video_url w
        = (inl (unknown_video video_url),
           shown (st_error [Lit "Error extracting video info: "; Exc e]) w1)).
Proof.
  split.
  - destruct (get_video_info_basic extract_info video_url w) as [r w'] eqn:Hrun.
    destruct (returns_get_video_info_basic extract_info any_change video_url
                (fun c => any_change_post _) (fun o u d => any_change_post _)
                w r w' Hrun) as [_ H].
    exact H.
  - intros e w1 Hydl.
    unfold get_video_info_basic, try_except, bind at 1. rewrite Hydl.
    reflexivity.
Qed.

End Collaborators.

Lemma get_video_info_basic_never_fails_witness :
  fst (get_video_info_basic provider_unreachable sample_url empty_world)
  = inl (unknown_video sample_url)
  /\ ui (snd (get_video_info_basic provider_unreachable sample_url empty_world))
     = [st_error [Lit "Error extracting video info: ";
                  Exc (ExternalError "DownloadError"
                         (str "Unable to download webpage"))]].
Proof.
  pose proof (proj2 (get_video_info_basic_never_fails provider_unreachable
                       sample_url empty_world)
                (ExternalError "DownloadError" (str "Unable to download webpage"))
                _ eq_refl) as H.
  rewrite H. split; reflexivity.
Defined.

End Resolve.

(** ** Facts about the decoder *)

Module JsonFacts.

Import Json.

(** Each scanning function returns a text shorter than the one it was given. *)
Lemma skip_ws_length (s : text) : (length (skip_ws s) <= length s)%nat.
Proof.
  induction s as [|c r IH]; cbn [skip_ws length]; [lia|].
  destruct (is_ws c); cbn [length]; lia.
Qed.

Lemma scanstring_length (start s acc key rest : text) :
  scanstring start s acc = inl (key, rest) -> (length rest < length s)%nat.
Proof.
  remember (length s) as k eqn:Hk.
  assert (Hle : (length s <= k)%nat) by lia. clear Hk.
  revert s acc Hle. induction k as [|k IH]; intros s acc Hle H.
  - destruct s; [discriminate|cbn [length] in Hle; lia].
  - destruct s as [|c r]; [discriminate|].
    cbn [scanstring] in H. cbn [length] in Hle.
    repeat case_match; simplify_eq; cbn [length] in *;
      try (apply IH in H; [lia|cbn [length]; lia]); lia.
Qed.

Lemma span_digits_length (s d t : text) :
  span_digits s = (d, t) -> (length d + length t = length s)%nat.
Proof.
  revert d t. induction s as [|c r IH]; intros d t H; cbn [span_digits] in H.
  - simplify_eq. reflexivity.
  - destruct (is_digit c).
    + destruct (span_digits r) as [d' t'] eqn:E. simplify_eq.
      specialize (IH _ _ eq_refl). cbn [length]. lia.
    + simplify_eq. reflexivity.
Qed.

Lemma match_integer_length (s d t : text) :
  match_integer s = Some (d, t) -> (length t < length s)%nat.
Proof.
  unfold match_integer. destruct s as [|c r]; [discriminate|].
  destruct (c =? 48)%N.
  - intros H. simplify_eq. cbn [length]. lia.
  - destruct (is_digit c) eqn:Hd; [|discriminate].
    intros H. simplify_eq.
    cbn [span_digits] in H. rewrite Hd in H.
    destruct (span_digits r) as [d' t'] eqn:E. simplify_eq.
    apply span_digits_length in E. cbn [length]. lia.
Qed.

Lemma match_frac_length (s d t : text) :
  match_frac s = (d, t) -> (length t <= length s)%nat.
Proof.
  unfold match_frac. destruct s as [|c r]; [intros; simplify_eq; lia|].
  destruct (c =? 46)%N; [|intros; simplify_eq; lia].
  destruct (span_digits r) as [d' t'] eqn:E.
  apply span_digits_length in E.
  destruct d'; intros H; simplify_eq; cbn [length] in *; lia.
Qed.

Lemma match_exp_length (s : text) (e : option Z) (t : text) :
  match_exp s = (e, t) -> (length t <= length s)%nat.
Proof.
  unfold match_exp. destruct s as [|c r]; [intros; simplify_eq; lia|].
  destruct ((c =? 101) || (c =? 69))%N; [|intros; simplify_eq; lia].
  intros H.
  repeat case_match; simplify_eq; cbn [length] in *;
    repeat match goal with
           | E : span_digits _ = _ |- _ => apply span_digits_length in E
           end; cbn [length] in *; lia.
Qed.

Lemma match_number_length (s : text) (v : value) (t : text) :
  match_number s = Some (v, t) -> (length t < length s)%nat.
Proof.
  unfold match_number. intros H.
  repeat case_match; simplify_eq;
    repeat match goal with
           | E : match_integer _ = _ |- _ => apply match_integer_length in E
           | E : match_frac _ = _ |- _ => apply match_frac_length in E
           | E : match_exp _ = _ |- _ => apply match_exp_length in E
           end; cbn [length] in *; lia.
Qed.

Lemma skip_ws_cons_length (s : text) (c : char) (r : text) :
  skip_ws s = c :: r -> (length r < length s)%nat.
Proof.
  intros H. pose proof (skip_ws_length s) as L. rewrite H in L.
  cbn [length] in L. lia.
Qed.

Ltac learn_skip_ws s :=
  lazymatch goal with
  | _ : (length (skip_ws s) <= length s)%nat |- _ => fail
  | _ => pose proof (skip_ws_length s)
  end.

Ltac lengths :=
  repeat match goal with
         | E : skip_ws _ = _ :: _ |- _ => apply skip_ws_cons_length in E
         | E : scanstring _ _ _ = inl _ |- _ => apply scanstring_length in E
         | E : match_number _ = Some _ |- _ => apply match_number_length in E
         end;
  repeat match goal with
         | |- context [length (skip_ws ?s)] => learn_skip_ws s
         | _ : context [length (skip_ws ?s)] |- _ => learn_skip_ws s
         end;
  rewrite ?length_drop; cbn [length] in *; try lia.

(** Decoding a value consumes input. *)
Lemma scan_consumes (fuel : nat) :
  (forall s v rest,
      scan_once fuel s = inl (v, rest) -> (length rest < length s)%nat) /\
  (forall start s acc v rest,
      parse_pairs fuel start s acc = inl (v, rest) ->
      (length rest < length s)%nat) /\
  (forall s acc v rest,
      parse_items fuel s acc = inl (v, rest) -> (length rest < length s)%nat).
Proof.
  induction fuel as [|n (IHs & IHp & IHi)]; [repeat split; discriminate|].
  repeat split.
  - intros s v rest H. cbn [scan_once] in H.
    repeat case_match; simplify_eq;
      try (apply IHp in H); try (apply IHi in H); lengths.
  - intros start s acc v rest H. cbn [parse_pairs] in H.
    repeat case_match; simplify_eq;
      repeat match goal with
             | E : scan_once n _ = inl _ |- _ => apply IHs in E
             end;
      try (apply IHp in H); lengths.
  - intros s acc v rest H. cbn [parse_items] in H.
    repeat case_match; simplify_eq;
      repeat match goal with
             | E : scan_once n _ = inl _ |- _ => apply IHs in E
             end;
      try (apply IHi in H); lengths.
Qed.

Lemma scan_once_consumes (fuel : nat) (s : text) (v : value) (rest : text) :
  scan_once fuel s = inl (v, rest) -> (length rest < length s)%nat.
Proof. apply scan_consumes. Qed.

(** Beyond twice the length of the text, more fuel changes nothing. *)
Lemma scan_fuel (n : nat) :
  (forall m s,
      (2 * length s < n)%nat -> (n <= m)%nat ->
      scan_once m s = scan_once n s) /\
  (forall m start s acc,
      (2 * length s + 1 < n)%nat -> (n <= m)%nat ->
      parse_pairs m start s acc = parse_pairs n start s acc) /\
  (forall m s acc,
      (2 * length s + 1 < n)%nat -> (n <= m)%nat ->
      parse_items m s acc = parse_items n s acc).
Proof.
  induction n as [|n (IHs & IHp & IHi)]; [repeat split; intros; lia|].
  repeat split.
  - intros [|m] s Hn Hm; [lia|]. cbn [scan_once].
    destruct s as [|c r]; [reflexivity|]. cbn [length] in Hn.
    repeat case_match; try reflexivity.
    + apply IHp; lengths.
    + apply IHi; lengths.
  - intros [|m] start s acc Hn Hm; [lia|]. cbn [parse_pairs].
    destruct (scanstring start s []) as [[key s1]|e] eqn:E1; [|reflexivity].
    destruct (skip_ws s1) as [|c s2] eqn:E2; [reflexivity|].
    destruct (c =? 58)%N; [|reflexivity].
    rewrite (IHs m (skip_ws s2)) by lengths.
    destruct (scan_once n (skip_ws s2)) as [[v s3]|e] eqn:E3; [|reflexivity].
    apply scan_once_consumes in E3.
    repeat case_match; try reflexivity.
    apply IHp; lengths.
  - intros [|m] s acc Hn Hm; [lia|]. cbn [parse_items].
    rewrite (IHs m s) by lia.
    destruct (scan_once n s) as [[v s1]|e] eqn:E1; [|reflexivity].
    apply scan_once_consumes in E1.
    repeat case_match; try reflexivity.
    apply IHi; lengths.
Qed.

(** The decoder's result does not depend on the fuel it is given. *)
Lemma scan_once_fuel (m : nat) (s : text) :
  (2 * length s < m)%nat ->
  scan_once m s = scan_once (2 * length s + 1) s.
Proof.
  intros H. apply (proj1 (scan_fuel (2 * length s + 1))); lia.
Qed.

(** In particular the fuel [json_loads] gives is enough. *)
Lemma json_loads_fuel (m : nat) (s : text) :
  (2 * length s < m)%nat ->
  scan_once m (skip_ws s) = scan_once (2 * length s + 1) (skip_ws s).
Proof.
  intros H. pose proof (skip_ws_length s).
  rewrite (scan_once_fuel m), (scan_once_fuel (2 * length s + 1)) by lia.
  reflexivity.
Qed.

Lemma json_loads_error (s : text) (e : Exception) :
  json_loads s = inr e -> is_JSONDecodeError e = true.
Proof.
  unfold json_loads. intros H.
  repeat case_match; simplify_eq; reflexivity.
Qed.

Lemma parse_pairs_dict (fuel : nat) (start s : text) (acc : list (text * value))
    (v : value) (rest : text) :
  parse_pairs fuel start s acc = inl (v, rest) -> exists d, v = VDict d.
Proof.
  revert start s acc. induction fuel as [|n IH]; intros start s acc H.
  - discriminate.
  - cbn [parse_pairs] in H.
    repeat case_match; simplify_eq; eauto.
Qed.

Lemma scan_once_object (fuel : nat) (r : text) (v : value) (rest : text) :
  scan_once fuel (LBRACE :: r) = inl (v, rest) -> exists d, v = VDict d.
Proof.
  destruct fuel as [|n]; [discriminate|].
  cbn [scan_once]. change (LBRACE =? 34)%N with false.
  change (LBRACE =? 123)%N with true. cbv iota.
  intros H. repeat case_match; simplify_eq; eauto using parse_pairs_dict.
Qed.

(** A text that begins with ['{'] decodes to an object or not at all. *)
Lemma json_loads_object (r : text) (v : value) :
  json_loads (LBRACE :: r) = inl v -> exists d, v = VDict d.
Proof.
  unfold json_loads.
  change (startswith (LBRACE :: r) [65279%N]) with false. cbv iota.
  change (skip_ws (LBRACE :: r)) with (LBRACE :: r).
  intros H. repeat case_match; simplify_eq.
  eauto using scan_once_object.
Qed.

End JsonFacts.

(** ** Parsing the reply *)

Module Parser.

Import App Scenario Effects StrFacts Candidate.
Local Open Scope py_scope.

Lemma split_go_length (sep s : text) (skip : nat) (cur : text) :
  (1 <= length (split_go sep s skip cur))%nat.
Proof.
  revert skip cur. induction s as [|c r IH]; intros skip cur; simpl; [lia|].
  destruct skip as [|k]; [|apply IH].
  destruct (startswith (c :: r) sep); [simpl; lia|apply IH].
Qed.

Lemma split_go_found (sep s : text) (i : Z) (cur : text) :
  sep <> [] -> find_from sep s i <> -1 ->
  (2 <= length (split_go sep s 0 cur))%nat.
Proof.
  intros Hsep. revert i cur. induction s as [|c r IH]; intros i cur Hfind.
  - exfalso. apply Hfind. destruct sep; [contradiction|reflexivity].
  - simpl. unfold find_from in Hfind; fold find_from in Hfind.
    destruct (startswith (c :: r) sep).
    + pose proof (split_go_length sep r (length sep - 1) []). simpl. lia.
    + apply (IH (i + 1)). exact Hfind.
Qed.

Lemma split_after (s sep : text) :
  sep <> [] -> contains sep s = true -> exists after, index (split s sep) 1 = inl after.
Proof.
  intros Hsep Hc. unfold contains, find in Hc.
  apply negb_true_iff, Z.eqb_neq in Hc.
  pose proof (split_go_found sep s 0 [] Hsep Hc) as Hlen.
  unfold index, split.
  destruct (split_go sep s 0 []) as [|a [|b l]]; simpl in Hlen; try lia.
  exists b. reflexivity.
Qed.

Lemma split_before (s sep : text) :
  exists before, index (split s sep) 0 = inl before.
Proof.
  pose proof (split_go_length sep s 0 []) as Hlen.
  unfold index, split.
  destruct (split_go sep s 0 []) as [|a l]; simpl in Hlen; [lia|].
  exists a. reflexivity.
Qed.

(** The fence extraction never raises [IndexError]. *)
Lemma fenced_content_total (raw : text) :
  exists cleaned, fenced_content raw = inl cleaned.
Proof.
  unfold fenced_content.
  destruct (contains fence_json raw) eqn:Hj.
  - destruct (split_after raw fence_json) as [after ->]; [discriminate|exact Hj|].
    apply split_before.
  - destruct (contains fence raw) eqn:Hf; [|eauto].
    destruct (split_after raw fence) as [after ->]; [discriminate|exact Hf|].
    apply split_before.
Qed.

Lemma shown_twice (a b : st_call) (w : World) :
  shown b (shown a w) = said_more [a; b] w.
Proof. unfold shown, said_more. simpl. rewrite <- app_assoc. reflexivity. Qed.

Lemma said_nothing (w : World) : said_more [] w = w.
Proof. destruct w. unfold said_more. simpl. rewrite app_nil_r. reflexivity. Qed.

Section Decoder.

Variable json_loads : text -> value + Exception.

(** One run of [parse_gemini_response], by what the decoder says of the
    candidate. *)
Lemma parse_run (raw : text) (w : World) :
  parse_gemini_response json_loads raw w =
  match json_loads (json_candidate (working_text raw)) with
  | inl v => (inl v, w)
  | inr e =>
      if is_JSONDecodeError e
      then (inl VNone,
            said_more (parse_failure_messages e (slice_to (working_text raw) 500)) w)
      else (inr e, w)
  end.
Proof.
  unfold parse_gemini_response, parse_try, working_text.
  destruct (fenced_content_total raw) as [cleaned ->].
  destruct (json_loads _) as [v|e]; [reflexivity|].
  destruct (is_JSONDecodeError e); [|reflexivity].
  unfold bind, st, ret. rewrite shown_twice. reflexivity.
Qed.


End Decoder.

Lemma first_occurrence (c : char) (t : text) :
  c ∈ t -> exists i, first_at c t i.
Proof.
  induction t as [|b r IH]; intros H.
  - apply list_elem_of_In in H. destruct H.
  - destruct (N.eq_dec b c) as [->|Hne].
    + exists 0%nat. split; [reflexivity|]. intros k Hk. lia.
    + apply list_elem_of_In in H. destruct H as [H|H]; [contradiction|].
      apply list_elem_of_In, IH in H. destruct H as [i [Hi Hlt]].
      exists (S i). split; [exact Hi|].
      intros [|k] Hk; simpl; [congruence|apply Hlt; lia].
Qed.

(** With a ['{'] in the working text, the candidate is empty or begins
    with the first ['{']. *)
Lemma json_candidate_with_lbrace (t : text) :
  LBRACE ∈ t -> json_candidate t = [] \/ exists r, json_candidate t = LBRACE :: r.
Proof.
  intros H. destruct (first_occurrence _ _ H) as [i [Hi Hlt]].
  unfold json_candidate, find, rfind.
  change lbrace with [LBRACE]. change rbrace with [RBRACE].
  rewrite (find_from_first _ _ _ i) by assumption.
  destruct (0 + Z.of_nat i =? -1) eqn:E1; [apply Z.eqb_eq in E1; lia|].
  destruct (rfind_from_range RBRACE t 0) as [Hr|Hr].
  - rewrite Hr. left. simpl. apply lookup_lt_Some in Hi.
    replace (0 + Z.of_nat i) with (Z.of_nat i) by lia.
    apply (slice_reversed t i 0); lia.
  - destruct (rfind_from [RBRACE] t 0 + 1 =? -1) eqn:E2;
      [apply Z.eqb_eq in E2; lia|].
    simpl. unfold slice.
    pose proof (lookup_lt_Some _ _ _ Hi) as Hlen.
    replace (Z.to_nat (slice_bound (Z.of_nat (length t)) (0 + Z.of_nat i))) with i
      by (unfold slice_bound;
          destruct (0 + Z.of_nat i <? 0) eqn:E; [apply Z.ltb_lt in E|]; lia).
    rewrite (drop_S _ _ _ Hi).
    destruct (Z.to_nat _) as [|n]; [left|right; eexists]; reflexivity.
Qed.

(** What [parse_gemini_response] reports on a failure is the working text,
    not the raw reply. *)
Lemma parse_failure_excerpt (json_loads : text -> value + Exception)
    (raw : text) (e : Exception) (w : World) :
  json_loads (json_candidate (working_text raw)) = inr e ->
  is_JSONDecodeError e = true ->
  parse_gemini_response json_loads raw w
  = (inl VNone,
     said_more (parse_failure_messages e (slice_to (working_text raw) 500)) w).
Proof. intros Hdec He. rewrite parse_run, Hdec, He. reflexivity. Qed.

(** C3 (fails in the code): the reply ["  no json here"] has no brace and
    does not decode; the excerpt reported is the first 500 characters of the
    stripped working text, ["no json here"], not those of the raw reply. *)
Theorem parse_excerpt_is_working_text :
  fst (parse (str "  no json here") empty_world) = inl VNone
  /\ ui (snd (parse (str "  no json here") empty_world))
     = parse_failure_messages (JSONDecodeError "Expecting value" 0)
         (str "no json here")
  /\ slice_to (str "  no json here") 500 = str "  no json here"
  /\ str "no json here" <> slice_to (str "  no json here") 500.
Proof.
  split; [vm_compute; reflexivity|].
  split; [vm_compute; reflexivity|].
  split; [vm_compute; reflexivity|].
  vm_compute. discriminate.
Qed.

(** The object inside a fenced reply is found whatever surrounds it. *)
Example parse_fenced_reply :
  fst (parse fenced_reply empty_world)
  = inl (VDict [(str "relevance_score", VInt 85);
                (str "risk_assessment", VStr (str "medium"))])
  /\ ui (snd (parse fenced_reply empty_world)) = [].
Proof. split; vm_compute; reflexivity. Qed.



End Parser.

(** ** Reading the result *)

Module Validate.

Import App Scenario Effects.
Local Open Scope py_scope.

Lemma returns_bind_ret {A B} (R : World -> World -> Prop) (x : A) (k : A -> M B) :
  returns R (k x) -> returns R (bind (ret x) k).
Proof. intros H w r w' E. exact (H w r w' E). Qed.

Lemma total_st (c : st_call) : returns any_change (st c).
Proof. apply returns_st, any_change_post. Qed.

Lemma total_for_each {A} (l : list A) (body : A -> M unit) :
  (forall x, returns any_change (body x)) -> returns any_change (for_each l body).
Proof.
  intros H. induction l as [|x l IH]; simpl.
  - apply returns_ret. typeclasses eauto.
  - apply returns_bind; [typeclasses eauto|apply H|intros _; exact IH].
Qed.

Ltac total_step :=
  lazymatch goal with
  | |- PreOrder _ => typeclasses eauto
  | |- returns _ (ret _) => apply returns_ret
  | |- returns _ (st _) => apply total_st
  | |- returns _ (for_each _ _) => apply total_for_each; intros ?
  | |- returns _ (if true then _ else _) => cbv iota
  | |- returns _ (if false then _ else _) => cbv iota
  | |- returns _ (if ?b then _ else _) => destruct b
  | |- returns _ (bind (st _) _) => apply returns_bind; [..|intros ?]
  end.

Section Collaborators.

Variable unicode_lower unicode_upper : text -> text.

Lemma total_display_score (d : dict) :
  field_is is_number d (str "relevance_score") = true ->
  returns any_change (display_score (VDict d)).
Proof.
  unfold field_is, display_score. intros Hnum.
  apply returns_bind_ret. unfold dict_get.
  destruct (dict_lookup d (str "relevance_score")) as [[]|];
    try discriminate;
    (apply returns_bind_ret;
     lazymatch goal with
     | |- returns _ (if ?c then _ else _) =>
         destruct c; [apply total_st|apply returns_bind_ret; repeat total_step]
     end).
Qed.

Lemma total_display_list (d : dict) (key : text) (heading : string) :
  field_is list_like d key = true ->
  returns any_change (display_list (VDict d) key heading).
Proof.
  unfold field_is, list_like, display_list. intros Hok.
  apply returns_bind_ret. unfold dict_get, py_getitem.
  destruct (dict_lookup d key) as [v|];
    [|change (truthy VNone) with false; repeat total_step].
  destruct (truthy v) eqn:Ht; [|repeat total_step].
  apply returns_bind; [typeclasses eauto|apply total_st|intros _].
  apply returns_bind_ret.
  destruct v; try discriminate; apply returns_bind_ret; repeat total_step.
Qed.

Lemma total_content_summary (d : dict) (k : unit -> M unit) :
  (forall u, returns any_change (k u)) ->
  returns any_change
    (bind (bind (py_get (VDict d) (str "content_summary") VNone)
             (fun content =>
                if truthy content
                then bind (py_getitem (VDict d) (str "content_summary"))
                       (fun c => st (st_write [Lit "Content: "; Val c]))
                else ret tt)) k).
Proof.
  intros Hk. apply returns_bind; [typeclasses eauto| |exact Hk].
  apply returns_bind_ret. unfold dict_get, py_getitem.
  destruct (dict_lookup d (str "content_summary")) as [v|];
    [|change (truthy VNone) with false; repeat total_step].
  destruct (truthy v); [|repeat total_step].
  apply returns_bind_ret. apply total_st.
Qed.

Lemma total_risk_level (d : dict) :
  field_is is_str d (str "risk_assessment") = true ->
  returns any_change (risk_level unicode_lower (VDict d)).
Proof.
  unfold field_is, risk_level. intros Hstr.
  apply returns_bind_ret. unfold dict_get.
  destruct (dict_lookup d (str "risk_assessment")) as [[]|];
    try discriminate; apply returns_ret; typeclasses eauto.
Qed.

Lemma total_display_analysis_results (d : dict) :
  expected_types d = true ->
  returns any_change
    (display_analysis_results unicode_lower unicode_upper (VDict d)).
Proof.
  unfold expected_types. intros H.
  repeat (apply andb_prop in H; destruct H as [H ?]).
  unfold display_analysis_results.
  destruct (negb (truthy (VDict d))); [apply total_st|].
  apply returns_bind;
    [typeclasses eauto|apply total_display_score; assumption|intros _].
  apply total_content_summary. intros _.
  apply returns_bind_ret.
  apply returns_bind; [typeclasses eauto|apply total_st|intros _].
  apply returns_bind; [typeclasses eauto|apply total_st|intros _].
  repeat (apply returns_bind;
          [typeclasses eauto|apply total_display_list; assumption|intros _]).
  apply returns_bind;
    [typeclasses eauto|apply total_risk_level; assumption|intros risk].
  apply returns_bind; [typeclasses eauto| |intros _].
  - repeat total_step.
  - apply total_display_list. assumption.
Qed.

(** C4 (as amended): [display_analysis_results] reads every field of a
    decoded object with a default when it is absent: a missing
    [relevance_score] reads as 0, a missing list field displays nothing, a
    missing [risk_assessment] reads as "unknown"; a risk string that is
    present is passed through in lower case, recognised or not; and the
    function returns normally on every object whose fields have the expected
    types. *)
Theorem display_reads_defaults (d : dict) (w : World) :
  (dict_lookup d (str "relevance_score") = None ->
   display_score (VDict d) w
   = (inl tt,
      shown (st_info [Lit " Low Relevance - Score: "; Val (VInt 0); Lit "/100"]) w))
  /\ (forall key heading,
        dict_lookup d key = None ->
        display_list (VDict d) key heading w = (inl tt, w))
  /\ (dict_lookup d (str "risk_assessment") = None ->
      risk_level unicode_lower (VDict d) w = (inl (str "unknown"), w))
  /\ (forall s,
        dict_lookup d (str "risk_assessment") = Some (VStr s) ->
        risk_level unicode_lower (VDict d) w = (inl (lower unicode_lower s), w))
  /\ (expected_types d = true ->
      exists w',
        display_analysis_results unicode_lower unicode_upper (VDict d) w
        = (inl tt, w')).
Proof.
  split; [|split; [|split; [|split]]].
  - intros H. unfold display_score, py_get, dict_get, bind, ret. rewrite H.
    reflexivity.
  - intros key heading H.
    unfold display_list, py_get, dict_get, bind, ret. rewrite H. reflexivity.
  - intros H. unfold risk_level, py_get, dict_get, bind, ret. rewrite H.
    reflexivity.
  - intros s H. unfold risk_level, py_get, dict_get, bind, ret. rewrite H.
    reflexivity.
  - intros H.
    destruct (display_analysis_results unicode_lower unicode_upper (VDict d) w)
      as [r w'] eqn:Hrun.
    destruct (total_display_analysis_results d H w r w' Hrun) as [_ [[] ->]].
    exists w'. reflexivity.
Qed.

End Collaborators.

Lemma display_reads_defaults_witness :
  display_score (VDict [(str "summary", VStr (str "ok"))]) empty_world
  = (inl tt,
     shown (st_info [Lit " Low Relevance - Score: "; Val (VInt 0); Lit "/100"])
       empty_world)
  /\ risk_level no_case_mapping (VDict [(str "summary", VStr (str "ok"))]) empty_world
     = (inl (str "unknown"), empty_world)
  /\ risk_level no_case_mapping
       (VDict [(str "risk_assessment", VStr (str "Medium"))]) empty_world
     = (inl (str "medium"), empty_world)
  /\ exists w',
       display_analysis_results no_case_mapping no_case_mapping
         (VDict [(str "summary", VStr (str "ok"))]) empty_world
       = (inl tt, w').
Proof.
  pose proof (display_reads_defaults no_case_mapping no_case_mapping
                [(str "summary", VStr (str "ok"))] empty_world)
    as [Hscore [_ [Hrisk [_ Htotal]]]].
  pose proof (display_reads_defaults no_case_mapping no_case_mapping
                [(str "risk_assessment", VStr (str "Medium"))] empty_world)
    as [_ [_ [_ [Hpass _]]]].
  split; [exact (Hscore eq_refl)|].
  split; [exact (Hrisk eq_refl)|].
  split; [exact (Hpass (str "Medium") eq_refl)|].
  exact (Htotal eq_refl).
Defined.

(** C4 as stated fails: an unrecognised risk string is passed through, not
    replaced by "unknown", and an object whose score is a string makes the
    function raise. *)
Lemma display_passes_risk_through :
  fst (risk_level no_case_mapping
         (VDict [(str "risk_assessment", VStr (str "Extreme"))]) empty_world)
  = inl (str "extreme")
  /\ ui (snd (display_analysis_results no_case_mapping no_case_mapping
                (VDict [(str "risk_assessment", VStr (str "Extreme"))])
                empty_world))
     = [st_info [Lit " Low Relevance - Score: "; Val (VInt 0); Lit "/100"];
        st_write [Lit "Relevance: "; Val (VStr (str "No summary available"))];
        st_columns 2;
        st_success [Lit " Risk Level: "; Txt (str "EXTREME")]]
  /\ fst (display_analysis_results no_case_mapping no_case_mapping
            (VDict [(str "relevance_score", VStr (str "85"))]) empty_world)
     = inr TypeError.
Proof. split; [|split]; vm_compute; reflexivity. Qed.

End Validate.

(** ** The staging of an upload *)

Module Upload.

Import App Scenario Effects.
Local Open Scope py_scope.

Global Instance same_fs_preorder : PreOrder same_fs.
Proof.
  split.
  - intros w. split; reflexivity.
  - intros a b c [F1 T1] [F2 T2]. split; congruence.
Qed.

Lemma same_fs_st (c : st_call) : post same_fs (st c).
Proof. intros w r w' [= _ <-]. split; reflexivity. Qed.

Lemma same_fs_client (generate_content : Request -> option text + Exception)
    (r : Request) :
  inline_mp4 r -> post same_fs (client_generate generate_content r).
Proof. intros _ w x w' [= _ <-]. split; reflexivity. Qed.

Lemma startswith_length (s p : text) :
  startswith s p = true -> (length p <= length s)%nat.
Proof.
  revert s. induction p as [|a p IH]; intros s H; simpl; [lia|].
  destruct s as [|b s]; [discriminate|]. simpl in H.
  apply andb_prop in H. destruct H as [_ H]. apply IH in H. simpl. lia.
Qed.

Lemma not_own_child (d : text) (n : node) :
  ~ (startswith (fst (d, n)) (d ++ str "/") = true /\ fst (d, n) <> d ++ str "/").
Proof.
  intros [H _]. apply startswith_length in H.
  rewrite length_app in H. simpl in H. lia.
Qed.

(** Once the staging file is gone, the directory [mkdtemp] made in a place
    with nothing below it is empty. *)
Lemma children_after_staging (d tp : text) (b : bytes) (m : gmap text node) :
  children d m = ∅ ->
  children d (delete tp (<[tp := File b]> (<[d := Dir]> m))) = ∅.
Proof.
  intros H. unfold children in *.
  rewrite delete_insert_eq, map_filter_delete.
  rewrite map_filter_insert_not by (intros y; apply not_own_child).
  rewrite H. apply delete_empty.
Qed.

Section Staged.

Variables (tp d : text) (w0 : World).
Hypothesis staged : exists b, fs w0 !! tp = Some (File b).
Hypothesis made : fs w0 !! d = Some Dir.
Hypothesis distinct : tp <> d.
Hypothesis empty_after : children d (delete tp (fs w0)) = ∅.

Lemma cleans_up_bind {A B} (m : M A) (k : A -> M B) :
  post same_fs m -> (forall a, cleans_up tp d w0 (k a)) ->
  cleans_up tp d w0 (bind m k).
Proof.
  intros Hm Hk w r w' Hw. unfold bind.
  destruct (m w) as [[a|e] w1] eqn:E; intros H.
  - apply (Hk a w1 r w'); [|exact H].
    transitivity w; [exact Hw|exact (Hm _ _ _ E)].
  - injection H as <- <-. left. exists e. split; [reflexivity|].
    transitivity w; [exact Hw|exact (Hm _ _ _ E)].
Qed.

Lemma remove_then_rmdir (w : World) :
  same_fs w0 w ->
  (os_remove tp ;; os_rmdir d) w
  = (inl tt, set_fs (delete d) (set_fs (delete tp) w)).
Proof.
  intros [Hf Ht]. destruct staged as [b Hb].
  unfold bind, os_remove. rewrite Hf, Hb.
  unfold os_rmdir. simpl. rewrite Hf.
  rewrite lookup_delete_ne by exact distinct. rewrite made.
  rewrite bool_decide_eq_true_2 by exact empty_after. reflexivity.
Qed.

Lemma cleans_up_tail : cleans_up tp d w0 (os_remove tp ;; os_rmdir d).
Proof.
  intros w r w' Hw H. rewrite (remove_then_rmdir w Hw) in H.
  injection H as <- <-. right. exists tt. destruct Hw as [Hf Ht].
  split; [reflexivity|]. simpl. rewrite Hf, Ht. split; reflexivity.
Qed.

Lemma cleanup_handler (w : World) (c : st_call) :
  same_fs w0 w ->
  (st c ;;
   (let* file_present := path_exists tp in
    if file_present then os_remove tp else ret tt) ;;
   let* dir_present := path_exists d in
   if dir_present then os_rmdir d else ret tt) w
  = (inl tt, set_fs (delete d) (set_fs (delete tp) (shown c w))).
Proof.
  intros [Hf Ht]. destruct staged as [b Hb].
  unfold bind, st, path_exists, os_remove, os_rmdir, ret. simpl.
  rewrite Hf, Hb. simpl. rewrite Hf, Hb. simpl.
  rewrite Hf, lookup_delete_ne by exact distinct. rewrite made. simpl.
  rewrite Hf, lookup_delete_ne by exact distinct. rewrite made.
  rewrite bool_decide_eq_true_2 by exact empty_after. reflexivity.
Qed.

Lemma try_cleanup (body : M unit) (said : Exception -> st_call)
    (r : unit + Exception) (w' : World) :
  cleans_up tp d w0 body ->
  try_except body any_Exception
    (fun e =>
       st (said e) ;;
       (let* file_present := path_exists tp in
        if file_present then os_remove tp else ret tt) ;;
       let* dir_present := path_exists d in
       if dir_present then os_rmdir d else ret tt) w0
  = (r, w') ->
  r = inl tt
  /\ fs w' = delete d (delete tp (fs w0)) /\ tempdirs w' = tempdirs w0.
Proof.
  intros Hbody. unfold try_except.
  destruct (body w0) as [[[]|e] w1] eqn:Hb.
  - intros [= <- <-].
    destruct (Hbody _ _ _ (reflexivity _) Hb) as [[e [He _]]|[a [_ [Hf Ht]]]];
      [discriminate|].
    split; [reflexivity|split; assumption].
  - destruct (Hbody _ _ _ (reflexivity _) Hb) as [[e' [_ Hsame]]|[a [Ha _]]];
      [|discriminate].
    unfold any_Exception. rewrite (cleanup_handler w1 _ Hsame).
    intros [= <- <-]. destruct Hsame as [Hf Ht].
    split; [reflexivity|]. simpl. rewrite Hf, Ht. split; reflexivity.
Qed.

End Staged.

Lemma bind_st_inv {B : Type} (w0 : World) (c : st_call) (k : unit -> M B)
    (w w' : World) (r : B + Exception) :
  same_fs w0 w -> bind (st c) k w = (r, w') ->
  exists w1, same_fs w0 w1 /\ k tt w1 = (r, w').
Proof.
  intros [Hf Ht] H. exists (shown c w). split; [split; assumption|exact H].
Qed.

Lemma bind_mkdtemp_inv {B : Type} (pick : gmap text node -> text)
    (k : text -> M B) (w w' : World) (r : B + Exception) :
  bind (mkdtemp pick) k w = (r, w') ->
  exists w1,
    fs w1 = <[pick (fs w) := Dir]> (fs w)
    /\ tempdirs w1 = tempdirs w ++ [pick (fs w)]
    /\ k (pick (fs w)) w1 = (r, w').
Proof.
  intros H. exists (snd (mkdtemp pick w)).
  split; [reflexivity|split; [reflexivity|exact H]].
Qed.

Lemma bind_write_file_inv {B : Type} (p : text) (b : bytes) (k : unit -> M B)
    (w w' : World) (r : B + Exception) :
  fs w !! p = None -> bind (write_file p b) k w = (r, w') ->
  exists w1,
    fs w1 = <[p := File b]> (fs w) /\ tempdirs w1 = tempdirs w
    /\ k tt w1 = (r, w').
Proof.
  intros Hp H. unfold bind, write_file in H. rewrite Hp in H.
  exists (set_fs (insert p (File b)) w).
  split; [reflexivity|split; [reflexivity|exact H]].
Qed.

(** One [st] call off the front of a run, keeping [same_fs] up to date. *)
Ltac peel_st H :=
  lazymatch goal with
  | Hs : same_fs ?w0 ?w |- _ =>
      lazymatch type of H with
      | bind (st _) _ w = _ =>
          apply (bind_st_inv w0 _ _ _ _ _ Hs) in H; clear Hs;
          destruct H as [? [Hs H]]
      end
  end.

Section Collaborators.

Variable json_loads : text -> value + Exception.
Variable json_dumps : value -> text.
Variable unicode_lower unicode_upper : text -> text.
Variable generate_content : Request -> option text + Exception.
Variable fresh_dir : gmap text node -> text.

Lemma analyze_staged_cleans_up (temp_path temp_dir : text) (investments : value)
    (w w' : World) (r : unit + Exception) :
  (exists b, fs w !! temp_path = Some (File b)) ->
  fs w !! temp_dir = Some Dir ->
  temp_path <> temp_dir ->
  children temp_dir (delete temp_path (fs w)) = ∅ ->
  analyze_staged json_loads json_dumps unicode_lower unicode_upper generate_content
    temp_path temp_dir investments w = (r, w') ->
  r = inl tt
  /\ fs w' = delete temp_dir (delete temp_path (fs w))
  /\ tempdirs w' = tempdirs w.
Proof.
  intros Hstaged Hmade Hne Hafter Hrun. unfold analyze_staged in Hrun.
  apply (try_cleanup temp_path temp_dir w Hstaged Hmade Hne Hafter) in Hrun;
    [exact Hrun|].
  apply cleans_up_bind; [apply same_fs_st|intros _].
  apply cleans_up_bind.
  - apply post_analyze_video_with_gemini;
      [exact json_loads|exact unicode_lower|exact unicode_upper
      |typeclasses eauto|apply same_fs_st|apply same_fs_client].
  - intros response_text. apply cleans_up_bind.
    + apply post_show_response; [typeclasses eauto|apply same_fs_st].
    + intros _. apply cleans_up_tail; assumption.
Qed.

(** The "Upload Video File" analysis removes its staging file and its
    directory on every exit path: when the analysis is started on a file
    within the limit, with nothing below the directory [mkdtemp] makes and
    the staging path free, both are gone at the end, whatever the service
    replied and whether or not displaying the result raised. *)
Lemma main_upload_cleans_up (uploaded : uploaded_file) (investments : value)
    (w w' : World) (r : unit + Exception) :
  let temp_dir := fresh_dir (fs w) in
  let temp_path := path_join temp_dir (name uploaded) in
  Qgtb (Qmake (Z.of_nat (length (getvalue uploaded))) (1024 * 1024)) (inject_Z 20)
  = false ->
  children temp_dir (fs w) = ∅ ->
  fs w !! temp_path = None ->
  temp_path <> temp_dir ->
  main_upload json_loads json_dumps unicode_lower unicode_upper generate_content
    fresh_dir uploaded investments true w = (r, w') ->
  r = inl tt
  /\ fs w' !! temp_path = None /\ fs w' !! temp_dir = None
  /\ tempdirs w' = tempdirs w ++ [temp_dir].
Proof.
  intros temp_dir temp_path Hsize Hempty Hfree Hne Hrun.
  unfold main_upload in Hrun.
  assert (Hsame : same_fs w w) by reflexivity.
  repeat peel_st Hrun. rewrite Hsize in Hrun. peel_st Hrun.
  destruct Hsame as [Hf Ht0].
  apply bind_mkdtemp_inv in Hrun as [w2 [Hf2 [Ht2 Hrun]]].
  rewrite Hf in Hf2, Ht2, Hrun. rewrite Ht0 in Ht2.
  fold temp_dir in Hf2, Ht2, Hrun. cbv zeta in Hrun. fold temp_path in Hrun.
  apply bind_write_file_inv in Hrun as [staged_world [Hfs [Ht3 Hrun]]];
    [|rewrite Hf2, lookup_insert_ne by (intros E; apply Hne; symmetry; exact E);
      exact Hfree].
  rewrite Hf2 in Hfs. rewrite Ht2 in Ht3. rename Ht3 into Htd.
  apply analyze_staged_cleans_up in Hrun as [-> [Hend Ht]].
  - split; [reflexivity|].
    rewrite Hend, Ht, Htd, Hfs, delete_insert_eq. split; [|split].
    + rewrite lookup_delete_ne by (intros E; apply Hne; symmetry; exact E).
      rewrite lookup_delete_eq. reflexivity.
    + apply lookup_delete_eq.
    + reflexivity.
  - eexists. rewrite Hfs. apply lookup_insert_eq.
  - rewrite Hfs, lookup_insert_ne by exact Hne. apply lookup_insert_eq.
  - exact Hne.
  - rewrite Hfs. apply children_after_staging. exact Hempty.
Qed.

End Collaborators.

End Upload.

(** ** Code fences in the reply *)

Module Fences.

Import Vocabulary StrFacts Candidate Effects Parser.

Import App.

Lemma startswith_other (c b : char) (s p : text) :
  c <> b -> startswith (c :: s) (b :: p) = false.
Proof.
  intros H. simpl. unfold char_eqb.
  destruct (N.eqb_spec b c) as [->|_]; [contradiction|reflexivity].
Qed.

Lemma startswith_app (p s : text) : startswith (p ++ s) p = true.
Proof.
  induction p as [|a p IH]; [reflexivity|].
  simpl. unfold char_eqb. rewrite N.eqb_refl. exact IH.
Qed.

Lemma startswith_prefix (s p : text) :
  startswith s p = true -> exists rest, s = p ++ rest.
Proof.
  revert s. induction p as [|a p IH]; intros s H; [exists s; reflexivity|].
  destruct s as [|b s]; [discriminate|]. cbn [startswith] in H.
  apply andb_prop in H as [Hab H]. apply N.eqb_eq in Hab. subst b.
  destruct (IH s H) as [rest ->]. exists rest. reflexivity.
Qed.

Lemma not_elem_cons (c b : char) (s : text) : c ∉ b :: s -> b <> c /\ c ∉ s.
Proof.
  intros H. split.
  - intros ->. apply H. left.
  - intros Hs. apply H. right. exact Hs.
Qed.

(** Past a separator that was matched, the scan goes on behind it. *)
Lemma split_go_skip (sep a rest cur : text) :
  split_go sep (a ++ rest) (length a) cur = split_go sep rest 0 cur.
Proof.
  induction a as [|c a IH]; [destruct rest; reflexivity|exact IH].
Qed.

(** Text without the separator's first character goes to the current piece. *)
Lemma split_go_plain (b : char) (sep pre s cur : text) :
  b ∉ pre ->
  split_go (b :: sep) (pre ++ s) 0 cur = split_go (b :: sep) s 0 (rev pre ++ cur).
Proof.
  revert cur. induction pre as [|c pre IH]; intros cur H; [reflexivity|].
  apply not_elem_cons in H as [Hc H].
  cbn [app split_go]. rewrite startswith_other by exact Hc.
  rewrite (IH _ H). cbn [rev]. rewrite <- app_assoc. reflexivity.
Qed.

Lemma split_go_match (b : char) (sep rest cur : text) :
  split_go (b :: sep) ((b :: sep) ++ rest) 0 cur
  = rev cur :: split_go (b :: sep) rest 0 [].
Proof.
  change ((b :: sep) ++ rest) with (b :: (sep ++ rest)).
  cbn [split_go].
  change (b :: sep ++ rest) with ((b :: sep) ++ rest).
  rewrite startswith_app. cbn [length].
  replace (S (length sep) - 1)%nat with (length sep) by lia.
  rewrite split_go_skip. reflexivity.
Qed.

(** The piece before the first separator, when nothing before it has the
    separator's first character. *)
Lemma split_at_first (b : char) (sep pre rest : text) :
  b ∉ pre ->
  split (pre ++ (b :: sep) ++ rest) (b :: sep) = pre :: split rest (b :: sep).
Proof.
  intros H. unfold split. rewrite split_go_plain by exact H.
  rewrite split_go_match, app_nil_r, rev_involutive. reflexivity.
Qed.

Lemma split_without (b : char) (sep s : text) :
  b ∉ s -> split s (b :: sep) = [s].
Proof.
  intros H. unfold split.
  rewrite <- (app_nil_r s) at 1. rewrite split_go_plain by exact H.
  cbn [split_go]. rewrite app_nil_r, rev_involutive. reflexivity.
Qed.

Lemma find_from_plain (b : char) (sep pre s : text) (i : Z) :
  b ∉ pre ->
  find_from (b :: sep) (pre ++ s) i = find_from (b :: sep) s (i + Z.of_nat (length pre)).
Proof.
  revert i. induction pre as [|c pre IH]; intros i H.
  - cbn [app length]. f_equal. lia.
  - apply not_elem_cons in H as [Hc H].
    cbn [app]. unfold find_from at 1; fold find_from.
    rewrite startswith_other by exact Hc.
    rewrite (IH _ H). f_equal. cbn [length]. lia.
Qed.

Lemma contains_without (b : char) (sep s : text) :
  b ∉ s -> contains (b :: sep) s = false.
Proof.
  intros H. unfold contains, find.
  rewrite <- (app_nil_r s), find_from_plain by exact H.
  reflexivity.
Qed.

Lemma find_from_here (sub s : text) (i : Z) :
  startswith s sub = true -> find_from sub s i = i.
Proof. intros H. destruct s; cbn [find_from]; rewrite H; reflexivity. Qed.

Lemma contains_at_first (b : char) (sep pre rest : text) :
  b ∉ pre -> contains (b :: sep) (pre ++ (b :: sep) ++ rest) = true.
Proof.
  intros H. unfold contains, find. rewrite find_from_plain by exact H.
  rewrite find_from_here by apply startswith_app.
  apply negb_true_iff, Z.eqb_neq. lia.
Qed.

Lemma fence_unfold : fence = BACKTICK :: [BACKTICK; BACKTICK].
Proof. reflexivity. Qed.

Lemma fence_json_unfold : fence_json = fence ++ str "json".
Proof. reflexivity. Qed.

Lemma index_second {A} (a : A) (l : list A) : index (a :: l) 1 = index l 0.
Proof. reflexivity. Qed.

Lemma startswith_same (a : char) (s p : text) :
  startswith (a :: s) (a :: p) = startswith s p.
Proof. cbn [startswith]. unfold char_eqb. rewrite N.eqb_refl. reflexivity. Qed.

Lemma split_go_miss (sep r cur : text) (c : char) :
  startswith (c :: r) sep = false ->
  split_go sep (c :: r) 0 cur = split_go sep r 0 (c :: cur).
Proof. intros H. cbn [split_go]. rewrite H. reflexivity. Qed.

(** A closing fence that no "json" follows is no [```json] separator. *)
Lemma split_past_fence (body post : text) :
  BACKTICK ∉ body -> BACKTICK ∉ post ->
  startswith post (str "json") = false ->
  split (body ++ fence ++ post) fence_json = [body ++ fence ++ post].
Proof.
  intros Hb Hp Hj. unfold split.
  change fence_json with (BACKTICK :: BACKTICK :: BACKTICK :: str "json").
  change fence with [BACKTICK; BACKTICK; BACKTICK].
  set (J := str "json") in *.
  rewrite split_go_plain, app_nil_r by exact Hb.
  cbn [app].
  assert (Hhead : forall p, startswith post (BACKTICK :: p) = false).
  { intros p. destruct post as [|c post']; [reflexivity|].
    apply not_elem_cons in Hp as [Hc _]. apply startswith_other. exact Hc. }
  rewrite split_go_miss by (rewrite !startswith_same; exact Hj).
  rewrite split_go_miss by (rewrite !startswith_same; apply Hhead).
  rewrite split_go_miss by (rewrite !startswith_same; apply Hhead).
  rewrite <- (app_nil_r post) at 1.
  rewrite split_go_plain by exact Hp.
  cbn [split_go]. f_equal.
  rewrite rev_app_distr, rev_involutive. cbn [rev app].
  rewrite rev_involutive, <- !app_assoc. reflexivity.
Qed.

(** The first piece of [after.split("```")] when [after] is what follows a
    [```json] fence: the text up to the closing fence. *)
Lemma json_fence_body (body post : text) :
  BACKTICK ∉ body -> BACKTICK ∉ post ->
  match index (split (body ++ fence ++ post) fence_json) 0 with
  | inl after => index (split after fence) 0
  | inr e => inr e
  end = inl body.
Proof.
  intros Hb Hp.
  assert (Hcut : forall rest, index (split (body ++ fence ++ rest) fence) 0 = inl body).
  { intros rest. rewrite fence_unfold, split_at_first by exact Hb. reflexivity. }
  destruct (startswith post (str "json")) eqn:Hj.
  - (* the closing fence is itself followed by "json" *)
    assert (Hpost : exists rest, post = str "json" ++ rest).
    { apply startswith_prefix. exact Hj. }
    destruct Hpost as [rest ->].
    replace (body ++ fence ++ str "json" ++ rest)
      with (body ++ fence_json ++ rest) by reflexivity.
    change fence_json with (BACKTICK :: str "``json").
    rewrite split_at_first by exact Hb. cbn [index lookup list_lookup].
    rewrite fence_unfold, split_without by exact Hb. reflexivity.
  - (* no further [```json]: the piece is everything *)
    rewrite (split_past_fence body post Hb Hp Hj).
    cbn [index lookup list_lookup]. apply Hcut.
Qed.

Lemma fenced_none (s : text) : BACKTICK ∉ s -> fenced_content s = inl s.
Proof.
  intros H. unfold fenced_content.
  change fence_json with (BACKTICK :: str "``json").
  change fence with (BACKTICK :: str "``").
  rewrite !contains_without by exact H. reflexivity.
Qed.

Lemma fenced_json_closed (pre body post : text) :
  BACKTICK ∉ pre -> BACKTICK ∉ body -> BACKTICK ∉ post ->
  fenced_content (pre ++ fence_json ++ body ++ fence ++ post) = inl body.
Proof.
  intros Hpre Hb Hp. unfold fenced_content.
  change fence_json with (BACKTICK :: str "``json") at 1 2 3.
  rewrite contains_at_first, split_at_first by exact Hpre.
  rewrite index_second.
  change (BACKTICK :: str "``json") with fence_json.
  apply json_fence_body; assumption.
Qed.

Lemma fenced_json_open (pre body : text) :
  BACKTICK ∉ pre -> BACKTICK ∉ body ->
  fenced_content (pre ++ fence_json ++ body) = inl body.
Proof.
  intros Hpre Hb. unfold fenced_content.
  change fence_json with (BACKTICK :: str "``json").
  rewrite contains_at_first, split_at_first by exact Hpre.
  rewrite index_second, split_without by exact Hb.
  cbn [index lookup list_lookup].
  change fence with (BACKTICK :: str "``").
  rewrite split_without by exact Hb. reflexivity.
Qed.

Lemma fenced_plain (pre body post : text) :
  BACKTICK ∉ pre -> BACKTICK ∉ body ->
  contains fence_json (pre ++ fence ++ body ++ fence ++ post) = false ->
  fenced_content (pre ++ fence ++ body ++ fence ++ post) = inl body.
Proof.
  intros Hpre Hb Hj. unfold fenced_content. rewrite Hj.
  change fence with (BACKTICK :: str "``").
  rewrite contains_at_first, !split_at_first by assumption.
  rewrite index_second. cbn [index lookup list_lookup].
  rewrite split_without by exact Hb. reflexivity.
Qed.

Lemma working_text_of (raw cleaned : text) :
  fenced_content raw = inl cleaned -> working_text raw = strip cleaned.
Proof. unfold working_text. intros ->. reflexivity. Qed.

Section Decoder.

Variable json_loads : text -> value + Exception.

Lemma parse_by_working_text (raw raw' : text) (w : World) :
  working_text raw = working_text raw' ->
  parse_gemini_response json_loads raw w = parse_gemini_response json_loads raw' w.
Proof. intros H. rewrite !parse_run, H. reflexivity. Qed.

(** X1: text around a [```json] fence is ignored.  A reply of the form
    [pre ```json body ``` post], or [pre ```json body] with the fence left
    open, whose parts hold no backtick, is parsed exactly as [body] alone
    is: same result, same messages. *)
Theorem parse_reads_json_fence (pre body post : text) (w : World) :
  BACKTICK ∉ pre -> BACKTICK ∉ body -> BACKTICK ∉ post ->
  parse_gemini_response json_loads (pre ++ fence_json ++ body ++ fence ++ post) w
  = parse_gemini_response json_loads body w
  /\ parse_gemini_response json_loads (pre ++ fence_json ++ body) w
     = parse_gemini_response json_loads body w.
Proof.
  intros Hpre Hb Hp.
  split; apply parse_by_working_text;
    rewrite (working_text_of body body) by (apply fenced_none; exact Hb);
    apply working_text_of.
  - apply fenced_json_closed; assumption.
  - apply fenced_json_open; assumption.
Qed.

(** X2: a reply with a plain [```] fence and no [```json] is parsed as the
    text between the first two fences, whatever language tag heads it. *)
Theorem parse_reads_plain_fence (pre body post : text) (w : World) :
  BACKTICK ∉ pre -> BACKTICK ∉ body ->
  contains fence_json (pre ++ fence ++ body ++ fence ++ post) = false ->
  parse_gemini_response json_loads (pre ++ fence ++ body ++ fence ++ post) w
  = parse_gemini_response json_loads body w.
Proof.
  intros Hpre Hb Hj. apply parse_by_working_text.
  rewrite (working_text_of body body) by (apply fenced_none; exact Hb).
  apply working_text_of, fenced_plain; assumption.
Qed.

End Decoder.

(** A list of characters that [c] is checked not to be in. *)
Lemma absent_by_check (c : char) (s : text) :
  forallb (fun x => negb (N.eqb x c)) s = true -> c ∉ s.
Proof.
  intros H Hin. apply list_elem_of_In in Hin.
  rewrite forallb_forall in H. specialize (H c Hin).
  rewrite N.eqb_refl in H. discriminate.
Qed.

Lemma parse_reads_json_fence_witness :
  parse_gemini_response Json.json_loads
    (str "noise " ++ fence_json ++ str "{}" ++ fence ++ str " trailing noise")
    Scenario.empty_world
  = parse_gemini_response Json.json_loads (str "{}") Scenario.empty_world
  /\ parse_gemini_response Json.json_loads (str "noise " ++ fence_json ++ str "{}")
       Scenario.empty_world
     = parse_gemini_response Json.json_loads (str "{}") Scenario.empty_world.
Proof.
  exact (parse_reads_json_fence Json.json_loads (str "noise ") (str "{}")
           (str " trailing noise") Scenario.empty_world
           (absent_by_check BACKTICK (str "noise ") eq_refl)
           (absent_by_check BACKTICK (str "{}") eq_refl)
           (absent_by_check BACKTICK (str " trailing noise") eq_refl)).
Defined.

Lemma parse_reads_plain_fence_witness :
  parse_gemini_response Json.json_loads
    (str "Here: " ++ fence ++ str "python {}" ++ fence ++ str " done")
    Scenario.empty_world
  = parse_gemini_response Json.json_loads (str "python {}") Scenario.empty_world.
Proof.
  exact (parse_reads_plain_fence Json.json_loads (str "Here: ") (str "python {}")
           (str " done") Scenario.empty_world
           (absent_by_check BACKTICK (str "Here: ") eq_refl)
           (absent_by_check BACKTICK (str "python {}") eq_refl) eq_refl).
Defined.

End Fences.

(** ** An object inside prose, and the excerpt of a failure *)

Module Embedded.

Import Vocabulary StrFacts Candidate Effects Parser Fences.

Import App.

Lemma lstrip_keeps (p r : text) (c : char) :
  isspace c = false -> lstrip (p ++ c :: r) = lstrip p ++ c :: r.
Proof.
  intros Hc. induction p as [|a p IH]; cbn [app lstrip].
  - rewrite Hc. reflexivity.
  - destruct (isspace a); [exact IH|reflexivity].
Qed.

Lemma rstrip_keeps (p r : text) (c : char) :
  isspace c = false -> rstrip (p ++ c :: r) = p ++ c :: rstrip r.
Proof.
  intros Hc. unfold rstrip.
  rewrite rev_app_distr. cbn [rev]. rewrite <- app_assoc. cbn [app].
  rewrite lstrip_keeps by exact Hc.
  rewrite rev_app_distr. cbn [rev]. rewrite rev_involutive, <- app_assoc.
  reflexivity.
Qed.

Lemma lstrip_subset (c : char) (s : text) : c ∉ s -> c ∉ lstrip s.
Proof.
  induction s as [|a s IH]; intros H; cbn [lstrip]; [exact H|].
  destruct (isspace a); [|exact H].
  apply IH. intros Hs. apply H. right. exact Hs.
Qed.

Lemma rstrip_subset (c : char) (s : text) : c ∉ s -> c ∉ rstrip s.
Proof.
  intros H Hin. unfold rstrip in Hin.
  apply list_elem_of_In, in_rev, list_elem_of_In in Hin.
  revert Hin. apply lstrip_subset.
  intros Hr. apply H. apply list_elem_of_In, in_rev, list_elem_of_In. exact Hr.
Qed.

(** Stripping a text whose object is surrounded by prose strips the prose. *)
Lemma strip_around (p mid q : text) :
  strip (p ++ LBRACE :: mid ++ RBRACE :: q)
  = lstrip p ++ LBRACE :: mid ++ RBRACE :: rstrip q.
Proof.
  unfold strip. rewrite lstrip_keeps by reflexivity.
  replace (lstrip p ++ LBRACE :: mid ++ RBRACE :: q)
    with ((lstrip p ++ LBRACE :: mid) ++ RBRACE :: q)
    by (rewrite <- app_assoc; reflexivity).
  rewrite rstrip_keeps by reflexivity.
  rewrite <- app_assoc. reflexivity.
Qed.

(** The candidate of a text whose object is surrounded by prose without
    braces of the kind that would mislead the search. *)
Lemma json_candidate_embedded (p mid q : text) :
  LBRACE ∉ p -> RBRACE ∉ q ->
  json_candidate (p ++ LBRACE :: mid ++ RBRACE :: q) = LBRACE :: mid ++ [RBRACE].
Proof.
  intros Hp Hq.
  set (t := p ++ LBRACE :: mid ++ RBRACE :: q).
  assert (Hi : first_at LBRACE t (length p)).
  { split; unfold text in *.
    - unfold t. apply list_lookup_middle. reflexivity.
    - intros k Hk Hl. unfold t in Hl. rewrite lookup_app_l in Hl by exact Hk.
      apply Hp. apply list_elem_of_lookup. exists k. exact Hl. }
  assert (Hj : last_at RBRACE t (length p + S (length mid))).
  { assert (Et : t = (p ++ LBRACE :: mid) ++ RBRACE :: q)
      by (unfold t; rewrite <- app_assoc; reflexivity).
    assert (El : (length p + S (length mid))%nat = length (p ++ LBRACE :: mid))
      by (rewrite length_app; reflexivity).
    split; unfold text in *; rewrite Et, El.
    - apply list_lookup_middle. reflexivity.
    - intros k Hk Hl. rewrite lookup_app_r in Hl by lia.
      destruct (k - length (p ++ LBRACE :: mid))%nat as [|n] eqn:En; [lia|].
      apply Hq. apply list_elem_of_lookup. exists n. exact Hl. }
  rewrite (json_candidate_slice t _ _ Hi Hj).
  rewrite slice_inside.
  - unfold t. rewrite drop_app_length.
    replace (S (length p + S (length mid)) - length p)%nat
      with (length (LBRACE :: mid ++ [RBRACE]))
      by (cbn [length]; rewrite length_app; cbn [length]; lia).
    replace (LBRACE :: mid ++ RBRACE :: q) with ((LBRACE :: mid ++ [RBRACE]) ++ q)
      by (cbn [app]; rewrite <- app_assoc; reflexivity).
    apply take_app_length.
  - lia.
  - unfold t. rewrite length_app. cbn [length]. rewrite length_app. cbn [length]. lia.
Qed.

Lemma slice_to_take (t : text) (n : nat) : slice_to t (Z.of_nat n) = take n t.
Proof.
  unfold slice_to, slice, slice_bound.
  destruct (0 <? 0) eqn:E0; [discriminate|].
  destruct (Z.of_nat n <? 0) eqn:En; [apply Z.ltb_lt in En; lia|].
  replace (Z.to_nat (Z.max 0 (Z.min (Z.of_nat (length t)) 0))) with 0%nat by lia.
  rewrite drop_0.
  destruct (Nat.le_gt_cases n (length t)) as [H|H].
  - f_equal. lia.
  - rewrite !take_ge by lia. reflexivity.
Qed.

Section Decoder.

Variable json_loads : text -> value + Exception.

(** X3: an object embedded in prose is found.  When the reply has no code
    fence, the prose before the object has no ['{'] and the prose after it
    no ['}'], the text from the object's opening brace to its closing brace
    is what is decoded, and its value is returned with nothing reported. *)
Theorem parse_finds_embedded_object (p mid q : text) (v : value) (w : World) :
  BACKTICK ∉ p ++ LBRACE :: mid ++ RBRACE :: q ->
  LBRACE ∉ p -> RBRACE ∉ q ->
  json_loads (LBRACE :: mid ++ [RBRACE]) = inl v ->
  parse_gemini_response json_loads (p ++ LBRACE :: mid ++ RBRACE :: q) w = (inl v, w).
Proof.
  intros Hfence Hp Hq Hdec. rewrite parse_run.
  rewrite (working_text_of _ _ (fenced_none _ Hfence)).
  rewrite strip_around, json_candidate_embedded, Hdec.
  - reflexivity.
  - apply lstrip_subset. exact Hp.
  - apply rstrip_subset. exact Hq.
Qed.

(** X4: the excerpt of a parse failure is bounded.  When the candidate does
    not decode, the second message carries at most the first 500 characters
    of the working text, followed by an ellipsis whether or not anything
    was cut. *)
Theorem parse_failure_excerpt_bounded (raw : text) (e : Exception) (w : World) :
  json_loads (json_candidate (working_text raw)) = inr e ->
  is_JSONDecodeError e = true ->
  exists excerpt,
    parse_gemini_response json_loads raw w
    = (inl VNone,
       said_more
         [st_error [Lit "Failed to parse JSON response: "; Exc e];
          st_error [Lit "Raw response: "; Txt excerpt; Lit "..."]] w)
    /\ excerpt = take 500 (working_text raw)
    /\ (length excerpt <= 500)%nat.
Proof.
  intros Hdec He. exists (take 500 (working_text raw)).
  split; [|split; [reflexivity|]].
  - rewrite parse_run, Hdec, He.
    change 500 with (Z.of_nat 500). rewrite slice_to_take. reflexivity.
  - rewrite length_take. lia.
Qed.

End Decoder.

Lemma parse_finds_embedded_object_witness :
  parse_gemini_response Json.json_loads
    (str "Sure! " ++ LBRACE :: str "" ++ RBRACE :: str " Hope this helps.")
    Scenario.empty_world
  = (inl (VDict []), Scenario.empty_world).
Proof.
  exact (parse_finds_embedded_object Json.json_loads (str "Sure! ") (str "")
           (str " Hope this helps.") (VDict []) Scenario.empty_world
           (absent_by_check BACKTICK
              (str "Sure! " ++ LBRACE :: str "" ++ RBRACE :: str " Hope this helps.")
              eq_refl)
           (absent_by_check LBRACE (str "Sure! ") eq_refl)
           (absent_by_check RBRACE (str " Hope this helps.") eq_refl) eq_refl).
Defined.

Lemma parse_failure_excerpt_bounded_witness :
  exists excerpt,
    parse_gemini_response Json.json_loads (str "  no json here") Scenario.empty_world
    = (inl VNone,
       said_more
         [st_error [Lit "Failed to parse JSON response: ";
                    Exc (JSONDecodeError "Expecting value" 0)];
          st_error [Lit "Raw response: "; Txt excerpt; Lit "..."]]
         Scenario.empty_world)
    /\ excerpt = take 500 (working_text (str "  no json here"))
    /\ (length excerpt <= 500)%nat.
Proof.
  exact (parse_failure_excerpt_bounded Json.json_loads (str "  no json here")
           (JSONDecodeError "Expecting value" 0) Scenario.empty_world
           eq_refl eq_refl).
Defined.

End Embedded.

(** ** Displaying the result *)

Module Display.

Import Vocabulary StrFacts Candidate Effects Parser Fences Embedded.

Import App.
Local Open Scope py_scope.

Lemma said_more_shown (c : st_call) (l : list st_call) (w : World) :
  said_more l (shown c w) = said_more (c :: l) w.
Proof. unfold said_more, shown. simpl. rewrite <- app_assoc. reflexivity. Qed.

Lemma shown_said_more (c : st_call) (l : list st_call) (w : World) :
  shown c (said_more l w) = said_more (l ++ [c]) w.
Proof. unfold said_more, shown. simpl. rewrite <- app_assoc. reflexivity. Qed.

Lemma shown_once (c : st_call) (w : World) : shown c w = said_more [c] w.
Proof. reflexivity. Qed.

(** A loop that only writes: one call per element, in order. *)
Lemma for_each_st {A} (l : list A) (f : A -> st_call) (w : World) :
  for_each l (fun x => st (f x)) w = (inl tt, said_more (map f l) w).
Proof.
  revert w. induction l as [|x l IH]; intros w.
  - cbn. rewrite said_nothing. reflexivity.
  - cbn [for_each map]. unfold bind at 1, st at 1. rewrite IH, said_more_shown.
    reflexivity.
Qed.

(** X5: a list field is displayed completely and in order, and a string in
    its place is displayed one character to a line.  For a non-empty list
    the heading is followed by one ["- item"] line per element; for a
    non-empty string by one line per character. *)
Theorem display_list_lines (d : dict) (key : text) (heading : string) (w : World) :
  (forall l, dict_lookup d key = Some (VList l) -> l <> [] ->
     display_list (VDict d) key heading w
     = (inl tt, said_more (st_subheader [Lit heading] :: map item_line l) w))
  /\ (forall s, dict_lookup d key = Some (VStr s) -> s <> [] ->
        display_list (VDict d) key heading w
        = (inl tt,
           said_more (st_subheader [Lit heading]
                      :: map (fun c => item_line (VStr [c])) s) w)).
Proof.
  split.
  - intros l Hl Hne.
    unfold display_list, py_get, py_getitem, dict_get, bind at 1, ret.
    rewrite Hl. cbn [truthy].
    rewrite bool_decide_eq_false_2 by (destruct l; [contradiction|discriminate]).
    cbn [negb]. unfold bind at 1, st at 1. unfold bind at 1.
    unfold bind at 1, py_iter, ret.
    rewrite (for_each_st l item_line), said_more_shown. reflexivity.
  - intros s Hs Hne.
    unfold display_list, py_get, py_getitem, dict_get, bind at 1, ret.
    rewrite Hs. cbn [truthy].
    rewrite bool_decide_eq_false_2 by exact Hne.
    cbn [negb]. unfold bind at 1, st at 1. unfold bind at 1.
    unfold bind at 1, py_iter, ret.
    rewrite (for_each_st _ item_line), said_more_shown, map_map. reflexivity.
Qed.

(** X6: the relevance score is classified by the thresholds 80 and 50 and
    shown as it is.  An integer score of 80 or more is "Highly Relevant",
    one from 50 to 79 "Moderately Relevant", anything lower "Low Relevance";
    no range is enforced, so a score above 100 or below 0 is displayed
    unchanged. *)
Theorem display_score_bands (d : dict) (score : Z) (w : World) :
  dict_lookup d (str "relevance_score") = Some (VInt score) ->
  (80 <= score ->
   display_score (VDict d) w
   = (inl tt, shown (st_success [Lit " Highly Relevant - Score: ";
                                 Val (VInt score); Lit "/100"]) w))
  /\ (50 <= score < 80 ->
      display_score (VDict d) w
      = (inl tt, shown (st_warning [Lit " Moderately Relevant - Score: ";
                                    Val (VInt score); Lit "/100"]) w))
  /\ (score < 50 ->
      display_score (VDict d) w
      = (inl tt, shown (st_info [Lit " Low Relevance - Score: ";
                                 Val (VInt score); Lit "/100"]) w)).
Proof.
  intros Hs.
  assert (Hrun : display_score (VDict d) w =
                 if 80 <=? score
                 then (inl tt, shown (st_success [Lit " Highly Relevant - Score: ";
                                                  Val (VInt score); Lit "/100"]) w)
                 else if 50 <=? score
                 then (inl tt, shown (st_warning [Lit " Moderately Relevant - Score: ";
                                                  Val (VInt score); Lit "/100"]) w)
                 else (inl tt, shown (st_info [Lit " Low Relevance - Score: ";
                                               Val (VInt score); Lit "/100"]) w)).
  { unfold display_score, py_get, dict_get, bind at 1, ret. rewrite Hs.
    unfold bind at 1, py_ge_int, ret.
    destruct (80 <=? score); [reflexivity|].
    unfold bind at 1. destruct (50 <=? score); reflexivity. }
  rewrite Hrun. split; [|split]; intros H.
  - rewrite (proj2 (Z.leb_le 80 score)) by lia. reflexivity.
  - rewrite (proj2 (Z.leb_gt 80 score)), (proj2 (Z.leb_le 50 score)) by lia.
    reflexivity.
  - rewrite (proj2 (Z.leb_gt 80 score)), (proj2 (Z.leb_gt 50 score)) by lia.
    reflexivity.
Qed.

Section Collaborators.

Variable json_loads : text -> value + Exception.
Variable unicode_lower unicode_upper : text -> text.

Local Abbreviation display := (display_analysis_results unicode_lower unicode_upper).
Local Abbreviation show := (show_response json_loads unicode_lower unicode_upper).

Lemma failed_to_parse_run (raw : text) (w : World) :
  (st (st_error [Lit "Failed to parse analysis results"]) ;;
   st (st_expander [Lit "View Raw Response"]) ;;
   st (st_text [Txt raw])) w
  = (inl tt, said_more (failed_to_parse raw) w).
Proof.
  unfold bind, st, shown, said_more. cbn. rewrite <- !app_assoc. reflexivity.
Qed.

Lemma display_non_object_run (v : value) (w : World) :
  truthy v = true -> is_object v = false ->
  display v w = (inr AttributeError, w).
Proof.
  intros Ht Ho. unfold display_analysis_results. rewrite Ht. cbn [negb].
  destruct v; try discriminate; reflexivity.
Qed.

(** What [show_response] does with a reply, by what the candidate decodes
    to. *)
Lemma show_response_run (c : char) (r : text) (w : World) :
  show (Some (c :: r)) w =
  match json_loads (json_candidate (working_text (c :: r))) with
  | inl v =>
      if truthy v
      then display v (shown (st_header [Lit " Analysis Results"]) w)
      else (inl tt, said_more (failed_to_parse (c :: r)) w)
  | inr e =>
      if is_JSONDecodeError e
      then (inl tt,
            said_more
              (parse_failure_messages e (slice_to (working_text (c :: r)) 500)
               ++ failed_to_parse (c :: r)) w)
      else (inr e, w)
  end.
Proof.
  unfold show_response. unfold bind at 1. rewrite parse_run.
  destruct (json_loads _) as [v|e].
  - destruct (truthy v); [reflexivity|]. apply failed_to_parse_run.
  - destruct (is_JSONDecodeError e); [|reflexivity].
    cbn [truthy]. rewrite failed_to_parse_run.
    unfold said_more. cbn. rewrite <- !app_assoc. reflexivity.
Qed.

(** X7: a reply that decodes to a false value is reported as a parse
    failure.  When the candidate decodes to an empty object, an empty list,
    zero, [false], [null] or an empty string, [show_response] displays no
    result: it reports "Failed to parse analysis results" and shows the raw
    reply, unchanged. *)
Theorem show_response_false_value (c : char) (r : text) (v : value) (w : World) :
  json_loads (json_candidate (working_text (c :: r))) = inl v ->
  truthy v = false ->
  show (Some (c :: r)) w
  = (inl tt, said_more (failed_to_parse (c :: r)) w).
Proof. intros Hdec Ht. rewrite show_response_run, Hdec, Ht. reflexivity. Qed.

(** X8: a reply that decodes to a true value that is no object makes
    [show_response] raise.  The heading "Analysis Results" is displayed and
    [AttributeError] propagates to the caller. *)
Theorem show_response_non_object (c : char) (r : text) (v : value) (w : World) :
  json_loads (json_candidate (working_text (c :: r))) = inl v ->
  truthy v = true -> is_object v = false ->
  show (Some (c :: r)) w
  = (inr AttributeError, shown (st_header [Lit " Analysis Results"]) w).
Proof.
  intros Hdec Ht Ho. rewrite show_response_run, Hdec, Ht.
  apply display_non_object_run; assumption.
Qed.

End Collaborators.

Lemma display_list_lines_witness :
  display_list (VDict [(str "key_insights", VList [VStr (str "a"); VStr (str "b")])])
    (str "key_insights") " Key Insights" Scenario.empty_world
  = (inl tt,
     said_more [st_subheader [Lit " Key Insights"];
                item_line (VStr (str "a")); item_line (VStr (str "b"))]
       Scenario.empty_world)
  /\ display_list (VDict [(str "key_insights", VStr (str "ab"))])
       (str "key_insights") " Key Insights" Scenario.empty_world
     = (inl tt,
        said_more [st_subheader [Lit " Key Insights"];
                   item_line (VStr (str "a")); item_line (VStr (str "b"))]
          Scenario.empty_world).
Proof.
  split.
  - exact (proj1 (display_list_lines
                    [(str "key_insights", VList [VStr (str "a"); VStr (str "b")])]
                    (str "key_insights") " Key Insights" Scenario.empty_world)
             [VStr (str "a"); VStr (str "b")] eq_refl
             (fun E => eq_ind [VStr (str "a"); VStr (str "b")]
                         (fun l => match l with [] => False | _ => True end) I [] E)).
  - exact (proj2 (display_list_lines
                    [(str "key_insights", VStr (str "ab"))]
                    (str "key_insights") " Key Insights" Scenario.empty_world)
             (str "ab") eq_refl
             (fun E => eq_ind (str "ab")
                         (fun l => match l with [] => False | _ => True end) I [] E)).
Defined.

Lemma display_score_bands_witness :
  display_score (VDict [(str "relevance_score", VInt 150)]) Scenario.empty_world
  = (inl tt, shown (st_success [Lit " Highly Relevant - Score: ";
                                Val (VInt 150); Lit "/100"]) Scenario.empty_world)
  /\ display_score (VDict [(str "relevance_score", VInt 79)]) Scenario.empty_world
     = (inl tt, shown (st_warning [Lit " Moderately Relevant - Score: ";
                                   Val (VInt 79); Lit "/100"]) Scenario.empty_world)
  /\ display_score (VDict [(str "relevance_score", VInt (-5))]) Scenario.empty_world
     = (inl tt, shown (st_info [Lit " Low Relevance - Score: ";
                                Val (VInt (-5)); Lit "/100"]) Scenario.empty_world).
Proof.
  split; [|split].
  - apply (proj1 (display_score_bands [(str "relevance_score", VInt 150)] 150
                    Scenario.empty_world eq_refl)).
    lia.
  - apply (proj1 (proj2 (display_score_bands [(str "relevance_score", VInt 79)] 79
                           Scenario.empty_world eq_refl))).
    lia.
  - apply (proj2 (proj2 (display_score_bands [(str "relevance_score", VInt (-5))] (-5)
                           Scenario.empty_world eq_refl))).
    lia.
Defined.

Lemma show_response_false_value_witness :
  show_response Json.json_loads Scenario.no_case_mapping Scenario.no_case_mapping
    (Some (LBRACE :: str "}")) Scenario.empty_world
  = (inl tt, said_more (failed_to_parse (LBRACE :: str "}")) Scenario.empty_world).
Proof.
  exact (show_response_false_value Json.json_loads Scenario.no_case_mapping
           Scenario.no_case_mapping LBRACE (str "}") (VDict [])
           Scenario.empty_world eq_refl eq_refl).
Defined.

Lemma show_response_non_object_witness :
  show_response Json.json_loads Scenario.no_case_mapping Scenario.no_case_mapping
    (Some (91%N :: str "1]")) Scenario.empty_world
  = (inr AttributeError,
     shown (st_header [Lit " Analysis Results"]) Scenario.empty_world).
Proof.
  exact (show_response_non_object Json.json_loads Scenario.no_case_mapping
           Scenario.no_case_mapping 91%N (str "1]") (VList [VInt 1])
           Scenario.empty_world eq_refl eq_refl eq_refl).
Defined.

End Display.

(** ** Requests to the service *)

Module Requests.

Import Vocabulary StrFacts Candidate Effects Parser Fences Embedded Display.

Import App.
Local Open Scope py_scope.

Global Instance requests_kept_preorder : PreOrder requests_kept.
Proof.
  split.
  - intros w. reflexivity.
  - intros a b c H1 H2. unfold requests_kept in *. congruence.
Qed.

Lemma kept_is_one (a b : World) : requests_kept a b -> one_more a b.
Proof. intros H. left. exact H. Qed.

Lemma kept_then_one (a b c : World) :
  requests_kept a b -> one_more b c -> one_more a c.
Proof. unfold requests_kept, one_more. intros ->. auto. Qed.

Lemma one_then_kept (a b c : World) :
  one_more a b -> requests_kept b c -> one_more a c.
Proof. unfold requests_kept, one_more. intros H ->. exact H. Qed.

Lemma post_kept_is_one {A} (m : M A) : post requests_kept m -> post one_more m.
Proof. intros H w r w' E. apply kept_is_one. exact (H _ _ _ E). Qed.

Lemma post_kept_then_one {A B} (m : M A) (k : A -> M B) :
  post requests_kept m -> (forall a, post one_more (k a)) ->
  post one_more (bind m k).
Proof.
  intros Hm Hk w r w'. unfold bind.
  destruct (m w) as [[a|e] w1] eqn:E; intros H.
  - exact (kept_then_one _ _ _ (Hm _ _ _ E) (Hk _ _ _ _ H)).
  - injection H as _ <-. apply kept_is_one. exact (Hm _ _ _ E).
Qed.

Lemma post_one_then_kept {A B} (m : M A) (k : A -> M B) :
  post one_more m -> (forall a, post requests_kept (k a)) ->
  post one_more (bind m k).
Proof.
  intros Hm Hk w r w'. unfold bind.
  destruct (m w) as [[a|e] w1] eqn:E; intros H.
  - exact (one_then_kept _ _ _ (Hm _ _ _ E) (Hk _ _ _ _ H)).
  - injection H as _ <-. exact (Hm _ _ _ E).
Qed.

Lemma post_one_try {A} (body : M A) handles (handler : Exception -> M A) :
  post one_more body -> (forall e, post requests_kept (handler e)) ->
  post one_more (try_except body handles handler).
Proof.
  intros Hb Hh w r w'. unfold try_except.
  destruct (body w) as [[a|e] w1] eqn:E.
  - intros [= _ <-]. exact (Hb _ _ _ E).
  - destruct (handles e); intros H.
    + exact (one_then_kept _ _ _ (Hb _ _ _ E) (Hh _ _ _ _ H)).
    + injection H as _ <-. exact (Hb _ _ _ E).
Qed.

Lemma kept_st (c : st_call) : post requests_kept (st c).
Proof. intros w r w' [= _ <-]. reflexivity. Qed.

Lemma kept_os_remove (p : text) : post requests_kept (os_remove p).
Proof. intros w r w' H. unfold os_remove in H. run_prim H; reflexivity. Qed.

Lemma kept_os_rmdir (p : text) : post requests_kept (os_rmdir p).
Proof. intros w r w' H. unfold os_rmdir in H. run_prim H; reflexivity. Qed.

Lemma kept_write_file (p : text) (b : bytes) : post requests_kept (write_file p b).
Proof. intros w r w' H. unfold write_file in H. run_prim H; reflexivity. Qed.

Lemma kept_mkdtemp fresh : post requests_kept (mkdtemp fresh).
Proof. intros w r w' [= _ <-]. reflexivity. Qed.

Lemma kept_ydl_extract_info extract_info opts url download :
  post requests_kept (ydl_extract_info extract_info opts url download).
Proof. intros w r w' [= _ <-]. reflexivity. Qed.

Lemma peel_kept {A B} (w0 : World) (m : M A) (k : A -> M B) (w w' : World)
    (r : B + Exception) :
  returns requests_kept m -> requests_kept w0 w -> bind m k w = (r, w') ->
  exists a w1, requests_kept w0 w1 /\ k a w1 = (r, w').
Proof.
  intros Hm Hw. unfold bind.
  destruct (m w) as [[a|e] w1] eqn:E; intros H.
  - exists a, w1. split; [|exact H].
    transitivity w; [exact Hw|exact (proj1 (Hm _ _ _ E))].
  - destruct (Hm _ _ _ E) as [_ [a Ha]]. discriminate.
Qed.

Lemma returns_kept_get_video_info_basic
    (extract_info : ydl_opts -> text -> bool -> gmap text node -> provider_outcome)
    (u : text) :
  returns requests_kept (get_video_info_basic extract_info u).
Proof.
  apply returns_get_video_info_basic;
    [typeclasses eauto|apply kept_st|apply kept_ydl_extract_info].
Qed.

Lemma returns_kept_show_video_info (i : video_info) :
  returns requests_kept (show_video_info i).
Proof. apply returns_show_video_info; [typeclasses eauto|apply kept_st]. Qed.

(** The steps of an analysis before the service is asked: they return and
    send nothing. *)
Ltac peel_quiet H :=
  lazymatch goal with
  | Hk : requests_kept ?w0 ?w |- _ =>
      lazymatch type of H with
      | bind (st ?c) _ w = _ =>
          apply (peel_kept w0 _ _ _ _ _ (returns_st _ c (kept_st c)) Hk) in H;
          clear Hk; destruct H as [_ [? [Hk H]]]
      | bind (get_video_info_basic ?ei ?u) _ w = _ =>
          apply (peel_kept w0 _ _ _ _ _ (returns_kept_get_video_info_basic ei u) Hk) in H;
          clear Hk; destruct H as [? [? [Hk H]]]
      | bind (show_video_info ?i) _ w = _ =>
          apply (peel_kept w0 _ _ _ _ _ (returns_kept_show_video_info i) Hk) in H;
          clear Hk; destruct H as [_ [? [Hk H]]]
      end
  end.

Section Collaborators.

Variable json_loads : text -> value + Exception.
Variable json_dumps : value -> text.
Variable unicode_lower unicode_upper : text -> text.
Variable extract_info : ydl_opts -> text -> bool -> gmap text node -> provider_outcome.
Variable prepare_filename : ydl_opts -> value -> text + Exception.
Variable generate_content : Request -> option text + Exception.
Variable fresh_dir : gmap text node -> text.
Variable dir_size : Z.

Local Abbreviation analyze := (analyze_video_with_gemini json_dumps generate_content).

(** One run of [analyze_video_with_gemini], by the kind of source. *)
Lemma analyze_run (video_source : text) (investments : value)
    (is_youtube_url : bool) (w : World) :
  analyze video_source investments is_youtube_url w =
  if is_youtube_url
  then call_outcome generate_content (remote_request video_source (prompt_for json_dumps investments)) w
  else match fs w !! video_source with
       | Some (File b) => call_outcome generate_content (local_request b (prompt_for json_dumps investments)) w
       | Some Dir =>
           (inl None,
            shown (analysis_failed (ExternalError "IsADirectoryError" video_source)) w)
       | None =>
           (inl None, shown (analysis_failed (FileNotFoundError video_source)) w)
       end.
Proof.
  unfold analyze_video_with_gemini, try_except, call_outcome.
  destruct is_youtube_url.
  - unfold client_generate. fold (prompt_for json_dumps investments).
    unfold remote_request.
    destruct (generate_content _) as [t|e]; reflexivity.
  - unfold bind at 1, read_file.
    destruct (fs w !! video_source) as [[b|]|]; reflexivity.
Qed.

Lemma call_outcome_facts (req : Request) (w w' : World) (r : option text + Exception) :
  call_outcome generate_content req w = (r, w') ->
  (exists t, r = inl t) /\ fs w' = fs w /\ tempdirs w' = tempdirs w
  /\ requests w' = requests w ++ [req].
Proof.
  unfold call_outcome.
  destruct (generate_content req) as [t|e]; intros [= <- <-];
    (split; [eauto|split; [reflexivity|split; reflexivity]]).
Qed.

(** X9: [analyze_video_with_gemini] never raises, leaves the file system
    as it is and sends at most one request; when the local file cannot be
    read it sends none and returns [None]. *)
Theorem analyze_never_raises (video_source : text) (investments : value)
    (is_youtube_url : bool) (w w' : World) (r : option text + Exception) :
  analyze video_source investments is_youtube_url w = (r, w') ->
  (exists response_text, r = inl response_text)
  /\ fs w' = fs w /\ tempdirs w' = tempdirs w
  /\ one_more w w'
  /\ (is_youtube_url = false ->
      (forall b, fs w !! video_source <> Some (File b)) ->
      r = inl None /\ requests w' = requests w).
Proof.
  rewrite analyze_run. intros Hrun.
  destruct is_youtube_url; [|destruct (fs w !! video_source) as [[b|]|] eqn:Hsrc].
  - apply call_outcome_facts in Hrun as [Hr [Hf [Ht Hq]]].
    split; [exact Hr|split; [exact Hf|split; [exact Ht|split]]].
    + right. eauto.
    + discriminate.
  - apply call_outcome_facts in Hrun as [Hr [Hf [Ht Hq]]].
    split; [exact Hr|split; [exact Hf|split; [exact Ht|split]]].
    + right. eauto.
    + intros _ Hno. exfalso. exact (Hno b eq_refl).
  - injection Hrun as <- <-.
    split; [eauto|split; [reflexivity|split; [reflexivity|split]]].
    + left. reflexivity.
    + intros _ _. split; reflexivity.
  - injection Hrun as <- <-.
    split; [eauto|split; [reflexivity|split; [reflexivity|split]]].
    + left. reflexivity.
    + intros _ _. split; reflexivity.
Qed.

Lemma one_more_analyze (video_source : text) (investments : value)
    (is_youtube_url : bool) :
  post one_more (analyze video_source investments is_youtube_url).
Proof.
  intros w r w' Hrun. rewrite analyze_run in Hrun.
  destruct is_youtube_url; [|destruct (fs w !! video_source) as [[b|]|]].
  - apply call_outcome_facts in Hrun as [_ [_ [_ Hq]]]. right. eauto.
  - apply call_outcome_facts in Hrun as [_ [_ [_ Hq]]]. right. eauto.
  - injection Hrun as _ <-. left. reflexivity.
  - injection Hrun as _ <-. left. reflexivity.
Qed.

Local Hint Resolve requests_kept_preorder kept_st kept_os_remove kept_os_rmdir
  kept_write_file kept_mkdtemp
  kept_ydl_extract_info : post.
Local Hint Resolve post_show_response post_show_video_info post_get_video_info_basic
  post_display_analysis_results post_parse_gemini_response : post.

Lemma kept_download (u : text) (max_size_mb : Z) :
  post requests_kept
    (download_video_for_gemini extract_info prepare_filename fresh_dir dir_size
       u max_size_mb).
Proof. unfold download_video_for_gemini. post_auto. Qed.

Local Hint Resolve kept_download : post.

Ltac one_step :=
  lazymatch goal with
  | |- post one_more (bind (analyze_video_with_gemini _ _ _ _ _) _) =>
      apply post_one_then_kept; [apply one_more_analyze|intros ?; post_auto]
  | |- post one_more (bind _ _) =>
      apply post_kept_then_one; [solve [post_auto]|intros ?]
  | |- post one_more (try_except _ _ _) =>
      apply post_one_try; [|intros ?; solve [post_auto]]
  | |- post one_more (if ?b then _ else _) => destruct b
  | |- post one_more (match ?x with _ => _ end) => destruct x
  | |- post one_more _ => apply post_kept_is_one; solve [post_auto]
  end.

Lemma one_more_main_youtube_url (video_url : text) (investments : value) :
  post one_more
    (main_youtube_url json_loads json_dumps unicode_lower unicode_upper
       extract_info generate_content video_url investments).
Proof. unfold main_youtube_url. repeat one_step. Qed.

Lemma one_more_main_other_url (video_url : text) (investments : value) :
  post one_more
    (main_other_url json_loads json_dumps unicode_lower unicode_upper
       extract_info prepare_filename generate_content fresh_dir dir_size
       video_url investments).
Proof. unfold main_other_url. repeat one_step. Qed.

Lemma one_more_main_upload (uploaded : uploaded_file) (investments : value)
    (clicked : bool) :
  post one_more
    (main_upload json_loads json_dumps unicode_lower unicode_upper
       generate_content fresh_dir uploaded investments clicked).
Proof. unfold main_upload, analyze_staged. repeat one_step. Qed.

(** X10: no analysis asks the service twice.  Each of the three analyses of
    [main] sends at most one request, whatever the service answers and
    whether or not the reply can be parsed or displayed. *)
Theorem analyses_send_at_most_one_request :
  (forall video_url investments w,
     one_more w
       (snd (main_youtube_url json_loads json_dumps unicode_lower unicode_upper
               extract_info generate_content video_url investments w)))
  /\ (forall video_url investments w,
        one_more w
          (snd (main_other_url json_loads json_dumps unicode_lower unicode_upper
                  extract_info prepare_filename generate_content fresh_dir
                  dir_size video_url investments w)))
  /\ (forall uploaded investments clicked w,
        one_more w
          (snd (main_upload json_loads json_dumps unicode_lower unicode_upper
                  generate_content fresh_dir uploaded investments clicked w))).
Proof.
  split; [|split].
  - intros video_url investments w.
    exact (one_more_main_youtube_url video_url investments w _ _
             (surjective_pairing _)).
  - intros video_url investments w.
    exact (one_more_main_other_url video_url investments w _ _
             (surjective_pairing _)).
  - intros uploaded investments clicked w.
    exact (one_more_main_upload uploaded investments clicked w _ _
             (surjective_pairing _)).
Qed.

(** The "YouTube URL" analysis up to the point where the service has been
    asked: what is left is to show the reply. *)
Lemma main_youtube_url_run (video_url : text) (investments : value)
    (w w' : World) (r : unit + Exception) :
  main_youtube_url json_loads json_dumps unicode_lower unicode_upper
    extract_info generate_content video_url investments w = (r, w') ->
  exists w1,
    requests w1
    = requests w ++ [remote_request video_url (prompt_for json_dumps investments)]
    /\ show_response json_loads unicode_lower unicode_upper
         match generate_content (remote_request video_url (prompt_for json_dumps investments)) with
         | inl response_text => response_text
         | inr _ => None
         end w1
       = (r, w').
Proof.
  intros Hrun. unfold main_youtube_url in Hrun.
  assert (Hk : requests_kept w w) by reflexivity.
  repeat peel_quiet Hrun.
  unfold bind in Hrun. rewrite analyze_run in Hrun. unfold call_outcome in Hrun.
  unfold requests_kept in Hk.
  destruct (generate_content _) as [t|e] eqn:Hgen.
  - eexists. split; [|exact Hrun].
    cbn [requests sent]. rewrite Hk. reflexivity.
  - eexists. split; [|exact Hrun].
    cbn [requests sent shown]. rewrite Hk. reflexivity.
Qed.

(** X11: the "YouTube URL" analysis hands the URL to the service as it was
    entered.  Every run sends exactly one request, whose video part is the
    URL itself and whose text part is the prompt for the portfolio, whatever
    the metadata lookup found; and it makes no temporary directory. *)
Theorem main_youtube_url_sends_url (video_url : text) (investments : value)
    (w : World) :
  requests (snd (main_youtube_url json_loads json_dumps unicode_lower unicode_upper
                   extract_info generate_content video_url investments w))
  = requests w ++ [remote_request video_url (prompt_for json_dumps investments)]
  /\ tempdirs (snd (main_youtube_url json_loads json_dumps unicode_lower
                      unicode_upper extract_info generate_content video_url
                      investments w))
     = tempdirs w.
Proof.
  destruct (main_youtube_url _ _ _ _ _ _ _ _ w) as [r w'] eqn:Hrun.
  cbn [snd]. split.
  - apply main_youtube_url_run in Hrun as [w1 [Hreq Hshow]].
    rewrite <- Hreq.
    exact (post_show_response json_loads unicode_lower unicode_upper requests_kept
             kept_st _ w1 r w' Hshow).
  - exact (proj2 (post_main_youtube_url json_loads json_dumps unicode_lower
                    unicode_upper extract_info generate_content dirs_kept
                    dirs_kept_st (dirs_kept_ydl_extract_info extract_info)
                    (fun r _ => dirs_kept_client_generate generate_content r)
                    video_url investments w r w' Hrun)).
Qed.

(** X12: a reply that is no object ends the "YouTube URL" analysis with an
    exception.  When the service's reply decodes to a true value that is no
    object (a list, a number, a string), the [AttributeError] raised while
    displaying it is caught by nothing and leaves [main]. *)
Theorem main_youtube_url_propagates (video_url : text) (investments : value)
    (c : char) (reply : text) (v : value) (w : World) :
  generate_content (remote_request video_url (prompt_for json_dumps investments))
  = inl (Some (c :: reply)) ->
  json_loads (json_candidate (working_text (c :: reply))) = inl v ->
  truthy v = true -> is_object v = false ->
  fst (main_youtube_url json_loads json_dumps unicode_lower unicode_upper
         extract_info generate_content video_url investments w)
  = inr AttributeError.
Proof.
  intros Hgen Hdec Ht Ho.
  destruct (main_youtube_url _ _ _ _ _ _ _ _ w) as [r w'] eqn:Hrun.
  cbn [fst].
  apply main_youtube_url_run in Hrun as [w1 [_ Hshow]].
  rewrite Hgen, show_response_run, Hdec, Ht in Hshow.
  rewrite display_non_object_run in Hshow by assumption.
  injection Hshow as <- _. reflexivity.
Qed.

End Collaborators.

Lemma analyze_never_raises_witness :
  (exists response_text,
     fst (analyze_video_with_gemini Scenario.sample_dumps
            (Scenario.service_replying (str "{}")) (str "/missing.mp4") (VDict [])
            false Scenario.empty_world) = inl response_text)
  /\ fst (analyze_video_with_gemini Scenario.sample_dumps
            (Scenario.service_replying (str "{}")) (str "/missing.mp4") (VDict [])
            false Scenario.empty_world) = inl None
  /\ requests (snd (analyze_video_with_gemini Scenario.sample_dumps
                      (Scenario.service_replying (str "{}")) (str "/missing.mp4")
                      (VDict []) false Scenario.empty_world))
     = requests Scenario.empty_world.
Proof.
  pose proof (analyze_never_raises Scenario.sample_dumps
                (Scenario.service_replying (str "{}")) (str "/missing.mp4")
                (VDict []) false Scenario.empty_world _ _ (surjective_pairing _))
    as [Hr [_ [_ [_ Hmissing]]]].
  split; [exact Hr|].
  apply Hmissing; [reflexivity|].
  intros b. cbn [fs Scenario.empty_world]. rewrite lookup_empty. discriminate.
Defined.

Lemma main_youtube_url_propagates_witness :
  fst (main_youtube_url Json.json_loads Scenario.sample_dumps
         Scenario.no_case_mapping Scenario.no_case_mapping
         Scenario.provider_unreachable (Scenario.service_replying (str "[1]"))
         Scenario.sample_url (VDict []) Scenario.empty_world)
  = inr AttributeError.
Proof.
  exact (main_youtube_url_propagates Json.json_loads Scenario.sample_dumps
           Scenario.no_case_mapping Scenario.no_case_mapping
           Scenario.provider_unreachable (Scenario.service_replying (str "[1]"))
           Scenario.sample_url (VDict []) 91%N (str "1]") (VList [VInt 1])
           Scenario.empty_world eq_refl eq_refl eq_refl eq_refl).
Defined.

End Requests.

(** ** Metadata and downloads *)

Module Sources.

Import Vocabulary StrFacts Candidate Effects Parser Fences Embedded Display Requests.

Import App Acquire.
Local Open Scope py_scope.

Lemma find_from_range (sub s : text) (i : Z) :
  find_from sub s i = -1 \/ i <= find_from sub s i.
Proof.
  revert i. induction s as [|c s IH]; intros i; cbn [find_from].
  - destruct (startswith [] sub); [right; lia|left; reflexivity].
  - destruct (startswith (c :: s) sub); [right; lia|].
    destruct (IH (i + 1)) as [H|H]; [left; exact H|right; lia].
Qed.

Lemma find_from_occurs (sub s : text) (i : Z) :
  0 <= i ->
  (find_from sub s i <> -1 <-> exists a b, s = a ++ sub ++ b).
Proof.
  revert i. induction s as [|c s IH]; intros i Hi; cbn [find_from].
  - destruct (startswith [] sub) eqn:E.
    + split; [intros _|intros _; lia].
      apply startswith_prefix in E as [rest E]. exists [], rest. exact E.
    + split; [intros H; contradiction|].
      intros [a [b Hab]]. symmetry in Hab.
      apply app_eq_nil in Hab as [-> Hab]. apply app_eq_nil in Hab as [-> _].
      discriminate.
  - destruct (startswith (c :: s) sub) eqn:E.
    + split; [intros _|intros _; lia].
      apply startswith_prefix in E as [rest E]. exists [], rest. exact E.
    + rewrite (IH (i + 1)) by lia. split.
      * intros [a [b ->]]. exists (c :: a), b. reflexivity.
      * intros [a [b Hab]]. destruct a as [|c' a].
        -- cbn [app] in Hab. rewrite Hab, startswith_app in E. discriminate.
        -- injection Hab as _ ->. exists a, b. reflexivity.
Qed.

(** [sub in s] holds exactly when [s] has [sub] somewhere inside. *)
Lemma contains_occurs (sub s : text) :
  contains sub s = true <-> exists a b, s = a ++ sub ++ b.
Proof.
  unfold contains, find. rewrite negb_true_iff, Z.eqb_neq.
  apply find_from_occurs. lia.
Qed.

Lemma platform_by_substring (url : text) :
  (mentions_youtube url ->
   contains (str "youtube.com") url || contains (str "youtu.be") url = true)
  /\ (~ mentions_youtube url ->
      contains (str "youtube.com") url || contains (str "youtu.be") url = false).
Proof.
  split.
  - intros [a [b [H|H]]]; apply orb_true_iff; [left|right];
      apply contains_occurs; eauto.
  - intros H. apply orb_false_iff.
    split; apply not_true_is_false; intros Hc;
      apply contains_occurs in Hc as [a [b Hab]]; apply H; exists a, b; auto.
Qed.

Section Collaborators.

Variable extract_info : ydl_opts -> text -> bool -> gmap text node -> provider_outcome.
Variable prepare_filename : ydl_opts -> value -> text + Exception.
Variable fresh_dir : gmap text node -> text.
Variable dir_size : Z.

Local Abbreviation download := (download_video_for_gemini extract_info prepare_filename
                        fresh_dir dir_size).

(** X13: the platform tag is read off the URL alone.  When the metadata
    lookup returns a dictionary, the record carries its title and duration
    (with "Unknown" and 0 for missing keys) and the URL as given; the
    platform is "YouTube" exactly when the URL has "youtube.com" or
    "youtu.be" somewhere in it, and "Other" otherwise; nothing is reported. *)
Theorem video_info_platform (video_url : text) (d : dict) (w w1 : World) :
  ydl_extract_info extract_info info_opts video_url false w = (inl (VDict d), w1) ->
  exists platform,
    get_video_info_basic extract_info video_url w
    = (inl {| title := dict_get d (str "title") (VStr (str "Unknown"));
              duration := dict_get d (str "duration") (VInt 0);
              url := video_url;
              platform := platform |}, w1)
    /\ (mentions_youtube video_url -> platform = str "YouTube")
    /\ (~ mentions_youtube video_url -> platform = str "Other").
Proof.
  intros Hydl.
  exists (if contains (str "youtube.com") video_url || contains (str "youtu.be") video_url
          then str "YouTube" else str "Other").
  split; [|split].
  - unfold get_video_info_basic, try_except, bind at 1. rewrite Hydl. reflexivity.
  - intros H. rewrite (proj1 (platform_by_substring video_url) H). reflexivity.
  - intros H. rewrite (proj2 (platform_by_substring video_url) H). reflexivity.
Qed.

(** X14: metadata that is no dictionary counts as a failed lookup.  When
    the provider returns [None] (or any value without [.get]) instead of an
    info dictionary, the [AttributeError] is caught like any extraction
    error: it is reported and the defaulted record is returned. *)
Theorem video_info_not_a_dict (video_url : text) (info : value) (w w1 : World) :
  ydl_extract_info extract_info info_opts video_url false w = (inl info, w1) ->
  is_object info = false ->
  get_video_info_basic extract_info video_url w
  = (inl (unknown_video video_url),
     shown (st_error [Lit "Error extracting video info: "; Exc AttributeError]) w1).
Proof.
  intros Hydl Ho.
  unfold get_video_info_basic, try_except, bind at 1. rewrite Hydl.
  destruct info; try discriminate; reflexivity.
Qed.

(** X15: a download within the budget is handed over untouched.  When the
    provider succeeds and the file it names exists with a size of at most
    [max_size_mb] MiB (the limit itself included), its path is returned, the
    file stays and nothing is reported. *)
Theorem download_accepts_within_budget (url : text) (max_size_mb : Z)
    (w w0 w1 : World) (temp_dir video_path : text) (info : value) (content : bytes) :
  mkdtemp fresh_dir w = (inl temp_dir, w0) ->
  ydl_extract_info extract_info (download_opts temp_dir max_size_mb) url true w0
  = (inl info, w1) ->
  prepare_filename (download_opts temp_dir max_size_mb) info = inl video_path ->
  fs w1 !! video_path = Some (File content) ->
  Z.of_nat (length content) <= max_size_mb * (1024 * 1024) ->
  download url max_size_mb w = (inl (Some video_path), w1).
Proof.
  intros Hmk Hydl Hprep Hfile Hsize.
  rewrite (download_run extract_info prepare_filename fresh_dir dir_size
             url max_size_mb w w0 w1 temp_dir _ Hmk Hydl), Hprep, Hfile.
  cbn [node_size].
  replace (Qgtb _ _) with false; [reflexivity|].
  symmetry. unfold Qgtb. apply negb_false_iff, Qle_bool_iff.
  unfold Qle. cbn [Qnum Qden inject_Z]. lia.
Qed.

(** X16: a failed download is reported, not raised.  When the provider
    raises, or cannot name the file it wrote, the result is [None] with one
    "Error downloading video" message, and the world is otherwise as the
    provider left it. *)
Theorem download_reports_failure (url : text) (max_size_mb : Z)
    (w w0 w1 : World) (temp_dir : text) (e : Exception) :
  mkdtemp fresh_dir w = (inl temp_dir, w0) ->
  (ydl_extract_info extract_info (download_opts temp_dir max_size_mb) url true w0
   = (inr e, w1) ->
   download url max_size_mb w
   = (inl None, shown (st_error [Lit "Error downloading video: "; Exc e]) w1))
  /\ (forall info,
        ydl_extract_info extract_info (download_opts temp_dir max_size_mb) url true w0
        = (inl info, w1) ->
        prepare_filename (download_opts temp_dir max_size_mb) info = inr e ->
        download url max_size_mb w
        = (inl None, shown (st_error [Lit "Error downloading video: "; Exc e]) w1)).
Proof.
  intros Hmk. split.
  - intros Hydl.
    rewrite (download_run extract_info prepare_filename fresh_dir dir_size
               url max_size_mb w w0 w1 temp_dir _ Hmk Hydl).
    reflexivity.
  - intros info Hydl Hprep.
    rewrite (download_run extract_info prepare_filename fresh_dir dir_size
               url max_size_mb w w0 w1 temp_dir _ Hmk Hydl), Hprep.
    reflexivity.
Qed.

End Collaborators.

Lemma video_info_platform_witness :
  exists platform,
    get_video_info_basic Scenario.provider_leaving_nothing (str "https://youtu.be/abc")
      Scenario.empty_world
    = (inl {| title := VStr (str "clip"); duration := VInt 12;
              url := str "https://youtu.be/abc"; platform := platform |},
       Scenario.empty_world)
    /\ platform = str "YouTube".
Proof.
  destruct (video_info_platform Scenario.provider_leaving_nothing
              (str "https://youtu.be/abc")
              [(str "title", VStr (str "clip")); (str "ext", VStr (str "mp4"));
               (str "duration", VInt 12)]
              Scenario.empty_world Scenario.empty_world eq_refl)
    as [platform [Hrun [Hyes _]]].
  exists platform. split; [exact Hrun|].
  apply Hyes. exists (str "https://"), (str "/abc"). right. reflexivity.
Defined.

Lemma video_info_not_a_dict_witness :
  get_video_info_basic provider_returning_none Scenario.sample_url Scenario.empty_world
  = (inl (unknown_video Scenario.sample_url),
     shown (st_error [Lit "Error extracting video info: "; Exc AttributeError])
       Scenario.empty_world).
Proof.
  exact (video_info_not_a_dict provider_returning_none Scenario.sample_url VNone
           Scenario.empty_world Scenario.empty_world eq_refl eq_refl).
Defined.

Lemma download_accepts_within_budget_witness :
  Scenario.run_download [Byte.x00] 20 Scenario.empty_world
  = (inl (Some Scenario.sample_video_path),
     snd (ydl_extract_info (Scenario.provider_leaving [Byte.x00])
            (download_opts Scenario.sample_temp_dir 20) Scenario.sample_url true
            (snd (mkdtemp Scenario.sample_fresh_dir Scenario.empty_world)))).
Proof.
  destruct (sample_download_steps [Byte.x00] 20) as [Hmk [Hydl Hprep]].
  unfold Scenario.run_download.
  refine (download_accepts_within_budget (Scenario.provider_leaving [Byte.x00])
            Scenario.sample_prepare_filename Scenario.sample_fresh_dir
            Scenario.sample_dir_size Scenario.sample_url 20 Scenario.empty_world
            _ _ Scenario.sample_temp_dir Scenario.sample_video_path
            Scenario.sample_info [Byte.x00] Hmk Hydl Hprep _ _).
  - vm_compute. reflexivity.
  - vm_compute. discriminate.
Defined.

Lemma download_reports_failure_witness :
  download_video_for_gemini Scenario.provider_unreachable
    Scenario.sample_prepare_filename Scenario.sample_fresh_dir
    Scenario.sample_dir_size Scenario.sample_url 20 Scenario.empty_world
  = (inl None,
     shown (st_error [Lit "Error downloading video: ";
                      Exc (ExternalError "DownloadError"
                             (str "Unable to download webpage"))])
       (snd (mkdtemp Scenario.sample_fresh_dir Scenario.empty_world))).
Proof.
  exact (proj1 (download_reports_failure Scenario.provider_unreachable
                  Scenario.sample_prepare_filename Scenario.sample_fresh_dir
                  Scenario.sample_dir_size Scenario.sample_url 20
                  Scenario.empty_world _ _ Scenario.sample_temp_dir
                  (ExternalError "DownloadError" (str "Unable to download webpage"))
                  eq_refl)
           eq_refl).
Defined.

End Sources.

(** ** Files staged and downloaded *)

Module Staging.

Import Vocabulary StrFacts Candidate Effects Parser Fences Embedded Display Requests Sources.

Import App Upload.
Local Open Scope py_scope.

Lemma path_join_longer (d name : text) :
  name <> [] -> startswith name (str "/") = false -> path_join d name <> d.
Proof.
  intros Hne Hrel E. unfold path_join in E. rewrite Hrel in E.
  apply (f_equal length) in E.
  destruct (bool_decide (d = []) || endswith d (str "/"));
    rewrite !length_app in E; destruct name; [contradiction| |contradiction|];
    cbn [length] in E; lia.
Qed.

Lemma plain_name_relative (name : text) :
  plain_name name -> startswith name (str "/") = false.
Proof.
  intros [Hne Hslash]. destruct name as [|c name]; [contradiction|].
  apply startswith_other. intros ->. apply Hslash. left.
Qed.

Lemma bind_run {A B} (m : M A) (k : A -> M B) (w : World) :
  bind m k w
  = match m w with
    | (inl a, w1) => k a w1
    | (inr e, w1) => (inr e, w1)
    end.
Proof. reflexivity. Qed.

Section Removal.

Variables (p : text) (w0 : World).
Hypothesis present : exists b, fs w0 !! p = Some (File b).

Lemma removes_file_bind {A} (m : M A) (k : A -> M unit) :
  post same_fs m -> (forall a, removes_file p w0 (k a)) ->
  removes_file p w0 (bind m k).
Proof.
  intros Hm Hk w r w' Hw. unfold bind.
  destruct (m w) as [[a|e] w1] eqn:E; intros H.
  - apply (Hk a w1 r w'); [|exact H].
    transitivity w; [exact Hw|exact (Hm _ _ _ E)].
  - injection H as <- <-. left. exists e. split; [reflexivity|].
    transitivity w; [exact Hw|exact (Hm _ _ _ E)].
Qed.

Lemma removes_file_tail : removes_file p w0 (os_remove p).
Proof.
  intros w r w' [Hf Ht] H. destruct present as [b Hb].
  unfold os_remove in H. rewrite Hf, Hb in H. injection H as <- <-.
  right. split; [reflexivity|]. cbn. rewrite Hf, Ht. split; reflexivity.
Qed.

Lemma removal_handler (w : World) (c : st_call) :
  same_fs w0 w ->
  (st c ;;
   let* present := path_exists p in
   if present then os_remove p else ret tt) w
  = (inl tt, set_fs (delete p) (shown c w)).
Proof.
  intros [Hf Ht]. destruct present as [b Hb].
  unfold bind, st, path_exists, os_remove. cbn. rewrite Hf, Hb. cbn.
  rewrite Hf, Hb. reflexivity.
Qed.

Lemma try_removal (body : M unit) (said : Exception -> st_call)
    (r : unit + Exception) (w' : World) :
  removes_file p w0 body ->
  try_except body any_Exception
    (fun e =>
       st (said e) ;;
       let* present := path_exists p in
       if present then os_remove p else ret tt) w0
  = (r, w') ->
  r = inl tt /\ fs w' = delete p (fs w0) /\ tempdirs w' = tempdirs w0.
Proof.
  intros Hbody. unfold try_except.
  destruct (body w0) as [[[]|e] w1] eqn:Hb.
  - intros [= <- <-].
    destruct (Hbody _ _ _ (reflexivity _) Hb) as [[e [He _]]|[_ H]];
      [discriminate|].
    split; [reflexivity|exact H].
  - destruct (Hbody _ _ _ (reflexivity _) Hb) as [[e' [_ Hsame]]|[Ha _]];
      [|discriminate].
    unfold any_Exception. rewrite (removal_handler w1 _ Hsame).
    intros [= <- <-]. destruct Hsame as [Hf Ht].
    split; [reflexivity|]. cbn. rewrite Hf, Ht. split; reflexivity.
Qed.

End Removal.

Lemma within_limit (size limit : Z) :
  size <= limit * (1024 * 1024) ->
  Qgtb (Qmake size (1024 * 1024)) (inject_Z limit) = false.
Proof.
  intros H. unfold Qgtb. apply negb_false_iff, Qle_bool_iff.
  unfold Qle. cbn [Qnum Qden inject_Z]. lia.
Qed.

Lemma over_limit (size limit : Z) :
  limit * (1024 * 1024) < size ->
  Qgtb (Qmake size (1024 * 1024)) (inject_Z limit) = true.
Proof.
  intros H. apply Acquire.Qgtb_true. unfold Qlt. cbn [Qnum Qden inject_Z]. lia.
Qed.

Section Collaborators.

Variable json_loads : text -> value + Exception.
Variable json_dumps : value -> text.
Variable unicode_lower unicode_upper : text -> text.
Variable extract_info : ydl_opts -> text -> bool -> gmap text node -> provider_outcome.
Variable prepare_filename : ydl_opts -> value -> text + Exception.
Variable generate_content : Request -> option text + Exception.
Variable fresh_dir : gmap text node -> text.
Variable dir_size : Z.

(** X17: the upload analysis leaves the file system as it found it.  For a
    file within the 20 MiB limit with a plain name, staged in a directory
    that is new, the analysis never raises, and when it ends the staging
    file and the directory are gone and every other entry is as before,
    whatever the service replied and whether or not displaying raised. *)
Theorem main_upload_restores_files (uploaded : uploaded_file) (investments : value)
    (w w' : World) (r : unit + Exception) :
  Z.of_nat (length (getvalue uploaded)) <= 20 * (1024 * 1024) ->
  plain_name (name uploaded) ->
  fs w !! fresh_dir (fs w) = None ->
  children (fresh_dir (fs w)) (fs w) = ∅ ->
  fs w !! path_join (fresh_dir (fs w)) (name uploaded) = None ->
  main_upload json_loads json_dumps unicode_lower unicode_upper generate_content
    fresh_dir uploaded investments true w = (r, w') ->
  r = inl tt /\ fs w' = fs w /\ tempdirs w' = tempdirs w ++ [fresh_dir (fs w)].
Proof.
  intros Hsize Hname Hnew Hempty Hfree Hrun.
  set (temp_dir := fresh_dir (fs w)) in *.
  set (temp_path := path_join temp_dir (name uploaded)) in *.
  assert (Hne : temp_path <> temp_dir).
  { apply path_join_longer; [exact (proj1 Hname)|].
    apply plain_name_relative. exact Hname. }
  unfold main_upload in Hrun.
  assert (Hsame : same_fs w w) by reflexivity.
  repeat peel_st Hrun. rewrite (within_limit _ _ Hsize) in Hrun. peel_st Hrun.
  destruct Hsame as [Hf Ht0].
  apply bind_mkdtemp_inv in Hrun as [w2 [Hf2 [Ht2 Hrun]]].
  rewrite Hf in Hf2, Ht2, Hrun. rewrite Ht0 in Ht2.
  fold temp_dir in Hf2, Ht2, Hrun. cbv zeta in Hrun. fold temp_path in Hrun.
  apply bind_write_file_inv in Hrun as [staged_world [Hfs [Ht3 Hrun]]];
    [|rewrite Hf2, lookup_insert_ne by (intros E; apply Hne; symmetry; exact E);
      exact Hfree].
  rewrite Hf2 in Hfs. rewrite Ht2 in Ht3.
  apply analyze_staged_cleans_up in Hrun as [-> [Hend Ht]].
  - split; [reflexivity|]. split; [|rewrite Ht, Ht3; reflexivity].
    rewrite Hend, Hfs.
    rewrite delete_insert_id
      by (rewrite lookup_insert_ne by (intros E; apply Hne; symmetry; exact E);
          exact Hfree).
    apply delete_insert_id. exact Hnew.
  - eexists. rewrite Hfs. apply lookup_insert_eq.
  - rewrite Hfs, lookup_insert_ne by exact Hne. apply lookup_insert_eq.
  - exact Hne.
  - rewrite Hfs. apply children_after_staging. exact Hempty.
Qed.

(** X18: an upload over the limit reaches neither the disk nor the service.
    For a file of more than 20 MiB the analysis only displays: it ends with
    the message that the file is too large, whether or not the button was
    pressed, and nothing but the display has changed. *)
Theorem main_upload_rejects_large (uploaded : uploaded_file) (investments : value)
    (clicked : bool) (w : World) :
  20 * (1024 * 1024) < Z.of_nat (length (getvalue uploaded)) ->
  exists said,
    main_upload json_loads json_dumps unicode_lower unicode_upper generate_content
      fresh_dir uploaded investments clicked w
    = (inl tt, said_more said w)
    /\ last said
       = Some (st_error [Lit " File size exceeds 20MB limit. Please upload a smaller file."]).
Proof.
  intros Hsize. unfold main_upload. rewrite (over_limit _ _ Hsize).
  eexists. split.
  - unfold bind, st.
    rewrite (shown_once (st_columns 2) w), !shown_said_more. cbn [app].
    reflexivity.
  - reflexivity.
Qed.


End Collaborators.

Lemma main_upload_restores_files_witness :
  fst (main_upload Json.json_loads Scenario.sample_dumps Scenario.no_case_mapping
         Scenario.no_case_mapping (Scenario.service_replying (str "{}"))
         Scenario.sample_fresh_dir Scenario.sample_upload (VDict []) true
         Scenario.empty_world) = inl tt
  /\ fs (snd (main_upload Json.json_loads Scenario.sample_dumps
                Scenario.no_case_mapping Scenario.no_case_mapping
                (Scenario.service_replying (str "{}")) Scenario.sample_fresh_dir
                Scenario.sample_upload (VDict []) true Scenario.empty_world))
     = fs Scenario.empty_world
  /\ tempdirs (snd (main_upload Json.json_loads Scenario.sample_dumps
                      Scenario.no_case_mapping Scenario.no_case_mapping
                      (Scenario.service_replying (str "{}"))
                      Scenario.sample_fresh_dir Scenario.sample_upload (VDict [])
                      true Scenario.empty_world))
     = tempdirs Scenario.empty_world
       ++ [Scenario.sample_fresh_dir (fs Scenario.empty_world)].
Proof.
  refine (main_upload_restores_files Json.json_loads Scenario.sample_dumps
            Scenario.no_case_mapping Scenario.no_case_mapping
            (Scenario.service_replying (str "{}")) Scenario.sample_fresh_dir
            Scenario.sample_upload (VDict []) Scenario.empty_world _ _
            _ _ _ _ _ (surjective_pairing _)).
  - vm_compute. discriminate.
  - split; [discriminate|].
    exact (absent_by_check SLASH (str "clip.avi") eq_refl).
  - apply lookup_empty.
  - apply map_filter_empty.
  - apply lookup_empty.
Defined.

Lemma large_upload_size :
  20 * (1024 * 1024) < Z.of_nat (length (getvalue large_upload)).
Proof.
  change (getvalue large_upload)
    with (replicate (Z.to_nat (20 * (1024 * 1024) + 1)) Byte.x00).
  rewrite length_replicate. lia.
Qed.

Lemma main_upload_rejects_large_witness :
  exists said,
    main_upload Json.json_loads Scenario.sample_dumps Scenario.no_case_mapping
      Scenario.no_case_mapping (Scenario.service_replying (str "{}"))
      Scenario.sample_fresh_dir large_upload (VDict []) true Scenario.empty_world
    = (inl tt, said_more said Scenario.empty_world)
    /\ last said
       = Some (st_error [Lit " File size exceeds 20MB limit. Please upload a smaller file."]).
Proof.
  exact (main_upload_rejects_large Json.json_loads Scenario.sample_dumps
           Scenario.no_case_mapping Scenario.no_case_mapping
           (Scenario.service_replying (str "{}")) Scenario.sample_fresh_dir
           large_upload (VDict []) true Scenario.empty_world large_upload_size).
Defined.


End Staging.

(** ** The portfolio and the page *)

Module Portfolio.

Import Page Vocabulary StrFacts Candidate Effects Parser Fences Embedded Display Requests Sources Staging.

Import App Upload.
Local Open Scope page_scope.

Lemma text_eqb_refl (k : text) : text_eqb k k = true.
Proof. unfold text_eqb. apply bool_decide_eq_true_2. reflexivity. Qed.

Lemma text_eqb_ne (a b : text) : a <> b -> text_eqb a b = false.
Proof. intros H. unfold text_eqb. apply bool_decide_eq_false_2. exact H. Qed.

Lemma dict_lookup_set_eq (d : dict) (k : text) (v : value) :
  dict_lookup (dict_set d k v) k = Some v.
Proof.
  induction d as [|[k' v'] d IH]; cbn [dict_set dict_lookup].
  - rewrite text_eqb_refl. reflexivity.
  - destruct (text_eqb k' k) eqn:E; cbn [dict_lookup]; rewrite E; [reflexivity|exact IH].
Qed.

Lemma dict_lookup_set_ne (d : dict) (k k' : text) (v : value) :
  k' <> k -> dict_lookup (dict_set d k v) k' = dict_lookup d k'.
Proof.
  intros Hne. induction d as [|[k0 v0] d IH]; cbn [dict_set dict_lookup].
  - rewrite text_eqb_ne by (intros E; apply Hne; symmetry; exact E). reflexivity.
  - destruct (text_eqb k0 k) eqn:E; cbn [dict_lookup].
    + apply bool_decide_eq_true_1 in E. subst k0.
      rewrite text_eqb_ne by (intros E; apply Hne; symmetry; exact E). reflexivity.
    + destruct (text_eqb k0 k'); [reflexivity|exact IH].
Qed.

Lemma dict_set_new (d : dict) (k : text) (v : value) :
  dict_lookup d k = None -> dict_set d k v = d ++ [(k, v)].
Proof.
  induction d as [|[k' v'] d IH]; cbn [dict_set dict_lookup app]; [reflexivity|].
  destruct (text_eqb k' k); [discriminate|].
  intros H. rewrite (IH H). reflexivity.
Qed.

Lemma dict_set_keys (d : dict) (k : text) (v : value) :
  dict_lookup d k <> None -> map fst (dict_set d k v) = map fst d.
Proof.
  induction d as [|[k' v'] d IH]; cbn [dict_set dict_lookup map fst];
    [intros H; contradiction|].
  destruct (text_eqb k' k); [reflexivity|].
  intros H. cbn [map fst]. rewrite (IH H). reflexivity.
Qed.

Lemma dict_del_absent (d : dict) (k : text) :
  k ∉ map fst d -> dict_del d k = d.
Proof.
  unfold dict_del. induction d as [|[k' v'] d IH]; intros H; [reflexivity|].
  cbn [map fst] in H. apply not_elem_of_cons in H as [Hne H].
  cbn [List.filter fst].
  rewrite text_eqb_ne by (intros E; apply Hne; symmetry; exact E).
  cbn [negb]. rewrite (IH H). reflexivity.
Qed.

Lemma dict_del_middle (d1 d2 : dict) (k : text) (v : value) :
  k ∉ map fst d1 -> k ∉ map fst d2 ->
  dict_del (d1 ++ (k, v) :: d2) k = d1 ++ d2.
Proof.
  intros H1 H2. unfold dict_del. rewrite List.filter_app.
  cbn [List.filter fst]. rewrite text_eqb_refl. cbn [negb].
  fold (dict_del d1 k). fold (dict_del d2 k).
  rewrite (dict_del_absent d1 k H1), (dict_del_absent d2 k H2). reflexivity.
Qed.

Lemma run_st (c : st_call) (p : Session) :
  run (st c) p = (inl tt, {| world := shown c (world p); investments := investments p |}).
Proof. reflexivity. Qed.

Lemma page_after_shown (c : st_call) (l : list st_call) (d d0 : option dict)
    (p : Session) :
  page_after l d {| world := shown c (world p); investments := d0 |}
  = page_after (c :: l) d p.
Proof. unfold page_after. cbn [world]. rewrite said_more_shown. reflexivity. Qed.

(** X20: the form adds one entry under its symbol, or does nothing.  When
    it is submitted with a symbol, the portfolio afterwards holds the form's
    entry under that symbol and every other symbol as before: a new symbol
    is appended, a symbol already there keeps its place and has its entry
    replaced, not added to.  A form not submitted, or submitted without a
    symbol, changes nothing and reports nothing. *)
Theorem investment_form_adds (inp : widgets) (p : Session) :
  (submitted inp = true -> symbol inp <> [] ->
   exists d',
     investment_form inp p
     = (inl tt,
        page_after [st_subheader [Lit "Add Investment Details"];
                    st_success [Lit "Added "; Txt (symbol inp); Lit " to portfolio"]]
          (Some d') p)
     /\ dict_lookup d' (symbol inp) = Some (details_of_form inp)
     /\ (forall k, k <> symbol inp -> dict_lookup d' k = dict_lookup (portfolio p) k)
     /\ (dict_lookup (portfolio p) (symbol inp) = None ->
         d' = portfolio p ++ [(symbol inp, details_of_form inp)])
     /\ (dict_lookup (portfolio p) (symbol inp) <> None ->
         map fst d' = map fst (portfolio p)))
  /\ (submitted inp = false \/ symbol inp = [] ->
      investment_form inp p
      = (inl tt,
         page_after [st_subheader [Lit "Add Investment Details"]] (investments p) p)).
Proof.
  split.
  - intros Hsub Hsym.
    exists (dict_set (portfolio p) (symbol inp) (details_of_form inp)).
    split; [|split; [apply dict_lookup_set_eq|split;
              [intros k Hk; apply dict_lookup_set_ne; exact Hk|split;
                 [apply dict_set_new|apply dict_set_keys]]]].
    unfold investment_form. rewrite Hsub, bool_decide_eq_false_2 by exact Hsym.
    cbn [andb negb]. unfold pbind at 1. rewrite run_st.
    unfold portfolio, page_after.
    destruct p as [w [d|]];
      unfold pbind, run, st, get_investments, set_investments, pret;
      cbn [world investments]; rewrite shown_twice; reflexivity.
  - intros H. unfold investment_form.
    replace (submitted inp && negb (bool_decide (symbol inp = []))) with false.
    + unfold pbind at 1. rewrite run_st. reflexivity.
    + destruct H as [->| ->]; [reflexivity|].
      rewrite bool_decide_eq_true_2 by reflexivity. symmetry. apply andb_false_r.
Qed.

Lemma page_after_twice (l1 l2 : list st_call) (d0 d : option dict) (p : Session) :
  page_after l2 d (page_after l1 d0 p) = page_after (l1 ++ l2) d p.
Proof.
  unfold page_after, said_more. cbn [world fs ui requests tempdirs].
  rewrite <- app_assoc. reflexivity.
Qed.

Lemma page_after_nothing (p : Session) : page_after [] (investments p) p = p.
Proof. destruct p as [w d]. unfold page_after. cbn [world investments]. rewrite said_nothing. reflexivity. Qed.

Section Entries.

Variable format_amount : value -> text + Exception.
Variable inp : widgets.
Hypothesis floats_format : forall a, exists t, format_amount (VFloat a) = inl t.

(** An entry made by the form is displayed, and removed when its button is
    pressed. *)
Lemma show_investment_run (k : text) (v : value) (p : Session) :
  form_entry v ->
  exists said,
    show_investment format_amount inp k v p
    = if button inp (remove_key k)
      then match investments p with
           | Some d => (inr Reruns, page_after said (Some (dict_del d k)) p)
           | None => (inr (Raises AttributeError), page_after said None p)
           end
      else (inl tt, page_after said (investments p) p).
Proof.
  intros [kind [a [notes ->]]]. destruct (floats_format a) as [t Ht].
  exists (st_expander [Txt k; Lit " - "; Val (VStr kind)]
          :: st_write [Lit "Amount: $"; Txt t]
          :: if truthy (VStr notes)
             then [st_write [Lit "Notes: "; Val (VStr notes)]] else []).
  unfold show_investment, remove_key.
  unfold pbind, run, py_getitem, lift, st, ret, raise, get_investments,
    set_investments, st_rerun, pret.
  cbn [dict_lookup]. rewrite !text_eqb_refl.
  repeat (rewrite text_eqb_ne by discriminate). cbn [world investments].
  rewrite Ht. cbn [world investments].
  destruct (truthy (VStr notes)); cbn [world investments];
    destruct (button inp (str "remove_" ++ k));
    try destruct (investments p) as [d|]; cbn [world investments];
    unfold page_after; rewrite ?shown_twice; try reflexivity;
    rewrite <- (said_more_shown _ _ (world p)), ?shown_twice; try reflexivity.
Qed.

(** An entry the form made whose button is not pressed, and the body of
    the loop over the portfolio. *)
Local Abbreviation kept_entry :=
  (fun kv : text * value =>
     form_entry (snd kv) /\ button inp (remove_key (fst kv)) = false).

Local Abbreviation show_entry :=
  (fun kv : text * value => show_investment format_amount inp (fst kv) (snd kv)).

Lemma entries_kept (l : dict) (p : Session) :
  Forall kept_entry l ->
  exists said, pfor_each l show_entry p = (inl tt, page_after said (investments p) p).
Proof.
  intros Hl. revert p. induction Hl as [|[k v] l [Hv Hb] _ IH]; intros p.
  - exists []. cbn [pfor_each]. unfold pret. rewrite page_after_nothing. reflexivity.
  - destruct (show_investment_run k v p Hv) as [said1 H1].
    cbn [fst snd] in Hb. rewrite Hb in H1.
    destruct (IH (page_after said1 (investments p) p)) as [said2 H2].
    exists (said1 ++ said2).
    cbn [pfor_each]. unfold pbind at 1. cbn beta. cbn [fst snd].
    rewrite H1, H2. cbn [investments page_after]. rewrite page_after_twice.
    reflexivity.
Qed.

Lemma entries_until_removed (d1 d2 d : dict) (k : text) (v : value) (p : Session) :
  Forall kept_entry d1 -> form_entry v -> button inp (remove_key k) = true ->
  investments p = Some d ->
  exists said,
    pfor_each (d1 ++ (k, v) :: d2) show_entry p
    = (inr Reruns, page_after said (Some (dict_del d k)) p).
Proof.
  intros Hl Hv Hb. revert p. induction Hl as [|[k1 v1] l [Hv1 Hb1] _ IH]; intros p Hp.
  - destruct (show_investment_run k v p Hv) as [said H].
    rewrite Hb, Hp in H. exists said.
    cbn [app pfor_each]. unfold pbind at 1. cbn beta. cbn [fst snd].
    rewrite H. reflexivity.
  - destruct (show_investment_run k1 v1 p Hv1) as [said1 H1].
    cbn [fst snd] in Hb1. rewrite Hb1 in H1.
    destruct (IH (page_after said1 (investments p) p)) as [said2 H2];
      [exact Hp|].
    exists (said1 ++ said2).
    cbn [app pfor_each]. unfold pbind at 1. cbn beta. cbn [fst snd].
    rewrite H1, H2. rewrite page_after_twice. reflexivity.
Qed.

Lemma current_portfolio_run (d : dict) (p : Session) :
  investments p = Some d -> d <> [] ->
  current_portfolio format_amount inp p
  = pfor_each d show_entry
      {| world := shown (st_subheader [Lit " Current Portfolio"]) (world p);
         investments := investments p |}.
Proof.
  intros Hp Hd. destruct d as [|entry d]; [contradiction|].
  destruct p as [w s]. cbn [investments] in Hp. subst s. reflexivity.
Qed.


(** X22: a portfolio made by the form is displayed without an error.  With
    no "Remove" button pressed, the display of a portfolio whose entries
    were all made by the form returns normally and leaves the portfolio as
    it is. *)
Theorem portfolio_displays (d : dict) (p : Session) :
  investments p = Some d ->
  Forall (fun kv => form_entry (snd kv)
                    /\ button inp (remove_key (fst kv)) = false) d ->
  exists said,
    current_portfolio format_amount inp p = (inl tt, page_after said (Some d) p).
Proof.
  intros Hp Hl. destruct d as [|entry d].
  - exists []. unfold current_portfolio, pbind at 1, get_investments. rewrite Hp.
    unfold pret. rewrite <- Hp, page_after_nothing. reflexivity.
  - destruct (entries_kept (entry :: d)
                {| world := shown (st_subheader [Lit " Current Portfolio"]) (world p);
                   investments := investments p |} Hl) as [said H].
    exists (st_subheader [Lit " Current Portfolio"] :: said).
    rewrite (current_portfolio_run _ p Hp) by discriminate.
    rewrite H, page_after_shown. cbn [investments]. rewrite Hp. reflexivity.
Qed.

End Entries.

(** *** What the page does to files, requests and the portfolio *)

Section PageRelation.

Context (R : Session -> Session -> Prop) `{!PreOrder R}.

Lemma ppost_pret {A} (a : A) : ppost R (pret a).
Proof. intros p r p' [= _ <-]. reflexivity. Qed.

Lemma ppost_stop {A} : ppost R (@st_stop A).
Proof. intros p r p' [= _ <-]. reflexivity. Qed.

Lemma ppost_rerun {A} : ppost R (@st_rerun A).
Proof. intros p r p' [= _ <-]. reflexivity. Qed.

Lemma ppost_get : ppost R get_investments.
Proof. intros p r p' [= _ <-]. reflexivity. Qed.

Lemma ppost_pbind {A B} (m : P A) (k : A -> P B) :
  ppost R m -> (forall a, ppost R (k a)) -> ppost R (pbind m k).
Proof.
  intros Hm Hk p r p'. unfold pbind.
  destruct (m p) as [[a|x] p1] eqn:E; intros H.
  - transitivity p1; [exact (Hm _ _ _ E)|exact (Hk _ _ _ _ H)].
  - injection H as _ <-. exact (Hm _ _ _ E).
Qed.

Lemma ppost_ptry {A} (body : P A) (handler : Exception -> P A) :
  ppost R body -> (forall e, ppost R (handler e)) -> ppost R (ptry body handler).
Proof.
  intros Hb Hh p r p'. unfold ptry.
  destruct (body p) as [[a|[e| |]] p1] eqn:E; intros H;
    try (injection H as _ <-; exact (Hb _ _ _ E)).
  transitivity p1; [exact (Hb _ _ _ E)|exact (Hh _ _ _ _ H)].
Qed.

Lemma ppost_pfor_each {A} (l : list A) (body : A -> P unit) :
  (forall x, ppost R (body x)) -> ppost R (pfor_each l body).
Proof.
  intros Hb. induction l as [|x l IH]; cbn [pfor_each].
  - apply ppost_pret.
  - apply ppost_pbind; [apply Hb|intros _; exact IH].
Qed.

End PageRelation.

Global Instance display_only_preorder : PreOrder display_only.
Proof.
  split.
  - intros p. split; reflexivity.
  - intros a b c [F1 Q1] [F2 Q2]. split; etransitivity; eassumption.
Qed.

Global Instance portfolio_kept_preorder : PreOrder portfolio_kept.
Proof.
  split.
  - intros p. reflexivity.
  - intros a b c H1 H2. unfold portfolio_kept in *. congruence.
Qed.

Lemma display_only_run {A} (m : M A) :
  post same_fs m -> post requests_kept m -> ppost display_only (run m).
Proof.
  intros Hf Hq p r p'. unfold run.
  destruct (m (world p)) as [[a|e] w1] eqn:E; intros [= _ <-];
    (split; [exact (Hf _ _ _ E)|exact (Hq _ _ _ E)]).
Qed.

Lemma display_only_st (c : st_call) : ppost display_only (run (st c)).
Proof. apply display_only_run; [apply same_fs_st|apply kept_st]. Qed.

Lemma display_only_pure {A} (x : A + Exception) : ppost display_only (run (lift x)).
Proof.
  apply display_only_run; intros w r w' [= _ <-]; reflexivity.
Qed.

Lemma display_only_py_getitem (v : value) (k : text) :
  ppost display_only (run (py_getitem v k)).
Proof.
  apply display_only_run; apply post_py_getitem; typeclasses eauto.
Qed.

Lemma display_only_raise {A} (e : Exception) : ppost display_only (run (@raise A e)).
Proof.
  apply display_only_run; intros w r w' [= _ <-]; reflexivity.
Qed.

Lemma display_only_set (d : dict) : ppost display_only (set_investments d).
Proof. intros p r p' [= _ <-]. split; reflexivity. Qed.

Lemma portfolio_kept_run {A} (m : M A) : ppost portfolio_kept (run m).
Proof.
  intros p r p'. unfold run.
  destruct (m (world p)) as [[a|e] w1]; intros [= _ <-]; reflexivity.
Qed.

Ltac ppost_step :=
  lazymatch goal with
  | |- ppost _ (pret _) => apply ppost_pret; typeclasses eauto
  | |- ppost _ st_stop => apply ppost_stop; typeclasses eauto
  | |- ppost _ st_rerun => apply ppost_rerun; typeclasses eauto
  | |- ppost _ get_investments => apply ppost_get; typeclasses eauto
  | |- ppost _ (pbind _ _) => apply ppost_pbind; [typeclasses eauto| |intros ?]
  | |- ppost _ (ptry _ _) => apply ppost_ptry; [typeclasses eauto| |intros ?]
  | |- ppost _ (pfor_each _ _) => apply ppost_pfor_each; [typeclasses eauto|intros ?]
  | |- ppost display_only (run (st _)) => apply display_only_st
  | |- ppost display_only (run (lift _)) => apply display_only_pure
  | |- ppost display_only (run (py_getitem _ _)) => apply display_only_py_getitem
  | |- ppost display_only (run (raise _)) => apply display_only_raise
  | |- ppost display_only (set_investments _) => apply display_only_set
  | |- ppost portfolio_kept (run _) => apply portfolio_kept_run
  | |- ppost _ (if true then _ else _) => cbv iota
  | |- ppost _ (if false then _ else _) => cbv iota
  | |- ppost _ (if ?b then _ else _) => destruct b
  | |- ppost _ (match ?x with _ => _ end) => destruct x
  end.

Section Collaborators.

Variable json_loads : text -> value + Exception.
Variable json_dumps : value -> text.
Variable unicode_lower unicode_upper : text -> text.
Variable extract_info : ydl_opts -> text -> bool -> gmap text node -> provider_outcome.
Variable prepare_filename : ydl_opts -> value -> text + Exception.
Variable fresh_dir : gmap text node -> text.
Variable dir_size : Z.
Variable genai_Client : text -> Client + Exception.
Variable format_amount : value -> text + Exception.
Variable inp : widgets.

Lemma display_only_sidebar :
  ppost display_only (sidebar genai_Client format_amount inp).
Proof.
  unfold sidebar, connect, configure_gemini, investment_form, current_portfolio,
    show_investment.
  repeat ppost_step.
Qed.

Lemma portfolio_kept_video_analysis (client : Client) (investments : value) :
  ppost portfolio_kept
    (video_analysis json_loads json_dumps unicode_lower unicode_upper extract_info
       prepare_filename fresh_dir dir_size inp client investments).
Proof. unfold video_analysis. repeat ppost_step. Qed.

Lemma pbind_returns_inv {A B} (m : P A) (k : A -> P B) (p p' : Session) (b : B) :
  pbind m k p = (inl b, p') ->
  exists a p1, m p = (inl a, p1) /\ k a p1 = (inl b, p').
Proof.
  unfold pbind. destruct (m p) as [[a|x] p1]; [eauto|discriminate].
Qed.

Lemma connect_returns (client : Client) (p p1 : Session) :
  connect genai_Client inp p = (inl client, p1) ->
  api_key inp <> [] /\ genai_Client (api_key inp) = inl client.
Proof.
  unfold connect. intros H.
  apply pbind_returns_inv in H as [? [p2 [_ H]]].
  apply pbind_returns_inv in H as [? [p3 [Hkey H]]].
  split.
  - intros E. rewrite bool_decide_eq_true_2 in Hkey by exact E.
    apply pbind_returns_inv in Hkey as [? [? [_ Hkey]]].
    apply pbind_returns_inv in Hkey as [? [? [_ Hkey]]].
    discriminate.
  - unfold ptry, configure_gemini, pbind, run, lift, st, pret, st_stop in H.
    destruct (genai_Client (api_key inp)) as [c|e]; [|discriminate].
    injection H as -> _. reflexivity.
Qed.

Lemma sidebar_returns (client : Client) (p p1 : Session) :
  sidebar genai_Client format_amount inp p = (inl client, p1) ->
  api_key inp <> [] /\ genai_Client (api_key inp) = inl client.
Proof.
  unfold sidebar. intros H.
  apply pbind_returns_inv in H as [c [p2 [Hc H]]].
  apply pbind_returns_inv in H as [? [? [_ H]]].
  apply pbind_returns_inv in H as [? [? [_ H]]].
  apply pbind_returns_inv in H as [? [? [_ H]]].
  injection H as <- _. exact (connect_returns c p p2 Hc).
Qed.

(** X23: no analysis runs without a key, a client and a portfolio.  A run
    of the page that sends a request or changes a file was given a
    non-empty API key from which a client could be made, and ends with a
    portfolio that is not empty; without them the run only displays and
    ends at [st.stop()]. *)
Theorem page_needs_key_and_portfolio (p p' : Session) (r : unit + ending) :
  page json_loads json_dumps unicode_lower unicode_upper extract_info
    prepare_filename fresh_dir dir_size genai_Client format_amount inp p
  = (r, p') ->
  requests (world p') <> requests (world p) \/ fs (world p') <> fs (world p) ->
  api_key inp <> []
  /\ (exists client, genai_Client (api_key inp) = inl client)
  /\ exists entry d, investments p' = Some (entry :: d).
Proof.
  unfold page, pbind at 1. intros Hrun Hchanged.
  destruct (sidebar genai_Client format_amount inp p) as [[client|x] p1] eqn:Hside.
  - pose proof (display_only_sidebar _ _ _ Hside) as [[Hf _] Hq].
    unfold pbind at 1, get_investments in Hrun.
    destruct (investments p1) as [[|entry d]|] eqn:Hp1.
    + exfalso. unfold pbind, run, st, st_stop in Hrun. injection Hrun as _ <-.
      cbn [world fs requests shown] in Hchanged.
      destruct Hchanged as [H|H]; apply H; [exact Hq|exact Hf].
    + destruct (sidebar_returns client p p1 Hside) as [Hkey Hclient].
      split; [exact Hkey|split; [eauto|]].
      exists entry, d.
      rewrite (portfolio_kept_video_analysis _ _ _ _ _ Hrun). exact Hp1.
    + exfalso. unfold pbind, run, st, st_stop in Hrun. injection Hrun as _ <-.
      cbn [world fs requests shown] in Hchanged.
      destruct Hchanged as [H|H]; apply H; [exact Hq|exact Hf].
  - exfalso. injection Hrun as _ <-.
    pose proof (display_only_sidebar _ _ _ Hside) as [[Hf _] Hq].
    destruct Hchanged as [H|H]; apply H; [exact Hq|exact Hf].
Qed.

End Collaborators.

Lemma investment_form_adds_witness :
  exists d',
    investment_form (sample_widgets []) (sample_session None)
    = (inl tt,
       page_after [st_subheader [Lit "Add Investment Details"];
                   st_success [Lit "Added "; Txt (str "AAPL"); Lit " to portfolio"]]
         (Some d') (sample_session None))
    /\ dict_lookup d' (str "AAPL") = Some (sample_entry "Stock")
    /\ d' = [(str "AAPL", sample_entry "Stock")].
Proof.
  destruct (proj1 (investment_form_adds (sample_widgets []) (sample_session None))
              eq_refl ltac:(discriminate))
    as [d' [Hrun [Hlookup [_ [Hnew _]]]]].
  exists d'. split; [exact Hrun|split; [exact Hlookup|]].
  exact (Hnew eq_refl).
Defined.

Lemma sample_floats_format : forall a, exists t, sample_format (VFloat a) = inl t.
Proof. intros a. exists (str "1,000.00"). reflexivity. Qed.

Lemma sample_entry_made (kind : string) : form_entry (sample_entry kind).
Proof. exists (str kind), (float_of_Z 1000), []. reflexivity. Qed.


Lemma portfolio_displays_witness :
  exists said,
    current_portfolio sample_format (sample_widgets []) (sample_session (Some sample_portfolio))
    = (inl tt, page_after said (Some sample_portfolio)
                 (sample_session (Some sample_portfolio))).
Proof.
  refine (portfolio_displays sample_format (sample_widgets []) sample_floats_format
            sample_portfolio (sample_session (Some sample_portfolio)) eq_refl _).
  repeat constructor; try apply sample_entry_made; vm_compute; reflexivity.
Defined.

Lemma sample_page_run_sends :
  requests (world (snd sample_page_run))
  <> requests (world (sample_session (Some sample_portfolio))).
Proof. vm_compute. discriminate. Qed.

Lemma page_needs_key_and_portfolio_witness :
  api_key (sample_widgets (str "Analyze YouTube Video")) <> []
  /\ (exists client,
        sample_client (api_key (sample_widgets (str "Analyze YouTube Video")))
        = inl client)
  /\ exists entry d, investments (snd sample_page_run) = Some (entry :: d).
Proof.
  exact (page_needs_key_and_portfolio Json.json_loads Scenario.sample_dumps
           Scenario.no_case_mapping Scenario.no_case_mapping
           Scenario.provider_unreachable Scenario.sample_prepare_filename
           Scenario.sample_fresh_dir Scenario.sample_dir_size sample_client
           sample_format (sample_widgets (str "Analyze YouTube Video"))
           (sample_session (Some sample_portfolio)) (snd sample_page_run)
           (fst sample_page_run) (surjective_pairing sample_page_run)
           (or_introl sample_page_run_sends)).
Defined.

End Portfolio.
